(** * The avatar engine (hooks/useAvatarEngine.ts): transport, feature
    extraction, emotion blending and export, as a shallow embedding.

    Numbers: the hook computes on JavaScript numbers.  They are modelled as
    rationals [Q]; every constant of the source (0.7, 0.995, 0.001, ...) is
    the rational it denotes.  [Math.min] and [Math.max] are [Qmin] and
    [Qmax]; numeric results are compared with [==], the equality of the
    rationals as numbers.  [Math.sqrt] and [Math.sin] have no rational
    counterpart and are parameters of the per-frame loop. *)

From Stdlib Require Import QArith Qminmax Qround Lqa Lia Bool PeanoNat List String.
From Stdlib Require Import Qabs Ascii DecimalString.
Import ListNotations.

Local Open Scope Q_scope.

(** ** Numeric helpers of the module *)

(** [const clamp01 = (value) => Math.min(1, Math.max(0, value))] *)
Definition clamp01 (value : Q) : Q := Qmin 1 (Qmax 0 value).

(** [const smoothStep = (value, smoothing = 0.3) =>
      value < 0 ? 0 : value > 1 ? 1
      : value*value*(3 - 2*value)*smoothing + value*(1 - smoothing)] *)
Definition smoothStep (value smoothing : Q) : Q :=
  if Qlt_le_dec value 0 then 0
  else if Qlt_le_dec 1 value then 1
  else value * value * (3 - 2 * value) * smoothing + value * (1 - smoothing).

(** ** Emotions *)

Record EmotionState := mkEmotion {
  happy : Q;
  sad : Q;
  angry : Q;
  surprised : Q;
  neutral : Q
}.

Inductive EmotionKey := Happy | Sad | Angry | Surprised | Neutral.

Definition DEFAULT_EMOTIONS : EmotionState :=
  mkEmotion (4#10) (1#10) (1#10) (2#10) (8#10).

Definition computeEmotionBlend (emotion : EmotionState) (energy : Q) : EmotionState :=
  {| happy := clamp01 (happy emotion * (7#10) + energy * (2#10) + neutral emotion * (1#10));
     sad := clamp01 (sad emotion * (7#10) + (1 - energy) * (2#10) + neutral emotion * (1#10));
     angry := clamp01 (angry emotion * (6#10) + energy * (25#100));
     surprised := clamp01 (surprised emotion * (6#10) + energy * (35#100));
     neutral := clamp01 (neutral emotion * (4#10) + (1 - energy) * (2#10)) |}.

(** [setEmotionValue]'s object spread [{ ...prev, [key]: clamp01(value) }]. *)
Definition setEmotionKey (key : EmotionKey) (v : Q) (prev : EmotionState) : EmotionState :=
  match key with
  | Happy => mkEmotion v (sad prev) (angry prev) (surprised prev) (neutral prev)
  | Sad => mkEmotion (happy prev) v (angry prev) (surprised prev) (neutral prev)
  | Angry => mkEmotion (happy prev) (sad prev) v (surprised prev) (neutral prev)
  | Surprised => mkEmotion (happy prev) (sad prev) (angry prev) v (neutral prev)
  | Neutral => mkEmotion (happy prev) (sad prev) (angry prev) (surprised prev) v
  end.

(** ** Values that come from the platform *)

(** A promise or a call that may throw: it resolves with a value or rejects
    with an error (the error's message). *)
Inductive Outcome (A : Type) : Type :=
| Resolved (value : A)
| Rejected (error : string).
Arguments Resolved {A} value.
Arguments Rejected {A} error.

Definition Bytes := list nat.

(** A decoded [AudioBuffer]: only its duration and its samples are read. *)
Record AudioBuffer := mkAudioBuffer {
  duration : Q;
  channelData : list Q
}.

(** [AudioBufferSourceNode]s are single-use objects compared by identity
    ([sourceNodeRef.current === source]); the n-th node the engine creates
    is identified by n. *)
Definition NodeId := nat.

(** The nodes of the Web Audio graph the hook builds. *)
Inductive GraphNode :=
| NSource (id : NodeId)
| NAnalyser
| NGain
| NSpeaker        (* audioContext.destination *)
| NCaptureSink.   (* MediaStreamAudioDestinationNode *)

Definition GraphNode_eqb (a b : GraphNode) : bool :=
  match a, b with
  | NSource i, NSource j => Nat.eqb i j
  | NAnalyser, NAnalyser | NGain, NGain
  | NSpeaker, NSpeaker | NCaptureSink, NCaptureSink => true
  | _, _ => false
  end.

Definition Edge := (GraphNode * GraphNode)%type.

Definition Edge_eqb (e f : Edge) : bool :=
  GraphNode_eqb (fst e) (fst f) && GraphNode_eqb (snd e) (snd f).

(** [a.connect(b)]: connecting twice leaves one connection. *)
Definition connect (a b : GraphNode) (g : list Edge) : list Edge :=
  if existsb (Edge_eqb (a, b)) g then g else (a, b) :: g.

(** [a.disconnect()]: every outgoing connection of [a] is removed. *)
Definition disconnect (a : GraphNode) (g : list Edge) : list Edge :=
  filter (fun e => negb (GraphNode_eqb (fst e) a)) g.

Definition preds (g : list Edge) (n : GraphNode) : list GraphNode :=
  map fst (filter (fun e => GraphNode_eqb (snd e) n) g).

(** ** Signal flow through the graph *)

Definition fftSize : nat := 2048.
(** [analyser.frequencyBinCount], the length of [dataArrayRef.current]. *)
Definition frequencyBinCount : nat := Nat.div fftSize 2.

Definition silence : list Q := repeat 0 frequencyBinCount.

(** Mixing a block into an accumulator of fixed length. *)
Fixpoint addBlock (acc blk : list Q) : list Q :=
  match acc with
  | [] => []
  | a :: acc' =>
      match blk with
      | [] => a :: acc'
      | b :: blk' => (a + b) :: addBlock acc' blk'
      end
  end.

(** What a node emits for one block: a source emits what the platform
    renders for it, the analyser passes its input through, the gain node
    multiplies by [gain.value], the two sinks receive their input. *)
Fixpoint nodeOutput (fuel : nat) (g : list Edge) (gain : Q)
    (render : NodeId -> list Q) (n : GraphNode) : list Q :=
  match fuel with
  | O => silence
  | S fuel' =>
      let input :=
        fold_left addBlock (map (nodeOutput fuel' g gain render) (preds g n)) silence in
      match n with
      | NSource id => addBlock silence (render id)
      | NAnalyser => input
      | NGain => map (Qmult gain) input
      | NSpeaker => input
      | NCaptureSink => input
      end
  end.

(** source -> analyser -> gain -> sink is the longest path. *)
Definition graphDepth : nat := 4.

(** ** The engine: React state and refs of [useAvatarEngine]

    [faceSource] and [uploadedFaceName] (texture selection) are left out:
    no transport, loading or export code reads or writes them.
    [connections] and [nodesCreated] have no ref in the source: they are
    the state of the Web Audio graph the refs point into. *)
Record Engine := mkEngine {
  (* useState *)
  emotions : EmotionState;
  gestureSeed : Q;
  isPlaying : bool;
  isLoadingAudio : bool;
  isGeneratingSpeech : bool;
  isProcessingVideo : bool;
  isExporting : bool;
  playbackProgress : Q;
  audioDuration : Q;
  audioName : option string;
  statusMessage : option string;
  volume : Q;
  hasAudio : bool;                 (* the useState flag written by setHasAudio *)
  mouthOpen : Q;
  blink : Q;
  headRotation : Q * Q * Q;
  eyeDirection : Q * Q;
  handWave : Q;
  energy : Q;
  (* useRef *)
  audioBufferRef : option AudioBuffer;
  audioContextRef : bool;          (* an AudioContext has been created *)
  analyserRef : bool;              (* with it, dataArrayRef *)
  gainRef : option Q;              (* the gain node, by its gain.value *)
  destinationRef : bool;
  sourceNodeRef : option NodeId;
  startTimeRef : Q;
  pauseOffsetRef : Q;
  ignoreEndRef : bool;
  peakEnergyRef : Q;
  (* the audio graph *)
  connections : list Edge;
  nodesCreated : nat
}.

Definition eta_Engine (r : Engine) : Engine :=
  mkEngine (emotions r) (gestureSeed r) (isPlaying r) (isLoadingAudio r)
    (isGeneratingSpeech r) (isProcessingVideo r) (isExporting r)
    (playbackProgress r) (audioDuration r) (audioName r) (statusMessage r)
    (volume r) (hasAudio r) (mouthOpen r) (blink r) (headRotation r)
    (eyeDirection r) (handWave r) (energy r) (audioBufferRef r)
    (audioContextRef r) (analyserRef r) (gainRef r) (destinationRef r)
    (sourceNodeRef r) (startTimeRef r) (pauseOffsetRef r) (ignoreEndRef r)
    (peakEnergyRef r) (connections r) (nodesCreated r).

(** Assignment to one field: the eta-expansion with that projection
    replaced by the new value. *)
Ltac field_setter proj :=
  let body := eval cbv [eta_Engine] in eta_Engine in
  match eval pattern proj in body with
  | ?f _ =>
      let t := eval cbv beta in (fun v (s : Engine) => f (fun _ : Engine => v) s) in
      exact t
  end.

Definition set_emotions : EmotionState -> Engine -> Engine := ltac:(field_setter emotions).
Definition set_gestureSeed : Q -> Engine -> Engine := ltac:(field_setter gestureSeed).
Definition set_isPlaying : bool -> Engine -> Engine := ltac:(field_setter isPlaying).
Definition set_isLoadingAudio : bool -> Engine -> Engine := ltac:(field_setter isLoadingAudio).
Definition set_isGeneratingSpeech : bool -> Engine -> Engine := ltac:(field_setter isGeneratingSpeech).
Definition set_isProcessingVideo : bool -> Engine -> Engine := ltac:(field_setter isProcessingVideo).
Definition set_isExporting : bool -> Engine -> Engine := ltac:(field_setter isExporting).
Definition set_playbackProgress : Q -> Engine -> Engine := ltac:(field_setter playbackProgress).
Definition set_audioDuration : Q -> Engine -> Engine := ltac:(field_setter audioDuration).
Definition set_audioName : option string -> Engine -> Engine := ltac:(field_setter audioName).
Definition set_statusMessage : option string -> Engine -> Engine := ltac:(field_setter statusMessage).
Definition set_volume : Q -> Engine -> Engine := ltac:(field_setter volume).
Definition set_hasAudio : bool -> Engine -> Engine := ltac:(field_setter hasAudio).
Definition set_mouthOpen : Q -> Engine -> Engine := ltac:(field_setter mouthOpen).
Definition set_blink : Q -> Engine -> Engine := ltac:(field_setter blink).
Definition set_headRotation : Q * Q * Q -> Engine -> Engine := ltac:(field_setter headRotation).
Definition set_eyeDirection : Q * Q -> Engine -> Engine := ltac:(field_setter eyeDirection).
Definition set_handWave : Q -> Engine -> Engine := ltac:(field_setter handWave).
Definition set_energy : Q -> Engine -> Engine := ltac:(field_setter energy).
Definition set_audioBufferRef : option AudioBuffer -> Engine -> Engine := ltac:(field_setter audioBufferRef).
Definition set_audioContextRef : bool -> Engine -> Engine := ltac:(field_setter audioContextRef).
Definition set_analyserRef : bool -> Engine -> Engine := ltac:(field_setter analyserRef).
Definition set_gainRef : option Q -> Engine -> Engine := ltac:(field_setter gainRef).
Definition set_destinationRef : bool -> Engine -> Engine := ltac:(field_setter destinationRef).
Definition set_sourceNodeRef : option NodeId -> Engine -> Engine := ltac:(field_setter sourceNodeRef).
Definition set_startTimeRef : Q -> Engine -> Engine := ltac:(field_setter startTimeRef).
Definition set_pauseOffsetRef : Q -> Engine -> Engine := ltac:(field_setter pauseOffsetRef).
Definition set_ignoreEndRef : bool -> Engine -> Engine := ltac:(field_setter ignoreEndRef).
Definition set_peakEnergyRef : Q -> Engine -> Engine := ltac:(field_setter peakEnergyRef).
Definition set_connections : list Edge -> Engine -> Engine := ltac:(field_setter connections).
Definition set_nodesCreated : nat -> Engine -> Engine := ltac:(field_setter nodesCreated).

(** The state of the hook's first render; [seed] is [Math.random()]. *)
Definition initialEngine (seed : Q) : Engine :=
  {| emotions := DEFAULT_EMOTIONS; gestureSeed := seed; isPlaying := false;
     isLoadingAudio := false; isGeneratingSpeech := false;
     isProcessingVideo := false; isExporting := false; playbackProgress := 0;
     audioDuration := 0; audioName := None; statusMessage := None;
     volume := 1; hasAudio := false; mouthOpen := 0; blink := 0;
     headRotation := (0, 0, 0); eyeDirection := (0, 0); handWave := 0;
     energy := 0; audioBufferRef := None; audioContextRef := false;
     analyserRef := false; gainRef := None; destinationRef := false;
     sourceNodeRef := None; startTimeRef := 0; pauseOffsetRef := 0;
     ignoreEndRef := false; peakEnergyRef := 1 # 10000; connections := [];
     nodesCreated := 0 |}.

(** ** Asynchronous code: state passing with rejection

    An [async] function of the hook is a state transformer that resolves
    with a value or rejects with an error.  Between two [await]s the code
    runs without interruption. *)
Definition Async (A : Type) : Type := Engine -> Engine * Outcome A.

Definition ret {A} (a : A) : Async A := fun s => (s, Resolved a).
Definition throw {A} (error : string) : Async A := fun s => (s, Rejected error).
Definition bind {A B} (m : Async A) (k : A -> Async B) : Async B :=
  fun s =>
    match m s with
    | (s', Resolved a) => k a s'
    | (s', Rejected e) => (s', Rejected e)
    end.
(** A statement that only assigns to state or refs. *)
Definition modify (f : Engine -> Engine) : Async unit := fun s => (f s, Resolved tt).
Definition gets {A} (f : Engine -> A) : Async A := fun s => (s, Resolved (f s)).
(** Awaiting a promise of the platform, whose outcome is given. *)
Definition await {A} (o : Outcome A) : Async A := fun s => (s, o).
(** A synchronous platform call that throws when [fault] is set. *)
Definition mayThrow (fault : option string) : Async unit :=
  fun s => match fault with Some e => (s, Rejected e) | None => (s, Resolved tt) end.

(** [try { body } catch (error) { handler; throw error } finally { final }] *)
Definition tryCatchFinally {A} (body : Async A)
    (handler final : Engine -> Engine) : Async A :=
  fun s =>
    match body s with
    | (s', Resolved a) => (final s', Resolved a)
    | (s', Rejected e) => (final (handler s'), Rejected e)
    end.

Declare Scope async_scope.
Delimit Scope async_scope with async.
Notation "x <- m ;; k" := (bind m (fun x => k))
  (at level 61, m at next level, right associativity) : async_scope.
Notation "m ;; k" := (bind m (fun _ => k))
  (at level 61, right associativity) : async_scope.

(** ** The audio graph *)

(** What the platform does when [ensureAudioContext] runs. *)
Inductive Backend :=
| BackendReady
| BackendNoWindow                          (* typeof window === 'undefined' *)
| BackendConstructFails (error : string)   (* new AudioContext() throws *)
| BackendResumeRejects (error : string).   (* suspended, and resume() rejects *)

(** [volume] is the value of the [volume] state in the render that created
    the callback (dependency list [[volume]]). *)
Definition ensureAudioContext (volume : Q) (backend : Backend) : Async unit :=
  fun s =>
    match backend with
    | BackendNoWindow => (s, Rejected "Audio context not available on the server.")
    | _ =>
        match backend, audioContextRef s with
        | BackendConstructFails e, false => (s, Rejected e)
        | _, _ =>
            let s := if audioContextRef s then s else set_audioContextRef true s in
            match backend with
            | BackendResumeRejects e => (s, Rejected e)
            | _ =>
                let s := match gainRef s with
                         | None => set_gainRef (Some volume) s
                         | Some _ => s
                         end in
                let s := if destinationRef s then s else set_destinationRef true s in
                let s := if analyserRef s then s
                         else set_connections (connect NAnalyser NGain (connections s))
                                (set_analyserRef true s) in
                (* a GainNode has one output: numberOfOutputs > 0 *)
                let s := match gainRef s with
                         | Some _ =>
                             if destinationRef s
                             then set_connections
                                    (connect NGain NCaptureSink
                                       (connect NGain NSpeaker (connections s))) s
                             else s
                         | None => s
                         end in
                (set_gainRef (Some volume) s, Resolved tt)
            end
        end
    end.

(** [analyser.getFloatTimeDomainData(dataArray)]: the block at the
    analyser's input. *)
Definition getFloatTimeDomainData (render : NodeId -> list Q) (s : Engine) : list Q :=
  nodeOutput graphDepth (connections s)
    (match gainRef s with Some g => g | None => 1 end) render NAnalyser.

(** The block that reaches the speakers. *)
Definition speakerSignal (render : NodeId -> list Q) (s : Engine) : list Q :=
  nodeOutput graphDepth (connections s)
    (match gainRef s with Some g => g | None => 1 end) render NSpeaker.

(** ** Playback transport *)

Definition stopCurrentSource (s : Engine) : Engine :=
  match sourceNodeRef s with
  | Some n =>
      (* stop() in a try block, then disconnect() *)
      set_sourceNodeRef None
        (set_connections (disconnect (NSource n) (connections s)) s)
  | None => s
  end.

(** [isPlaying] is the captured state (dependency list [[isPlaying]]);
    [now] is [audioContext.currentTime]. *)
Definition getCurrentOffset (isPlaying : bool) (now : Q) (s : Engine) : Q :=
  match audioBufferRef s with
  | None => 0
  | Some buffer =>
      if isPlaying && audioContextRef s
      then Qmin (Qmax (now - startTimeRef s) 0) (duration buffer)
      else Qmin (pauseOffsetRef s) (duration buffer)
  end.

Definition option_nat_eqb (a b : option nat) : bool :=
  match a, b with
  | Some x, Some y => Nat.eqb x y
  | None, None => true
  | _, _ => false
  end.

(** The [source.onended] handler installed by [schedulePlayback]; it also
    resolves the [done] promise, in both branches. *)
Definition onended (source : NodeId) (markPlaying : bool) (s : Engine) : Engine :=
  if negb (ignoreEndRef s) && option_nat_eqb (sourceNodeRef s) (Some source)
  then
    let s := set_sourceNodeRef None s in
    let s := set_pauseOffsetRef 0 s in
    if markPlaying then set_isPlaying false s else s
  else s.

(** The offset a segment starts at:
    [Math.min(Math.max(offset, 0), Math.max(duration - 0.001, 0))]. *)
Definition startOffsetOf (offset duration : Q) : Q :=
  Qmin (Qmax offset 0) (Qmax (duration - (1 # 1000)) 0).

(** Resolves with the node it started ([{ source, done }]), or with [None]
    when no buffer is loaded. *)
Definition schedulePlayback (volume : Q) (backend : Backend) (now : Q)
    (offset : Q) (markPlaying : bool) : Async (option NodeId) :=
  fun s =>
    match audioBufferRef s with
    | None => (s, Resolved None)
    | Some buffer =>
        (_ <- ensureAudioContext volume backend ;;
         fun s =>
           let startOffset := startOffsetOf offset (duration buffer) in
           let s := stopCurrentSource s in
           let s := set_ignoreEndRef false s in
           (* createBufferSource(); source.connect(analyser) *)
           let source := nodesCreated s in
           let s := set_nodesCreated (S source) s in
           let s := set_connections (connect (NSource source) NAnalyser (connections s)) s in
           let s := set_sourceNodeRef (Some source) s in
           let s := set_startTimeRef (now - startOffset) s in
           let s := set_pauseOffsetRef startOffset s in
           let s := if markPlaying then set_isPlaying true s else s in
           (s, Resolved (Some source)))%async s
    end.

Definition play (isPlaying : bool) (volume : Q) (backend : Backend) (now : Q)
    : Async unit :=
  fun s =>
    match audioBufferRef s with
    | None => (s, Rejected "Load audio before playing the preview.")
    | Some _ =>
        let offset := getCurrentOffset isPlaying now s in
        (_ <- schedulePlayback volume backend now offset true ;; ret tt)%async s
    end.

Definition pause (isPlaying : bool) (now : Q) (s : Engine) : Engine :=
  match audioBufferRef s with
  | None => s
  | Some _ =>
      if negb (audioContextRef s) || negb isPlaying then s
      else
        let offset := getCurrentOffset isPlaying now s in
        let s := set_pauseOffsetRef offset s in
        let s := set_ignoreEndRef true s in
        let s := stopCurrentSource s in
        set_isPlaying false s
  end.

Definition resetPlayback (s : Engine) : Engine :=
  let s := set_pauseOffsetRef 0 s in
  let s := set_startTimeRef 0 s in
  let s := stopCurrentSource s in
  let s := set_isPlaying false s in
  let s := set_playbackProgress 0 s in
  let s := set_mouthOpen 0 s in
  let s := set_energy 0 s in
  let s := set_blink 0 s in
  let s := set_headRotation (0, 0, 0) s in
  let s := set_eyeDirection (0, 0) s in
  set_handWave 0 s.



(** ** Loading audio *)

(** What the platform does during [decodeAudioData]: the backend for
    [ensureAudioContext], and the result of
    [audioContext.decodeAudioData(bytes)]. *)
Record DecodeEnv := mkDecodeEnv {
  dec_backend : Backend;
  dec_decoded : Outcome AudioBuffer
}.

Definition decodeAudioData (volume : Q) (env : DecodeEnv) (arrayBuffer : Bytes)
    : Async unit :=
  (_ <- ensureAudioContext volume (dec_backend env) ;;
   decoded <- await (dec_decoded env) ;;
   modify (set_audioBufferRef (Some decoded)) ;;
   modify (set_hasAudio true) ;;
   modify (set_audioDuration (duration decoded)) ;;
   modify resetPlayback)%async.

(** [fileBytes] is the outcome of [file.arrayBuffer()]. *)
Definition loadAudioFromFile (volume : Q) (fileName : string)
    (fileBytes : Outcome Bytes) (env : DecodeEnv) : Async unit :=
  (modify (set_isLoadingAudio true) ;;
   modify (set_statusMessage (Some ("Decoding " ++ fileName ++ "...")%string)) ;;
   tryCatchFinally
     (modify (set_hasAudio false) ;;
      buffer <- await fileBytes ;;
      decodeAudioData volume env buffer ;;
      modify (set_audioName (Some fileName)) ;;
      modify (set_statusMessage (Some ("Loaded " ++ fileName)%string)))
     (fun s => set_hasAudio false
                 (set_statusMessage (Some "Unable to decode audio file."%string) s))
     (set_isLoadingAudio false))%async.

(** White space removed by [String.prototype.trim], for the characters a
    [string] of bytes can hold. *)
Definition isWhiteSpace (c : Ascii.ascii) : bool :=
  let n := Ascii.nat_of_ascii c in
  (Nat.leb 9 n && Nat.leb n 13) || Nat.eqb n 32.

(** [!text.trim()]: the text is empty once trimmed. *)
Fixpoint isBlank (text : string) : bool :=
  match text with
  | EmptyString => true
  | String c rest => isWhiteSpace c && isBlank rest
  end.

(** The answer of [fetch('/api/tts', ...)]: [response.ok] and the outcome
    of [response.arrayBuffer()]. *)
Record Response := mkResponse {
  ok : bool;
  body : Outcome Bytes
}.

Definition generateSpeechFromText (volume : Q) (text voice : string)
    (fetched : Outcome Response) (env : DecodeEnv) : Async unit :=
  if isBlank text then throw "Please provide text to generate speech."
  else
    (modify (set_isGeneratingSpeech true) ;;
     modify (set_statusMessage (Some "Synthesizing speech..."%string)) ;;
     tryCatchFinally
       (modify (set_hasAudio false) ;;
        response <- await fetched ;;
        (if ok response then ret tt else throw "Unable to generate speech.") ;;
        arrayBuffer <- await (body response) ;;
        decodeAudioData volume env arrayBuffer ;;
        modify (set_audioName (Some ("TTS • " ++ voice)%string)) ;;
        modify (set_statusMessage (Some "Speech generated successfully."%string)))
       (fun s => set_hasAudio false
                   (set_statusMessage (Some "Text-to-speech failed."%string) s))
       (set_isGeneratingSpeech false))%async.

(** [extracted] is the outcome of [extractAudioFromVideo(file)]. *)
Definition loadAudioFromVideo (volume : Q) (fileName : string)
    (extracted : Outcome Bytes) (env : DecodeEnv) : Async unit :=
  (modify (set_isProcessingVideo true) ;;
   modify (set_statusMessage
             (Some ("Extracting audio from " ++ fileName ++ "...")%string)) ;;
   tryCatchFinally
     (modify (set_hasAudio false) ;;
      wavBuffer <- await extracted ;;
      decodeAudioData volume env wavBuffer ;;
      modify (set_audioName (Some (fileName ++ " • audio track")%string)) ;;
      modify (set_statusMessage (Some "Video audio extracted."%string)))
     (fun s => set_hasAudio false
                 (set_statusMessage
                    (Some "Unable to extract audio from video."%string) s))
     (set_isProcessingVideo false))%async.

(** ** Small controls *)

Definition setEmotionValue (key : EmotionKey) (value : Q) (s : Engine) : Engine :=
  set_emotions (setEmotionKey key (clamp01 value) (emotions s)) s.

(** [random] is [Math.random()]. *)
Definition regenerateGestures (random : Q) (s : Engine) : Engine :=
  set_gestureSeed random s.

Definition updateVolume (value : Q) (s : Engine) : Engine :=
  let clamped := clamp01 value in
  let s := set_volume clamped s in
  match gainRef s with
  | Some _ => set_gainRef (Some clamped) s
  | None => s
  end.

(** ** The per-frame loop: feature extraction and animation state *)

(** [Math.sqrt] and [Math.sin], provided by the platform. *)
Class JsMath := {
  Math_sqrt : Q -> Q;
  Math_sin : Q -> Q
}.

(** What the feature extractor relies on: a square root is not negative. *)
Class JsMathSpec (M : JsMath) : Prop :=
  Math_sqrt_nonneg : forall x : Q, 0 <= x -> 0 <= Math_sqrt x.

(** [for (i ...) { const val = dataArray[i]; sum += val * val; }] *)
Definition sumSquares (dataArray : list Q) : Q :=
  fold_left (fun sum val => sum + val * val) dataArray 0.

(** The multiplier of [peakEnergyRef.current * 0.995]. *)
Definition decayFactor : Q := 995 # 1000.

(** [Math.max(peakEnergyRef.current * 0.995, rms)] *)
Definition trackPeak (peak rms : Q) : Q := Qmax (peak * decayFactor) rms.

(** [peakEnergyRef.current > 0 ? rms / peakEnergyRef.current : 0] *)
Definition normalizeEnergy (peak rms : Q) : Q :=
  if Qlt_le_dec 0 peak then rms / peak else 0.

Section Loop.
Context {M : JsMath}.

(** [Math.sqrt(sum / dataArray.length)] *)
Definition rmsOf (dataArray : list Q) : Q :=
  Math_sqrt (sumSquares dataArray / inject_Z (Z.of_nat (List.length dataArray))).

(** One run of [loop], the [requestAnimationFrame] callback.  [now] is
    [audioContext.currentTime], [t] is [performance.now() / 1000], and
    [render] is what each source node emits for this block.  The effect
    is re-created whenever [emotions], [gestureSeed] or [isPlaying]
    change, so the captured values are those of the state. *)
Definition loop (now t : Q) (render : NodeId -> list Q) (s : Engine) : Engine :=
  match analyserRef s, audioBufferRef s with
  | true, Some buffer =>
      let dataArray := getFloatTimeDomainData render s in
      let rms := rmsOf dataArray in
      let peak := trackPeak (peakEnergyRef s) rms in
      let normalizedEnergy := normalizeEnergy peak rms in
      let smoothedMouth := smoothStep (normalizedEnergy * (18 # 10)) (4 # 10) in
      let newEnergy := clamp01 normalizedEnergy in
      let now := if audioContextRef s then now else 0 in
      let elapsed := if isPlaying s then now - startTimeRef s else pauseOffsetRef s in
      let rawProgress :=
        if Qlt_le_dec 0 (duration buffer)
        then Qmin (elapsed / duration buffer) (999 # 1000) else 0 in
      let seed := gestureSeed s in
      let headX := Math_sin (t * (13 # 10) + seed) * (15 # 100) * ((5 # 10) + newEnergy) in
      let headY := Math_sin (t * (9 # 10) + seed * (22 # 10)) * (2 # 10)
                   * ((4 # 10) + happy (emotions s) * (6 # 10)) in
      let headZ := Math_sin (t * (17 # 10) + seed * (14 # 10)) * (8 # 100)
                   * ((5 # 10) + surprised (emotions s) * (3 # 10)) in
      let blinkSpeed := (6 # 10) + neutral (emotions s) * (4 # 10)
                        + (1 - newEnergy) * (5 # 10) in
      let blinkValue := (Math_sin (t * blinkSpeed + seed * (41 # 10)) + 1) / 2 in
      let eyeX := Math_sin (t * (7 # 10) + seed * (34 # 10)) * (4 # 10)
                  * ((4 # 10) + newEnergy) in
      let eyeY := Math_sin (t * (5 # 10) + seed * (21 # 10)) * (3 # 10)
                  * ((5 # 10) + surprised (emotions s) * (4 # 10)) in
      let hand := Math_sin (t * (18 # 10) + seed * (62 # 10))
                  * ((3 # 10) + newEnergy * (5 # 10)) in
      let '(x, y, z) := headRotation s in
      let '(prevX, prevY) := eyeDirection s in
      let s := set_peakEnergyRef peak s in
      let s := set_mouthOpen (mouthOpen s * (8 # 10) + smoothedMouth * (2 # 10)) s in
      let s := set_energy (energy s * (9 # 10) + newEnergy * (1 # 10)) s in
      let s := set_playbackProgress
                 (playbackProgress s * (8 # 10) + rawProgress * (2 # 10)) s in
      let s := set_headRotation
                 (x * (8 # 10) + headX * (2 # 10),
                  y * (8 # 10) + headY * (2 # 10),
                  z * (8 # 10) + headZ * (2 # 10)) s in
      let s := set_blink
                 (if Qlt_le_dec (85 # 100) blinkValue
                  then (blinkValue - (85 # 100)) * 6 else 0) s in
      let s := set_eyeDirection
                 (prevX * (8 # 10) + eyeX * (2 # 10),
                  prevY * (8 # 10) + eyeY * (2 # 10)) s in
      set_handWave (handWave s * (85 # 100) + hand * (15 # 100)) s
  | _, _ => s
  end.


(** ** What can happen to the engine

    Each callback is invoked as created by the latest render, so the
    state it captured is the current one. *)
Inductive Event :=
| Frame (now t : Q) (render : NodeId -> list Q)
| Play (backend : Backend) (now : Q)
| Pause (now : Q)
| Ended (source : NodeId) (markPlaying : bool)
| UpdateVolume (value : Q)
| SetEmotionValue (key : EmotionKey) (value : Q)
| RegenerateGestures (random : Q)
| LoadAudioFromFile (fileName : string) (fileBytes : Outcome Bytes) (env : DecodeEnv)
| GenerateSpeechFromText (text voice : string) (fetched : Outcome Response)
    (env : DecodeEnv)
| LoadAudioFromVideo (fileName : string) (extracted : Outcome Bytes) (env : DecodeEnv).

Definition step (e : Event) (s : Engine) : Engine :=
  match e with
  | Frame now t render => loop now t render s
  | Play backend now => fst (play (isPlaying s) (volume s) backend now s)
  | Pause now => pause (isPlaying s) now s
  | Ended source markPlaying => onended source markPlaying s
  | UpdateVolume value => updateVolume value s
  | SetEmotionValue key value => setEmotionValue key value s
  | RegenerateGestures random => regenerateGestures random s
  | LoadAudioFromFile fileName fileBytes env =>
      fst (loadAudioFromFile (volume s) fileName fileBytes env s)
  | GenerateSpeechFromText text voice fetched env =>
      fst (generateSpeechFromText (volume s) text voice fetched env s)
  | LoadAudioFromVideo fileName extracted env =>
      fst (loadAudioFromVideo (volume s) fileName extracted env s)
  end.

Definition run (events : list Event) (s : Engine) : Engine :=
  fold_left (fun s e => step e s) events s.

(** ** Recording *)

Inductive ExportFormat := Webm | Mp4.

Definition toUpperCase (format : ExportFormat) : string :=
  match format with Webm => "WEBM" | Mp4 => "MP4" end.

Inductive HTMLCanvasElement := Canvas.

Record Blob := mkBlob {
  blobType : string;
  blobData : Bytes
}.

Definition mimeType : string := "video/webm;codecs=vp9,opus".

(** [new Blob(chunks, { type: mimeType })], with the chunks the
    [ondataavailable] handler kept (those of positive size). *)
Definition assemble (chunks : list Blob) : Blob :=
  mkBlob mimeType
    (List.concat (map blobData
               (filter (fun c => negb (Nat.eqb (List.length (blobData c)) 0)) chunks))).

(** What the platform and the user do during one [exportVideo]. *)
Record ExportEnv := mkExportEnv {
  ex_now : Q;                        (* currentTime at the call *)
  ex_backend : Backend;              (* await ensureAudioContext() *)
  ex_captureFault : option string;   (* captureStream / new MediaStream throws *)
  ex_typeSupported : bool;           (* MediaRecorder.isTypeSupported(mimeType) *)
  ex_recorderFault : option string;  (* new MediaRecorder / start(100) throws *)
  ex_playNow : Q;                    (* schedulePlayback(0, true) *)
  ex_playBackend : Backend;
  ex_whilePlaying : list Event;      (* until the forced segment's node ends *)
  ex_chunks : list Blob;             (* data of the dataavailable events *)
  ex_whileEncoding : list Event;     (* until the recorder has stopped *)
  ex_recorderError : option string;  (* recorder.onerror: recordingPromise rejects *)
  ex_transcode : Blob -> Outcome Blob; (* convertWebMToMp4 *)
  ex_restoreNow : Q;                 (* schedulePlayback(previousOffset, true) *)
  ex_restoreBackend : Backend
}.

(** [isPlaying] and [volume] are the state captured by the render that
    created the callback; they stay fixed while the call is in flight. *)
Definition exportVideo (isPlaying : bool) (volume : Q)
    (canvas : option HTMLCanvasElement) (format : ExportFormat)
    (env : ExportEnv) : Async Blob :=
  fun s =>
    match canvas, audioBufferRef s with
    | None, _ => (s, Rejected "Preview canvas is not ready yet.")
    | Some _, None => (s, Rejected "Load or generate speech before exporting.")
    | Some _, Some _ =>
        (modify (set_isExporting true) ;;
         modify (set_statusMessage
                   (Some ("Rendering " ++ toUpperCase format ++ "...")%string)) ;;
         previousOffset <- gets (getCurrentOffset isPlaying (ex_now env)) ;;
         let wasPlaying := isPlaying in
         tryCatchFinally
           (modify (pause isPlaying (ex_now env)) ;;
            ensureAudioContext volume (ex_backend env) ;;
            mayThrow (ex_captureFault env) ;;
            audioStream <- gets destinationRef ;;
            (if audioStream then ret tt
             else throw "Audio routing unavailable for export.") ;;
            (if ex_typeSupported env then ret tt
             else throw "Browser does not support the required recording format.") ;;
            mayThrow (ex_recorderFault env) ;;
            playback <- schedulePlayback volume (ex_playBackend env)
                          (ex_playNow env) 0 true ;;
            match playback with
            | Some source =>
                (* await playback.done *)
                modify (run (ex_whilePlaying env)) ;;
                modify (onended source true)
            | None => ret tt
            end ;;
            (* recorder.stop(); await recordingPromise *)
            modify (run (ex_whileEncoding env)) ;;
            mayThrow (ex_recorderError env) ;;
            let webmBlob := assemble (ex_chunks env) in
            finalBlob <- match format with
                         | Mp4 => await (ex_transcode env webmBlob)
                         | Webm => ret webmBlob
                         end ;;
            modify (set_statusMessage (Some "Export complete."%string)) ;;
            (if wasPlaying
             then
               modify (set_pauseOffsetRef previousOffset) ;;
               schedulePlayback volume (ex_restoreBackend env)
                 (ex_restoreNow env) previousOffset true ;;
               ret tt
             else
               modify (set_pauseOffsetRef previousOffset) ;;
               modify (set_isPlaying false)) ;;
            ret finalBlob)
           (set_statusMessage (Some "Export failed. Please try again."%string))
           (set_isExporting false))%async s
    end.

(** An action of the user interface: an event, or an export. *)
Inductive Action :=
| Do (e : Event)
| ExportVideo (canvas : option HTMLCanvasElement) (format : ExportFormat)
    (env : ExportEnv).

Definition perform (a : Action) (s : Engine) : Engine :=
  match a with
  | Do e => step e s
  | ExportVideo canvas format env =>
      fst (exportVideo (isPlaying s) (volume s) canvas format env s)
  end.

Definition session (actions : list Action) (s : Engine) : Engine :=
  fold_left (fun s a => perform a s) actions s.

(** The snapshot handed to the rig ([animationState]). *)
Record AvatarAnimationState := mkAnimation {
  anim_mouthOpen : Q;
  anim_blink : Q;
  anim_headRotation : Q * Q * Q;
  anim_eyeDirection : Q * Q;
  anim_handWave : Q;
  anim_intensity : Q;
  anim_emotionMix : EmotionState;
  anim_energy : Q
}.

Definition animationState (s : Engine) : AvatarAnimationState :=
  {| anim_mouthOpen := mouthOpen s;
     anim_blink := blink s;
     anim_headRotation := headRotation s;
     anim_eyeDirection := eyeDirection s;
     anim_handWave := handWave s;
     anim_intensity := energy s;
     anim_emotionMix := computeEmotionBlend (emotions s) (energy s);
     anim_energy := energy s |}.
End Loop.

(** ** Well-formed engine states *)

(** While a source node is current it is one of the nodes created so far
    (a node created later is a different object), a buffer is loaded and
    the audio context exists. *)
Definition engine_wf (s : Engine) : Prop :=
  forall n, sourceNodeRef s = Some n ->
            (n < nodesCreated s)%nat /\ audioBufferRef s <> None /\
            audioContextRef s = true.

Definition keepsF (f : Engine -> Engine) : Prop :=
  forall s, engine_wf s -> engine_wf (f s).

Definition keepsA {A} (m : Async A) : Prop :=
  forall s, engine_wf s -> engine_wf (fst (m s)).


(** ** Runs that differ only in the volume *)








(** Events that neither pause, restart nor reload: frames and settings. *)
Definition passive (e : Event) : Prop :=
  match e with
  | Frame _ _ _ | UpdateVolume _ | SetEmotionValue _ _ | RegenerateGestures _ => True
  | _ => False
  end.

(** ** A concrete platform and concrete states, for evaluating examples *)

(** Square root to three decimals, and a cubic stand-in for the sine. *)
Definition sqrtApprox (x : Q) : Q :=
  inject_Z (Z.sqrt (Qfloor (x * 1000000))) / 1000.
Definition sinApprox (x : Q) : Q := x - x * x * x / 6.

#[export] Instance approxMath : JsMath :=
  {| Math_sqrt := sqrtApprox; Math_sin := sinApprox |}.

Definition demoBuffer : AudioBuffer :=
  mkAudioBuffer 2 [1 # 2; -1 # 2; 1 # 4; -1 # 4].

Definition demoDecode : DecodeEnv := mkDecodeEnv BackendReady (Resolved demoBuffer).

(** A decode that fails: the bytes are not audio. *)
Definition demoDecodeFails : DecodeEnv :=
  mkDecodeEnv BackendReady (Rejected "EncodingError: Unable to decode audio data").

(** Every source node emits the first samples of the asset. *)
Definition demoRender : NodeId -> list Q := fun _ => channelData demoBuffer.

(** A 2-second asset has been loaded from a file. *)
Definition demoLoaded : Engine :=
  fst (loadAudioFromFile 1 "voice.wav" (Resolved [82; 73; 70; 70]%nat) demoDecode
         (initialEngine (1 # 3))).

(** ... and [play()] was called when the context clock showed 0. *)
Definition demoRunning : Engine := fst (play false 1 BackendReady 0 demoLoaded).

(** ... and [pause()] when it showed 1/2. *)
Definition demoPaused : Engine := pause true (1 # 2) demoRunning.

(** An export in which nothing goes wrong and nothing else happens. *)
Definition demoExport : ExportEnv :=
  {| ex_now := 1; ex_backend := BackendReady; ex_captureFault := None;
     ex_typeSupported := true; ex_recorderFault := None; ex_playNow := 1;
     ex_playBackend := BackendReady; ex_whilePlaying := [];
     ex_chunks := [mkBlob mimeType [26; 69; 223; 163]%nat];
     ex_whileEncoding := []; ex_recorderError := None;
     ex_transcode := fun webm => Resolved (mkBlob "video/mp4" (blobData webm));
     ex_restoreNow := 3; ex_restoreBackend := BackendReady |}.

(** The same, on a browser that cannot record VP9/Opus WebM. *)
Definition demoExportUnsupported : ExportEnv :=
  {| ex_now := 1; ex_backend := BackendReady; ex_captureFault := None;
     ex_typeSupported := false; ex_recorderFault := None; ex_playNow := 1;
     ex_playBackend := BackendReady; ex_whilePlaying := [];
     ex_chunks := []; ex_whileEncoding := []; ex_recorderError := None;
     ex_transcode := fun webm => Resolved webm;
     ex_restoreNow := 3; ex_restoreBackend := BackendReady |}.

(** The same as [demoExport], with a transcoder that fails. *)
Definition demoExportTranscodeFails : ExportEnv :=
  {| ex_now := 1; ex_backend := BackendReady; ex_captureFault := None;
     ex_typeSupported := true; ex_recorderFault := None; ex_playNow := 1;
     ex_playBackend := BackendReady; ex_whilePlaying := [];
     ex_chunks := [mkBlob mimeType [26; 69; 223; 163]%nat];
     ex_whileEncoding := []; ex_recorderError := None;
     ex_transcode := fun _ => Rejected "ffmpeg exited with code 1";
     ex_restoreNow := 3; ex_restoreBackend := BackendReady |}.

(** The session that leads to [demoRunning]. *)
Definition demoStart : list Action :=
  [ Do (LoadAudioFromFile "voice.wav" (Resolved [82; 73; 70; 70]%nat) demoDecode);
    Do (Play BackendReady 0) ].

(** A session: load, play, set the volume, render one frame. *)
Definition demoSession (value : Q) : list Action :=
  [ Do (LoadAudioFromFile "voice.wav" (Resolved [82; 73; 70; 70]%nat) demoDecode);
    Do (Play BackendReady 0);
    Do (UpdateVolume value);
    Do (Frame 1 (1 # 4) demoRender) ].

(** A number lies in the closed unit interval. *)
Definition unit_range (x : Q) : Prop := 0 <= x /\ x <= 1.

(** An emotion vector is valid when its five components are in [0,1]. *)
Definition valid_emotion (e : EmotionState) : Prop :=
  unit_range (happy e) /\ unit_range (sad e) /\ unit_range (angry e) /\
  unit_range (surprised e) /\ unit_range (neutral e).

(** ** Invariants of the engine *)

(** What the gesture code relies on: a sine lies between -1 and 1. *)
Class JsSinSpec (M : JsMath) : Prop :=
  Math_sin_range : forall x : Q, -1 <= Math_sin x /\ Math_sin x <= 1.

(** A platform whose sine is cut to [-1,1], for evaluating examples. *)
Definition boundedMath : JsMath :=
  {| Math_sqrt := sqrtApprox;
     Math_sin := fun x => Qmax (-1) (Qmin 1 (sinApprox x)) |}.

Definition within (bound x : Q) : Prop := - bound <= x /\ x <= bound.

(** The ranges of what the loop publishes. *)
Definition motion_in_range (s : Engine) : Prop :=
  valid_emotion (emotions s) /\
  unit_range (mouthOpen s) /\
  unit_range (energy s) /\
  (0 <= blink s /\ blink s <= 9 # 10) /\
  playbackProgress s < 1 /\
  (within (225 # 1000) (fst (fst (headRotation s))) /\
   within (2 # 10) (snd (fst (headRotation s))) /\
   within (64 # 1000) (snd (headRotation s))) /\
  (within (56 # 100) (fst (eyeDirection s)) /\
   within (27 # 100) (snd (eyeDirection s))) /\
  within (8 # 10) (handWave s).

(** Every connection is one the hook makes: a created source into the
    analyser, the analyser into the gain node, the gain node into the
    speakers and into the capture sink; and none is doubled. *)
Definition edges_shaped (g : list Edge) (created : nat) : Prop :=
  NoDup g /\
  forall a b, In (a, b) g ->
    (exists n, a = NSource n /\ b = NAnalyser /\ (n < created)%nat) \/
    (a = NAnalyser /\ b = NGain) \/
    (a = NGain /\ b = NSpeaker) \/
    (a = NGain /\ b = NCaptureSink).

Definition graph_shaped (s : Engine) : Prop :=
  edges_shaped (connections s) (nodesCreated s).

(** [hasAudio] is only set while a buffer is loaded, and [audioDuration]
    is the duration of the loaded buffer. *)
Definition asset_consistent (s : Engine) : Prop :=
  (hasAudio s = true -> audioBufferRef s <> None) /\
  (forall buffer, audioBufferRef s = Some buffer -> audioDuration s = duration buffer).

Definition volume_in_range (s : Engine) : Prop :=
  unit_range (volume s) /\ forall g, gainRef s = Some g -> unit_range g.


(** A property kept by a state change, and by an asynchronous call
    whatever its outcome. *)
Definition invF (P : Engine -> Prop) (f : Engine -> Engine) : Prop :=
  forall s, P s -> P (f s).

Definition invA {A} (P : Engine -> Prop) (m : Async A) : Prop :=
  forall s, P s -> P (fst (m s)).

(** The body of [schedulePlayback] after [ensureAudioContext]: retire the
    current node, create and connect a new one, start it. *)
Definition startSegment (now startOffset : Q) (markPlaying : bool) (s : Engine)
    : Engine * Outcome (option NodeId) :=
  let s := stopCurrentSource s in
  let s := set_ignoreEndRef false s in
  let source := nodesCreated s in
  let s := set_nodesCreated (S source) s in
  let s := set_connections (connect (NSource source) NAnalyser (connections s)) s in
  let s := set_sourceNodeRef (Some source) s in
  let s := set_startTimeRef (now - startOffset) s in
  let s := set_pauseOffsetRef startOffset s in
  let s := if markPlaying then set_isPlaying true s else s in
  (s, Resolved (Some source)).

(** What [decodeAudioData] does once the decode has succeeded. *)
Definition installBuffer (decoded : AudioBuffer) (s : Engine) : Engine :=
  resetPlayback
    (set_audioDuration (duration decoded)
       (set_hasAudio true (set_audioBufferRef (Some decoded) s))).

(** A property kept by each of the state changes the asynchronous
    operations are made of, [volume] being the captured volume. *)
Record Stable (P : Engine -> Prop) (volume : Q) : Prop := mkStable {
  st_message : forall m, invF P (set_statusMessage m);
  st_loading : forall b, invF P (set_isLoadingAudio b);
  st_generating : forall b, invF P (set_isGeneratingSpeech b);
  st_processing : forall b, invF P (set_isProcessingVideo b);
  st_exporting : forall b, invF P (set_isExporting b);
  st_hasAudio : invF P (set_hasAudio false);
  st_audioName : forall n, invF P (set_audioName n);
  st_install : forall decoded, invF P (installBuffer decoded);
  st_ensure : forall backend, invA P (ensureAudioContext volume backend);
  st_start : forall now startOffset markPlaying s,
      audioBufferRef s <> None -> audioContextRef s = true -> P s ->
      P (fst (startSegment now startOffset markPlaying s));
  st_pause : forall playing now, invF P (pause playing now);
  st_onended : forall source markPlaying, invF P (onended source markPlaying);
  st_offset : forall offset, invF P (set_pauseOffsetRef offset);
  st_paused : invF P (set_isPlaying false)
}.

(** The same for the synchronous events. *)
Record StableEvents {M : JsMath} (P : Engine -> Prop) : Prop := mkStableEvents {
  se_loop : forall now t render, invF P (loop now t render);
  se_updateVolume : forall value, invF P (updateVolume value);
  se_setEmotionValue : forall key value, invF P (setEmotionValue key value);
  se_regenerateGestures : forall random, invF P (regenerateGestures random)
}.

(** [emotions[key]] *)
Definition emotionOf (key : EmotionKey) (e : EmotionState) : Q :=
  match key with
  | Happy => happy e
  | Sad => sad e
  | Angry => angry e
  | Surprised => surprised e
  | Neutral => neutral e
  end.

(** The peak tracker holds a positive number. *)
Definition peak_positive (s : Engine) : Prop := 0 < peakEnergyRef s.


(** Until a buffer has been decoded nothing plays and nothing moves. *)
Definition dormant (s : Engine) : Prop :=
  audioBufferRef s = None ->
  isPlaying s = false /\ sourceNodeRef s = None /\ hasAudio s = false /\
  audioDuration s = 0 /\ playbackProgress s = 0 /\
  mouthOpen s = 0 /\ blink s = 0 /\ energy s = 0 /\
  headRotation s = (0, 0, 0) /\ eyeDirection s = (0, 0) /\ handWave s = 0 /\
  peakEnergyRef s = 1 # 10000.

(** A decoded buffer is stored. *)
Definition loaded (s : Engine) : Prop := audioBufferRef s <> None.

(** While the playing flag is up, the audio context exists and a buffer is
    stored. *)
Definition playing_has_context (s : Engine) : Prop :=
  isPlaying s = true -> audioContextRef s = true /\ audioBufferRef s <> None.

(** ** The three loaders, side by side *)

(** A call of [loadAudioFromFile], [generateSpeechFromText] or
    [loadAudioFromVideo], with what the platform answers. *)
Inductive LoadRequest :=
| FromFile (fileName : string) (fileBytes : Outcome Bytes)
| FromText (text voice : string) (fetched : Outcome Response)
| FromVideo (fileName : string) (extracted : Outcome Bytes).

Definition load (volume : Q) (request : LoadRequest) (env : DecodeEnv) : Async unit :=
  match request with
  | FromFile fileName fileBytes => loadAudioFromFile volume fileName fileBytes env
  | FromText text voice fetched => generateSpeechFromText volume text voice fetched env
  | FromVideo fileName extracted => loadAudioFromVideo volume fileName extracted env
  end.

(** The call is refused before its [try] block: blank text. *)
Definition refused (request : LoadRequest) : bool :=
  match request with
  | FromText text _ _ => isBlank text
  | _ => false
  end.


Definition setBusyFlag (request : LoadRequest) : bool -> Engine -> Engine :=
  match request with
  | FromFile _ _ => set_isLoadingAudio
  | FromText _ _ _ => set_isGeneratingSpeech
  | FromVideo _ _ => set_isProcessingVideo
  end.

(** The status messages and the asset name each loader writes. *)
Definition startMessage (request : LoadRequest) : string :=
  match request with
  | FromFile fileName _ => "Decoding " ++ fileName ++ "..."
  | FromText _ _ _ => "Synthesizing speech..."
  | FromVideo fileName _ => "Extracting audio from " ++ fileName ++ "..."
  end.

Definition successMessage (request : LoadRequest) : string :=
  match request with
  | FromFile fileName _ => "Loaded " ++ fileName
  | FromText _ _ _ => "Speech generated successfully."
  | FromVideo _ _ => "Video audio extracted."
  end.

Definition failureMessage (request : LoadRequest) : string :=
  match request with
  | FromFile _ _ => "Unable to decode audio file."
  | FromText _ _ _ => "Text-to-speech failed."
  | FromVideo _ _ => "Unable to extract audio from video."
  end.

Definition loadedName (request : LoadRequest) : string :=
  match request with
  | FromFile fileName _ => fileName
  | FromText _ voice _ => "TTS • " ++ voice
  | FromVideo fileName _ => fileName ++ " • audio track"
  end.

(** The bytes each loader decodes, as the platform delivers them: the
    file's bytes, the body of an [ok] response, the extracted track. *)
Definition bytesOf (request : LoadRequest) : Outcome Bytes :=
  match request with
  | FromFile _ fileBytes => fileBytes
  | FromText _ _ fetched =>
      match fetched with
      | Resolved response =>
          if ok response then body response
          else Rejected "Unable to generate speech."
      | Rejected e => Rejected e
      end
  | FromVideo _ extracted => extracted
  end.

(** The state in which a loader enters its [try] block, and the states
    its audio context can be in afterwards. *)
Definition loadEntry (request : LoadRequest) (s : Engine) : Engine :=
  set_hasAudio false
    (set_statusMessage (Some (startMessage request)) (setBusyFlag request true s)).

Definition withContext (context analyser : bool) (gain : option Q)
    (destination : bool) (edges : list Edge) (s : Engine) : Engine :=
  set_connections edges
    (set_destinationRef destination
       (set_gainRef gain (set_analyserRef analyser (set_audioContextRef context s)))).

(** The transport as the resolving path of [exportVideo] leaves it,
    [mid] being the state in which the recording has ended. *)
Definition restored (playing : bool) (v : Q) (env : ExportEnv) (offset : Q)
    (mid : Engine) : Engine :=
  let told := set_pauseOffsetRef offset
                (set_statusMessage (Some "Export complete."%string) mid) in
  set_isExporting false
    (if playing
     then fst (schedulePlayback v (ex_restoreBackend env) (ex_restoreNow env)
                 offset true told)
     else set_isPlaying false told).

(** An export during which the volume is turned down to 1/5. *)
Definition demoExportVolumeChange : ExportEnv :=
  {| ex_now := 1; ex_backend := BackendReady; ex_captureFault := None;
     ex_typeSupported := true; ex_recorderFault := None; ex_playNow := 1;
     ex_playBackend := BackendReady;
     ex_whilePlaying := [UpdateVolume (1 # 5)];
     ex_chunks := [mkBlob mimeType [26; 69; 223; 163]%nat];
     ex_whileEncoding := []; ex_recorderError := None;
     ex_transcode := fun webm => Resolved (mkBlob "video/mp4" (blobData webm));
     ex_restoreNow := 3; ex_restoreBackend := BackendReady |}.

(** ** The speech route ([app/api/tts/route.ts])

    The hook's [generateSpeechFromText] posts to this route; the route
    asks the upstream text-to-speech endpoint and passes the audio on. *)


(** [text.trim()]: leading and trailing white space removed. *)
Fixpoint trimStart (text : string) : string :=
  match text with
  | EmptyString => EmptyString
  | String c rest => if isWhiteSpace c then trimStart rest else text
  end.

Fixpoint trimEnd (text : string) : string :=
  match text with
  | EmptyString => EmptyString
  | String c rest =>
      match trimEnd rest with
      | EmptyString => if isWhiteSpace c then EmptyString else String c EmptyString
      | kept => String c kept
      end
  end.

Definition trim (text : string) : string := trimEnd (trimStart text).














(** ** The page ([app/page.tsx])

    The page reads [hasAudio], [isPlaying] and the other values from the
    object the hook returns; [hasAudio] is taken to be the state of the
    hook, as everywhere in this development. *)

Inductive ToastType := ToastSuccess | ToastError | ToastInfo.

Record Toast := mkToast {
  toast_type : ToastType;
  toast_message : string
}.

(** The engine together with the page's [toast] state. *)
Record Page := mkPage {
  page_engine : Engine;
  page_toast : option Toast
}.

(** [handlePlayToggle]; a rejection's message is shown as an error. *)
Definition handlePlayToggle (backend : Backend) (now : Q) (p : Page) : Page :=
  let e := page_engine p in
  if negb (hasAudio e)
  then mkPage e (Some (mkToast ToastInfo "Load or generate audio first."))
  else if isPlaying e
  then mkPage (pause (isPlaying e) now e) (page_toast p)
  else match play (isPlaying e) (volume e) backend now e with
       | (e', Resolved _) => mkPage e' (page_toast p)
       | (e', Rejected message) => mkPage e' (Some (mkToast ToastError message))
       end.


(** ** The rig ([components/AvatarPreview.tsx]) *)

(** [const ease = (current, target, factor) =>
      current + (target - current) * factor] *)
Definition ease (current target factor : Q) : Q :=
  current + (target - current) * factor.

(** The values [useFrame] eases the rig towards, computed from the
    animation snapshot. *)
Record RigTargets := mkRigTargets {
  rig_bodyY : Q;        (* groupRef position.y *)
  rig_lookX : Q;
  rig_lookY : Q;
  rig_blinkScale : Q;   (* eye scale.y *)
  rig_mouthOpen : Q;    (* mouth scale.y *)
  rig_mouthWidth : Q;   (* mouth scale.x *)
  rig_mouthY : Q;       (* mouth position.y *)
  rig_leftHandZ : Q;
  rig_rightHandZ : Q;
  rig_handX : Q;
  rig_glow : Q          (* cheek material opacity *)
}.

Definition rigTargets (animation : AvatarAnimationState) : RigTargets :=
  {| rig_bodyY := anim_intensity animation * (18 # 100);
     rig_lookX := fst (anim_eyeDirection animation) * (18 # 100);
     rig_lookY := snd (anim_eyeDirection animation) * (12 # 100);
     rig_blinkScale := Qmax (1 # 10) (1 - anim_blink animation * (15 # 10));
     rig_mouthOpen := (28 # 100) + anim_mouthOpen animation * (65 # 100)
                      + happy (anim_emotionMix animation) * (2 # 10);
     rig_mouthWidth := (85 # 100) + surprised (anim_emotionMix animation) * (4 # 10)
                       - angry (anim_emotionMix animation) * (2 # 10);
     rig_mouthY := - (5 # 100) - anim_mouthOpen animation * (2 # 10);
     rig_leftHandZ := (4 # 10) + anim_handWave animation * (4 # 10);
     rig_rightHandZ := - (4 # 10) + anim_handWave animation * (4 # 10);
     rig_handX := - (3 # 10) + happy (anim_emotionMix animation) * (4 # 10);
     rig_glow := (15 # 100) + happy (anim_emotionMix animation) * (3 # 10)
                 + anim_intensity animation * (25 # 100) |}.

(** ** Formatting of the duration ([formatDuration] of the page) *)

(** [Math.trunc], and the remainder [a % b] of JavaScript numbers, which
    has the sign of [a]. *)
Definition truncate (x : Q) : Z :=
  if Qlt_le_dec x 0 then Qceiling x else Qfloor x.

Definition jsRemainder (a b : Q) : Q := a - b * inject_Z (truncate (a / b)).

(** The decimal digits of an integer-valued number. *)
Definition showInteger (z : Z) : string := NilZero.string_of_int (Z.to_int z).

(** [text.padStart(2, '0')] *)
Definition padStart2 (text : string) : string :=
  match text with
  | EmptyString => "00"
  | String c EmptyString => String "0" text
  | _ => text
  end.

(** The duration is a rational here, so [Number.isFinite] holds. *)
Definition formatDuration (seconds : Q) : string :=
  if Qlt_le_dec 0 seconds
  then
    let clamped := Qmax 0 seconds in
    let minutes := Qfloor (clamped / 60) in
    let rem := Qfloor (jsRemainder clamped 60) in
    showInteger minutes ++ ":" ++ padStart2 (showInteger rem)
  else "0:00".

(** Once the analyser or the gain node exists, the fixed part of the graph
    is connected. *)
Definition graph_wired (s : Engine) : Prop :=
  (analyserRef s = true -> In (NAnalyser, NGain) (connections s)) /\
  (gainRef s <> None ->
   analyserRef s = true /\ In (NGain, NSpeaker) (connections s) /\
   In (NGain, NCaptureSink) (connections s)).

(** ** Sliders and the export buttons of the page *)

(** [Math.round]: the nearest integer, halves rounded up. *)
Definition Math_round (x : Q) : Z := Qfloor (x + (1 # 2)).

(** What a range input shows for a value, [Math.round(value * 100)], and
    what its [onChange] passes on, [Number(event.target.value) / 100]. *)
Definition sliderPosition (value : Q) : Z := Math_round (value * 100).

Definition sliderValue (position : Z) : Q := inject_Z position / 100.

(** A file handed to the browser for download. *)
Record Download := mkDownload {
  download_blob : Blob;
  download_extension : string
}.

Definition extension (format : ExportFormat) : string :=
  match format with Webm => "webm" | Mp4 => "mp4" end.

(** [handleExport]: the page after the click, and the file downloaded. *)
Definition handleExport {M : JsMath} (canvas : option HTMLCanvasElement)
    (format : ExportFormat) (env : ExportEnv) (p : Page) : Page * option Download :=
  let e := page_engine p in
  if negb (hasAudio e)
  then (mkPage e (Some (mkToast ToastInfo "Provide audio before exporting.")), None)
  else match exportVideo (isPlaying e) (volume e) canvas format env e with
       | (e', Resolved blob) =>
           (mkPage e'
              (Some (mkToast ToastSuccess
                       ("Exported " ++ toUpperCase format ++ " successfully."))),
            Some (mkDownload blob (extension format)))
       | (e', Rejected message) =>
           (mkPage e' (Some (mkToast ToastError message)), None)
       end.

(** * Properties *)

Lemma clamp01_range (v : Q) : unit_range (clamp01 v).
Proof.
  unfold unit_range, clamp01. split.
  - apply Q.min_glb; [lra | apply Q.le_max_l].
  - apply Q.le_min_l.
Qed.

Lemma clamp01_id (v : Q) : 0 <= v -> v <= 1 -> clamp01 v == v.
Proof.
  intros H0 H1. unfold clamp01.
  rewrite (Q.max_r 0 v H0). apply Q.min_r. exact H1.
Qed.

(** ** Emotion blender *)

Lemma computeEmotionBlend_clamped (emotion : EmotionState) (energy : Q) :
  valid_emotion (computeEmotionBlend emotion energy).
Proof.
  unfold valid_emotion, computeEmotionBlend; cbn [happy sad angry surprised neutral].
  repeat split; apply clamp01_range.
Qed.

(** C8: for every emotion vector whose five components lie in [0,1]
    (boundary values included) and every energy in [0,1], each component
    of the blended vector lies in [0,1]. *)
Theorem computeEmotionBlend_unit_range (emotion : EmotionState) (energy : Q) :
  valid_emotion emotion -> unit_range energy ->
  valid_emotion (computeEmotionBlend emotion energy).
Proof.
  intros _ _. apply computeEmotionBlend_clamped.
Qed.

Lemma computeEmotionBlend_unit_range_witness :
  valid_emotion (mkEmotion 1 0 1 0 1) /\ unit_range 1 /\
  valid_emotion (computeEmotionBlend (mkEmotion 1 0 1 0 1) 1).
Proof.
  assert (Hv : valid_emotion (mkEmotion 1 0 1 0 1)).
  { unfold valid_emotion, unit_range; cbn; repeat split; lra. }
  assert (He : unit_range 1) by (unfold unit_range; split; lra).
  split; [exact Hv | split; [exact He |]].
  apply (computeEmotionBlend_unit_range (mkEmotion 1 0 1 0 1) 1 Hv He).
Defined.

(** At the upper boundary the weights of [happy] add up to exactly 1, and
    the clamp is what keeps [surprised] from exceeding 1 above it. *)
Example computeEmotionBlend_at_ones :
  happy (computeEmotionBlend (mkEmotion 1 1 1 1 1) 1) == 1 /\
  surprised (computeEmotionBlend (mkEmotion 1 1 1 1 1) 1) == 95 # 100 /\
  neutral (computeEmotionBlend (mkEmotion 0 0 0 0 0) 1) == 0.
Proof. vm_compute. repeat split; reflexivity. Qed.

(** ** Feature extractor *)



Lemma Qdiv_nonneg (a b : Q) : 0 <= a -> 0 <= b -> 0 <= a / b.
Proof.
  intros Ha Hb. unfold Qdiv. apply Qmult_le_0_compat.
  - exact Ha.
  - apply Qinv_le_0_compat. exact Hb.
Qed.




Lemma sqrtApprox_nonneg (x : Q) : 0 <= sqrtApprox x.
Proof.
  unfold sqrtApprox. apply Qdiv_nonneg; [| lra].
  change 0 with (inject_Z 0). rewrite <- Zle_Qle. apply Z.sqrt_nonneg.
Qed.

#[export] Instance approxMathSpec : JsMathSpec approxMath.
Proof. intros x _. apply sqrtApprox_nonneg. Qed.




(** ** Transport: supporting lemmas *)

#[local] Arguments Qmin _ _ : simpl never.
#[local] Arguments Qmax _ _ : simpl never.
#[local] Arguments Qplus _ _ : simpl never.
#[local] Arguments Qminus _ _ : simpl never.
#[local] Arguments Qmult _ _ : simpl never.
#[local] Arguments Qdiv _ _ : simpl never.
#[local] Arguments Qlt_le_dec _ _ : simpl never.
#[local] Arguments startOffsetOf _ _ : simpl never.
#[local] Arguments connect _ _ _ : simpl never.
#[local] Arguments disconnect _ _ : simpl never.
#[local] Arguments clamp01 _ : simpl never.

(** Case analysis on every [match] of a hypothesis. *)
Ltac split_matches H :=
  repeat match type of H with
         | context [match ?x with _ => _ end] => destruct x eqn:?; cbn in H
         end.

Lemma option_nat_eqb_eq (a b : option nat) : option_nat_eqb a b = true <-> a = b.
Proof.
  destruct a as [x |], b as [y |]; cbn; try (split; congruence).
  rewrite Nat.eqb_eq. split; congruence.
Qed.

Lemma GraphNode_eqb_eq (a b : GraphNode) : GraphNode_eqb a b = true <-> a = b.
Proof.
  destruct a, b; cbn; try (split; congruence).
  rewrite Nat.eqb_eq. split; congruence.
Qed.

Lemma Edge_eqb_eq (e f : Edge) : Edge_eqb e f = true <-> e = f.
Proof.
  destruct e as [a b], f as [c d]. unfold Edge_eqb; cbn.
  rewrite andb_true_iff, !GraphNode_eqb_eq. split.
  - intros [-> ->]. reflexivity.
  - intros H. inversion H. auto.
Qed.

Lemma In_connect (a b : GraphNode) (g : list Edge) (e : Edge) :
  In e (connect a b g) <-> e = (a, b) \/ In e g.
Proof.
  unfold connect. destruct (existsb (Edge_eqb (a, b)) g) eqn:Hex.
  - split; [auto |]. intros [-> | H]; [| exact H].
    apply existsb_exists in Hex. destruct Hex as [f [Hin Heq]].
    apply Edge_eqb_eq in Heq. subst f. exact Hin.
  - cbn. split; intros [H | H]; auto.
Qed.

Lemma In_disconnect (a : GraphNode) (g : list Edge) (e : Edge) :
  In e (disconnect a g) <-> In e g /\ fst e <> a.
Proof.
  unfold disconnect. rewrite filter_In. split; intros [Hin H]; split; try exact Hin.
  - intros Heq. apply GraphNode_eqb_eq in Heq. rewrite Heq in H. discriminate.
  - destruct (GraphNode_eqb (fst e) a) eqn:Heq; [| reflexivity].
    apply GraphNode_eqb_eq in Heq. contradiction.
Qed.

(** [ensureAudioContext] touches the graph refs only; once it has
    resolved, the whole graph exists and the gain is the captured volume. *)
Lemma ensureAudioContext_frame (volume : Q) (backend : Backend)
    (s s' : Engine) (r : Outcome unit) :
  ensureAudioContext volume backend s = (s', r) ->
  nodesCreated s' = nodesCreated s /\ sourceNodeRef s' = sourceNodeRef s /\
  isPlaying s' = isPlaying s /\ pauseOffsetRef s' = pauseOffsetRef s /\
  startTimeRef s' = startTimeRef s /\ ignoreEndRef s' = ignoreEndRef s /\
  audioBufferRef s' = audioBufferRef s /\ hasAudio s' = hasAudio s /\
  isExporting s' = isExporting s /\
  (audioContextRef s = true -> audioContextRef s' = true) /\
  (r = Resolved tt ->
   audioContextRef s' = true /\ analyserRef s' = true /\
   destinationRef s' = true /\ gainRef s' = Some volume).
Proof.
  unfold ensureAudioContext. intros H.
  destruct backend; cbn in H; split_matches H; inversion H; subst; cbn;
    repeat split; try reflexivity; try discriminate; try assumption;
    intros; congruence.
Qed.

Lemma stopCurrentSource_frame (s : Engine) :
  sourceNodeRef (stopCurrentSource s) = None /\
  nodesCreated (stopCurrentSource s) = nodesCreated s /\
  isPlaying (stopCurrentSource s) = isPlaying s /\
  pauseOffsetRef (stopCurrentSource s) = pauseOffsetRef s /\
  startTimeRef (stopCurrentSource s) = startTimeRef s /\
  ignoreEndRef (stopCurrentSource s) = ignoreEndRef s /\
  audioBufferRef (stopCurrentSource s) = audioBufferRef s /\
  audioContextRef (stopCurrentSource s) = audioContextRef s /\
  hasAudio (stopCurrentSource s) = hasAudio s /\
  isExporting (stopCurrentSource s) = isExporting s /\
  connections (stopCurrentSource s)
    = match sourceNodeRef s with
      | Some n => disconnect (NSource n) (connections s)
      | None => connections s
      end.
Proof.
  unfold stopCurrentSource. destruct (sourceNodeRef s) eqn:E; cbn;
    repeat split; try reflexivity; exact E.
Qed.

(** What a resolved [schedulePlayback] did when a buffer is loaded. *)
Lemma schedulePlayback_started (volume : Q) (backend : Backend) (now offset : Q)
    (markPlaying : bool) (s s' : Engine) (buffer : AudioBuffer)
    (r : option NodeId) :
  audioBufferRef s = Some buffer ->
  schedulePlayback volume backend now offset markPlaying s = (s', Resolved r) ->
  r = Some (nodesCreated s) /\
  sourceNodeRef s' = Some (nodesCreated s) /\
  nodesCreated s' = S (nodesCreated s) /\
  ignoreEndRef s' = false /\
  pauseOffsetRef s' = startOffsetOf offset (duration buffer) /\
  startTimeRef s' = now - startOffsetOf offset (duration buffer) /\
  isPlaying s' = (if markPlaying then true else isPlaying s) /\
  audioBufferRef s' = Some buffer /\
  audioContextRef s' = true /\
  (forall n, sourceNodeRef s = Some n -> n <> nodesCreated s ->
             ~ In (NSource n, NAnalyser) (connections s')).
Proof.
  intros Hbuf. unfold schedulePlayback, bind. rewrite Hbuf.
  destruct (ensureAudioContext volume backend s) as [s1 [[] | e]] eqn:E;
    [| discriminate].
  apply ensureAudioContext_frame in E.
  destruct E as (Hn & Hsrc & Hplay & _ & _ & _ & Hb & _ & _ & _ & Hres).
  destruct (Hres eq_refl) as (Hctx & _).
  pose proof (stopCurrentSource_frame s1)
    as (_ & Hn' & Hplay' & _ & _ & _ & Hb' & Hctx' & _ & _ & Hconn).
  assert (Hretired : forall n g, sourceNodeRef s = Some n -> n <> nodesCreated s ->
            ~ In (NSource n, NAnalyser)
                (connect (NSource (nodesCreated s)) NAnalyser
                   (match sourceNodeRef s with
                    | Some m => disconnect (NSource m) g
                    | None => g
                    end))).
  { intros n g Hold Hneq Hin. rewrite Hold in Hin.
    apply In_connect in Hin. destruct Hin as [Heq | Hin].
    - inversion Heq. contradiction.
    - apply In_disconnect in Hin. destruct Hin as [_ Hne]. apply Hne. reflexivity. }
  intros H. destruct markPlaying; inversion H; subst; clear H; cbn;
    rewrite ?Hconn, ?Hn', ?Hn, ?Hb', ?Hb, ?Hctx', ?Hctx, ?Hplay', ?Hplay, ?Hsrc;
    repeat split; try reflexivity; try exact Hbuf;
    intros n Hold Hneq; apply Hretired; assumption.
Qed.

(** ** Reachable states are well formed *)

Lemma keepsA_ret {A} (a : A) : keepsA (ret a).
Proof. intros s H. exact H. Qed.

Lemma keepsA_throw {A} (e : string) : keepsA (@throw A e).
Proof. intros s H. exact H. Qed.

Lemma keepsA_await {A} (o : Outcome A) : keepsA (await o).
Proof. intros s H. exact H. Qed.

Lemma keepsA_mayThrow (fault : option string) : keepsA (mayThrow fault).
Proof. intros s H. unfold mayThrow. destruct fault; exact H. Qed.

Lemma keepsA_gets {A} (f : Engine -> A) : keepsA (gets f).
Proof. intros s H. exact H. Qed.

Lemma keepsA_modify (f : Engine -> Engine) : keepsF f -> keepsA (modify f).
Proof. intros Hf s H. apply Hf. exact H. Qed.

Lemma keepsA_bind {A B} (m : Async A) (k : A -> Async B) :
  keepsA m -> (forall a, keepsA (k a)) -> keepsA (bind m k).
Proof.
  intros Hm Hk s H. unfold bind. specialize (Hm s H).
  destruct (m s) as [s1 [a | e]]; cbn in Hm.
  - apply Hk. exact Hm.
  - exact Hm.
Qed.

Lemma keepsA_tryCatchFinally {A} (body : Async A) (handler final : Engine -> Engine) :
  keepsA body -> keepsF handler -> keepsF final ->
  keepsA (tryCatchFinally body handler final).
Proof.
  intros Hb Hh Hf s H. unfold tryCatchFinally. specialize (Hb s H).
  destruct (body s) as [s1 [a | e]]; cbn in *.
  - apply Hf. exact Hb.
  - apply Hf. apply Hh. exact Hb.
Qed.

Lemma keepsA_if {A} (b : bool) (m1 m2 : Async A) :
  keepsA m1 -> keepsA m2 -> keepsA (if b then m1 else m2).
Proof. intros H1 H2. destruct b; assumption. Qed.

(** A step that assigns neither the current node, the node counter, the
    buffer nor the context. *)
Ltac keeps_assign := intros ? H; exact H.

Lemma engine_wf_frame (s s' : Engine) :
  sourceNodeRef s' = sourceNodeRef s -> nodesCreated s' = nodesCreated s ->
  audioBufferRef s' = audioBufferRef s ->
  (audioContextRef s = true -> audioContextRef s' = true) ->
  engine_wf s -> engine_wf s'.
Proof.
  intros Hsrc Hn Hb Hc H n Hcur. rewrite Hsrc in Hcur.
  destruct (H n Hcur) as (H1 & H2 & H3). rewrite Hn, Hb. auto.
Qed.

Lemma engine_wf_no_source (s : Engine) : sourceNodeRef s = None -> engine_wf s.
Proof. intros H n Hn. congruence. Qed.

Lemma keepsA_ensureAudioContext (v : Q) (backend : Backend) :
  keepsA (ensureAudioContext v backend).
Proof.
  intros s H. destruct (ensureAudioContext v backend s) as [s' r] eqn:E.
  apply ensureAudioContext_frame in E.
  destruct E as (Hn & Hsrc & _ & _ & _ & _ & Hb & _ & _ & Hc & _).
  cbn. apply (engine_wf_frame s s'); assumption.
Qed.

Lemma schedulePlayback_rejected (v : Q) (backend : Backend) (now offset : Q)
    (markPlaying : bool) (s s' : Engine) (e : string) :
  schedulePlayback v backend now offset markPlaying s = (s', Rejected e) ->
  ensureAudioContext v backend s = (s', Rejected e).
Proof.
  unfold schedulePlayback, bind. destruct (audioBufferRef s); [| discriminate].
  destruct (ensureAudioContext v backend s) as [s1 [[] | e1]].
  - destruct markPlaying; discriminate.
  - intros H. inversion H; subst. reflexivity.
Qed.

Lemma keepsA_schedulePlayback (v : Q) (backend : Backend) (now offset : Q)
    (markPlaying : bool) :
  keepsA (schedulePlayback v backend now offset markPlaying).
Proof.
  intros s H.
  destruct (schedulePlayback v backend now offset markPlaying s) as [s' [r | e]] eqn:E.
  - destruct (audioBufferRef s) as [buffer |] eqn:Hbuf.
    + destruct (schedulePlayback_started _ _ _ _ _ _ _ _ _ Hbuf E)
        as (_ & Hsrc & Hn & _ & _ & _ & _ & Hb & Hc & _).
      cbn. intros n Hcur. rewrite Hsrc in Hcur. inversion Hcur; subst.
      rewrite Hn, Hb. repeat split; [lia | discriminate | exact Hc].
    + unfold schedulePlayback in E. rewrite Hbuf in E. inversion E; subst. exact H.
  - apply schedulePlayback_rejected in E.
    pose proof (keepsA_ensureAudioContext v backend s H) as Hk.
    rewrite E in Hk. exact Hk.
Qed.

Lemma keepsA_play (playing : bool) (v : Q) (backend : Backend) (now : Q) :
  keepsA (play playing v backend now).
Proof.
  intros s H. unfold play. destruct (audioBufferRef s); [| exact H].
  revert H. generalize (getCurrentOffset playing now s). intros offset. revert s.
  apply keepsA_bind; [apply keepsA_schedulePlayback | intros; apply keepsA_ret].
Qed.

Lemma keepsF_pause (playing : bool) (now : Q) : keepsF (pause playing now).
Proof.
  intros s H. unfold pause. destruct (audioBufferRef s); [| exact H].
  destruct (negb (audioContextRef s) || negb playing); [exact H |].
  apply engine_wf_no_source. cbn. apply stopCurrentSource_frame.
Qed.

Lemma keepsF_onended (source : NodeId) (markPlaying : bool) :
  keepsF (onended source markPlaying).
Proof.
  intros s H. unfold onended.
  destruct (negb (ignoreEndRef s) && option_nat_eqb (sourceNodeRef s) (Some source));
    [| exact H].
  apply engine_wf_no_source. destruct markPlaying; reflexivity.
Qed.

Lemma keepsF_resetPlayback : keepsF resetPlayback.
Proof.
  intros s _. apply engine_wf_no_source. unfold resetPlayback. cbn.
  apply stopCurrentSource_frame.
Qed.

Lemma keepsF_updateVolume (value : Q) : keepsF (updateVolume value).
Proof.
  intros s H. unfold updateVolume. cbn. destruct (gainRef s); exact H.
Qed.

Lemma keepsF_loop `{M : JsMath} (now t : Q) (render : NodeId -> list Q) :
  keepsF (loop now t render).
Proof.
  intros s H. unfold loop. destruct (analyserRef s); [| exact H].
  destruct (audioBufferRef s) eqn:Hb; [| exact H].
  destruct (headRotation s) as [[x y] z]. destruct (eyeDirection s) as [ex ey].
  intros n Hn. cbn in Hn. destruct (H n Hn) as (H1 & H2 & H3).
  cbn. rewrite Hb. repeat split; [exact H1 | discriminate | exact H3].
Qed.

Lemma keepsF_set_buffer (decoded : AudioBuffer) :
  keepsF (set_audioBufferRef (Some decoded)).
Proof.
  intros s H n Hn. destruct (H n Hn) as (H1 & _ & H3).
  repeat split; [exact H1 | discriminate | exact H3].
Qed.

Lemma keepsA_decodeAudioData (v : Q) (env : DecodeEnv) (bytes : Bytes) :
  keepsA (decodeAudioData v env bytes).
Proof.
  unfold decodeAudioData.
  apply keepsA_bind; [apply keepsA_ensureAudioContext | intros _].
  apply keepsA_bind; [apply keepsA_await | intros decoded].
  apply keepsA_bind; [apply keepsA_modify; apply keepsF_set_buffer | intros _].
  repeat (apply keepsA_bind; [apply keepsA_modify; keeps_assign | intros _]).
  apply keepsA_modify. apply keepsF_resetPlayback.
Qed.

Lemma keepsA_loadAudioFromFile (v : Q) (fileName : string) (fileBytes : Outcome Bytes)
    (env : DecodeEnv) :
  keepsA (loadAudioFromFile v fileName fileBytes env).
Proof.
  unfold loadAudioFromFile.
  repeat (apply keepsA_bind; [apply keepsA_modify; keeps_assign | intros _]).
  apply keepsA_tryCatchFinally; [| keeps_assign | keeps_assign].
  apply keepsA_bind; [apply keepsA_modify; keeps_assign | intros _].
  apply keepsA_bind; [apply keepsA_await | intros buffer].
  apply keepsA_bind; [apply keepsA_decodeAudioData | intros _].
  apply keepsA_bind; [apply keepsA_modify; keeps_assign | intros _].
  apply keepsA_modify; keeps_assign.
Qed.

Lemma keepsA_generateSpeechFromText (v : Q) (text voice : string)
    (fetched : Outcome Response) (env : DecodeEnv) :
  keepsA (generateSpeechFromText v text voice fetched env).
Proof.
  unfold generateSpeechFromText. destruct (isBlank text); [apply keepsA_throw |].
  repeat (apply keepsA_bind; [apply keepsA_modify; keeps_assign | intros _]).
  apply keepsA_tryCatchFinally; [| keeps_assign | keeps_assign].
  apply keepsA_bind; [apply keepsA_modify; keeps_assign | intros _].
  apply keepsA_bind; [apply keepsA_await | intros response].
  apply keepsA_bind;
    [apply keepsA_if; [apply keepsA_ret | apply keepsA_throw] | intros _].
  apply keepsA_bind; [apply keepsA_await | intros arrayBuffer].
  apply keepsA_bind; [apply keepsA_decodeAudioData | intros _].
  apply keepsA_bind; [apply keepsA_modify; keeps_assign | intros _].
  apply keepsA_modify; keeps_assign.
Qed.

Lemma keepsA_loadAudioFromVideo (v : Q) (fileName : string) (extracted : Outcome Bytes)
    (env : DecodeEnv) :
  keepsA (loadAudioFromVideo v fileName extracted env).
Proof.
  unfold loadAudioFromVideo.
  repeat (apply keepsA_bind; [apply keepsA_modify; keeps_assign | intros _]).
  apply keepsA_tryCatchFinally; [| keeps_assign | keeps_assign].
  apply keepsA_bind; [apply keepsA_modify; keeps_assign | intros _].
  apply keepsA_bind; [apply keepsA_await | intros buffer].
  apply keepsA_bind; [apply keepsA_decodeAudioData | intros _].
  apply keepsA_bind; [apply keepsA_modify; keeps_assign | intros _].
  apply keepsA_modify; keeps_assign.
Qed.

Lemma keepsF_step `{M : JsMath} (e : Event) : keepsF (step e).
Proof.
  intros s H. destruct e; cbn [step].
  - apply keepsF_loop. exact H.
  - apply keepsA_play. exact H.
  - apply keepsF_pause. exact H.
  - apply keepsF_onended. exact H.
  - apply keepsF_updateVolume. exact H.
  - exact H.
  - exact H.
  - apply keepsA_loadAudioFromFile. exact H.
  - apply keepsA_generateSpeechFromText. exact H.
  - apply keepsA_loadAudioFromVideo. exact H.
Qed.

Lemma keepsF_run `{M : JsMath} (events : list Event) : keepsF (run events).
Proof.
  induction events as [| e rest IH]; intros s H.
  - exact H.
  - change (run (e :: rest) s) with (run rest (step e s)).
    apply IH. apply keepsF_step. exact H.
Qed.

Lemma keepsA_exportVideo `{M : JsMath} (playing : bool) (v : Q)
    (canvas : option HTMLCanvasElement) (format : ExportFormat) (env : ExportEnv) :
  keepsA (exportVideo playing v canvas format env).
Proof.
  intros s H. unfold exportVideo.
  destruct canvas as [c |]; [| exact H].
  destruct (audioBufferRef s) as [buffer |]; [| exact H].
  revert s H.
  repeat (apply keepsA_bind; [apply keepsA_modify; keeps_assign | intros _]).
  apply keepsA_bind; [apply keepsA_gets | intros previousOffset].
  apply keepsA_tryCatchFinally; [| keeps_assign | keeps_assign].
  apply keepsA_bind; [apply keepsA_modify; apply keepsF_pause | intros _].
  apply keepsA_bind; [apply keepsA_ensureAudioContext | intros _].
  apply keepsA_bind; [apply keepsA_mayThrow | intros _].
  apply keepsA_bind; [apply keepsA_gets | intros audioStream].
  apply keepsA_bind; [apply keepsA_if; [apply keepsA_ret | apply keepsA_throw] | intros _].
  apply keepsA_bind; [apply keepsA_if; [apply keepsA_ret | apply keepsA_throw] | intros _].
  apply keepsA_bind; [apply keepsA_mayThrow | intros _].
  apply keepsA_bind; [apply keepsA_schedulePlayback | intros playback].
  apply keepsA_bind.
  { destruct playback as [source |]; [| apply keepsA_ret].
    apply keepsA_bind; [apply keepsA_modify; apply keepsF_run | intros _].
    apply keepsA_modify. apply keepsF_onended. }
  intros _.
  apply keepsA_bind; [apply keepsA_modify; apply keepsF_run | intros _].
  apply keepsA_bind; [apply keepsA_mayThrow | intros _].
  apply keepsA_bind;
    [destruct format; [apply keepsA_ret | apply keepsA_await] | intros finalBlob].
  apply keepsA_bind; [apply keepsA_modify; keeps_assign | intros _].
  apply keepsA_bind; [| intros _; apply keepsA_ret].
  apply keepsA_if.
  - apply keepsA_bind; [apply keepsA_modify; keeps_assign | intros _].
    apply keepsA_bind; [apply keepsA_schedulePlayback | intros; apply keepsA_ret].
  - apply keepsA_bind; [apply keepsA_modify; keeps_assign | intros _].
    apply keepsA_modify; keeps_assign.
Qed.

Lemma keepsF_perform `{M : JsMath} (a : Action) : keepsF (perform a).
Proof.
  intros s H. destruct a as [e | canvas format env]; cbn [perform].
  - apply keepsF_step. exact H.
  - apply keepsA_exportVideo. exact H.
Qed.

Lemma session_wf `{M : JsMath} (actions : list Action) (seed : Q) :
  engine_wf (session actions (initialEngine seed)).
Proof.
  assert (Hgen : forall s, engine_wf s -> engine_wf (session actions s)).
  { induction actions as [| a rest IH]; intros s H.
    - exact H.
    - change (session (a :: rest) s) with (session rest (perform a s)).
      apply IH. apply keepsF_perform. exact H. }
  apply Hgen. apply engine_wf_no_source. reflexivity.
Qed.

(** Elimination of one [Qmax] or [Qmin] by cases. *)
Lemma Qmax_cases (a b : Q) :
  (a <= b /\ Qmax a b == b) \/ (b <= a /\ Qmax a b == a).
Proof.
  destruct (Q.max_spec a b) as [[H E] | [H E]]; [left | right]; split;
    try exact E; lra.
Qed.

Lemma Qmin_cases (a b : Q) :
  (a <= b /\ Qmin a b == a) \/ (b <= a /\ Qmin a b == b).
Proof.
  destruct (Q.min_spec a b) as [[H E] | [H E]]; [left | right]; split;
    try exact E; lra.
Qed.


Lemma startOffsetOf_id (x d : Q) :
  0 <= x -> x <= d - (1 # 1000) -> startOffsetOf x d == x.
Proof.
  intros H0 H1. unfold startOffsetOf.
  destruct (Qmax_cases x 0) as [[Ha Ea] | [Ha Ea]];
    destruct (Qmax_cases (d - (1 # 1000)) 0) as [[Hb Eb] | [Hb Eb]];
    destruct (Qmin_cases (Qmax x 0) (Qmax (d - (1 # 1000)) 0))
      as [[Hc Ec] | [Hc Ec]];
    rewrite Ec; rewrite ?Ea, ?Eb in *; lra.
Qed.


(** ** Seeking *)




(** ** Idempotence of the transport controls *)

Lemma pause_when_paused (now : Q) (s : Engine) : pause false now s = s.
Proof.
  unfold pause. destruct (audioBufferRef s); [| reflexivity].
  destruct (audioContextRef s); reflexivity.
Qed.

Lemma play_restarts (now : Q) (s s' : Engine) (backend : Backend)
    (buffer : AudioBuffer) (old : NodeId) :
  isPlaying s = true -> audioBufferRef s = Some buffer ->
  audioContextRef s = true ->
  sourceNodeRef s = Some old -> (old < nodesCreated s)%nat ->
  play (isPlaying s) (volume s) backend now s = (s', Resolved tt) ->
  isPlaying s' = true /\
  sourceNodeRef s' = Some (nodesCreated s) /\
  sourceNodeRef s' <> sourceNodeRef s /\
  ~ In (NSource old, NAnalyser) (connections s') /\
  pauseOffsetRef s'
    = startOffsetOf (getCurrentOffset true now s) (duration buffer) /\
  (0 <= now - startTimeRef s ->
   now - startTimeRef s <= duration buffer - (1 # 1000) ->
   pauseOffsetRef s' == now - startTimeRef s /\
   startTimeRef s' == startTimeRef s).
Proof.
  intros Hp Hbuf Hctx Hold Hlt Hplay.
  unfold play, bind in Hplay. rewrite Hbuf, Hp in Hplay.
  destruct (schedulePlayback (volume s) backend now
              (getCurrentOffset true now s) true s) as [s1 [r | e]] eqn:E;
    [| discriminate].
  cbn in Hplay. inversion Hplay; subst s1; clear Hplay.
  destruct (schedulePlayback_started _ _ _ _ _ _ _ _ _ Hbuf E)
    as (_ & Hsrc & _ & _ & Hoff & Hstart & Hplaying & _ & _ & Hret).
  split; [exact Hplaying |]. split; [exact Hsrc |].
  split; [rewrite Hsrc, Hold; intros Heq; inversion Heq; lia |].
  split; [apply Hret; [exact Hold | lia] |].
  split; [exact Hoff |].
  intros H0 H1.
  assert (Hcur : getCurrentOffset true now s == now - startTimeRef s).
  { unfold getCurrentOffset. rewrite Hbuf, Hctx. cbn.
    destruct (Qmax_cases (now - startTimeRef s) 0) as [[Ha Ea] | [Ha Ea]];
      destruct (Qmin_cases (Qmax (now - startTimeRef s) 0) (duration buffer))
        as [[Hc Ec] | [Hc Ec]];
      rewrite Ec; rewrite ?Ea in *; lra. }
  assert (Hid : startOffsetOf (getCurrentOffset true now s) (duration buffer)
                == now - startTimeRef s).
  { rewrite (startOffsetOf_id _ (duration buffer));
      [exact Hcur | rewrite Hcur; assumption | rewrite Hcur; assumption]. }
  split.
  - rewrite Hoff. exact Hid.
  - rewrite Hstart, Hid. ring.
Qed.

(** C2, as the code has it: [pause()] on a paused transport is a no-op that
    leaves the whole engine state unchanged.  [play()] on a running
    transport is not: in every state a session can reach, it retires the
    active source node and starts a fresh one at the current offset,
    clamped to [0, max(duration - 0.001, 0)]; it stores that offset in
    [pauseOffsetRef], and the transport stays running.  While the elapsed
    time lies in [0, duration - 0.001] the playback clock [startTimeRef]
    keeps its value. *)
Theorem pause_idempotent_play_restarts `{M : JsMath} (now : Q) :
  (forall s, isPlaying s = false -> pause (isPlaying s) now s = s) /\
  (forall seed actions backend buffer old s',
     let s := session actions (initialEngine seed) in
     isPlaying s = true -> audioBufferRef s = Some buffer ->
     sourceNodeRef s = Some old ->
     play (isPlaying s) (volume s) backend now s = (s', Resolved tt) ->
     isPlaying s' = true /\
     sourceNodeRef s' = Some (nodesCreated s) /\
     sourceNodeRef s' <> sourceNodeRef s /\
     ~ In (NSource old, NAnalyser) (connections s') /\
     pauseOffsetRef s'
       = startOffsetOf (getCurrentOffset true now s) (duration buffer) /\
     (0 <= now - startTimeRef s ->
      now - startTimeRef s <= duration buffer - (1 # 1000) ->
      pauseOffsetRef s' == now - startTimeRef s /\
      startTimeRef s' == startTimeRef s)).
Proof.
  split.
  - intros s Hp. rewrite Hp. apply pause_when_paused.
  - intros seed actions backend buffer old s' s Hp Hbuf Hold Hplay.
    destruct (session_wf actions seed old Hold) as (Hlt & _ & Hctx).
    exact (play_restarts now s s' backend buffer old Hp Hbuf Hctx Hold Hlt Hplay).
Qed.

Lemma pause_idempotent_play_restarts_witness :
  pause (isPlaying demoPaused) 1 demoPaused = demoPaused /\
  sourceNodeRef
    (fst (play (isPlaying (session demoStart (initialEngine (1 # 3))))
            (volume (session demoStart (initialEngine (1 # 3))))
            BackendReady 1 (session demoStart (initialEngine (1 # 3)))))
    = Some (nodesCreated (session demoStart (initialEngine (1 # 3)))).
Proof.
  split.
  - apply (proj1 (pause_idempotent_play_restarts 1) demoPaused).
    vm_compute; reflexivity.
  - refine (proj1 (proj2
      (proj2 (pause_idempotent_play_restarts 1) (1 # 3) demoStart
         BackendReady demoBuffer 0%nat _ _ _ _ _)));
      vm_compute; reflexivity.
Defined.

(** C2 fails as stated for [play()]: on a transport that has been running
    for one second, [play()] replaces the active source node (the first
    node by the second) and moves the stored offset from 0 to 1. *)
Lemma play_while_running_is_not_a_noop :
  isPlaying demoRunning = true /\
  sourceNodeRef demoRunning = Some 0%nat /\
  pauseOffsetRef demoRunning == 0 /\
  snd (play (isPlaying demoRunning) (volume demoRunning) BackendReady 1 demoRunning)
    = Resolved tt /\
  sourceNodeRef (fst (play (isPlaying demoRunning) (volume demoRunning)
                        BackendReady 1 demoRunning)) = Some 1%nat /\
  pauseOffsetRef (fst (play (isPlaying demoRunning) (volume demoRunning)
                         BackendReady 1 demoRunning)) == 1 /\
  fst (play (isPlaying demoRunning) (volume demoRunning) BackendReady 1 demoRunning)
    <> demoRunning.
Proof.
  repeat split; try (vm_compute; reflexivity).
  intros Heq. apply (f_equal sourceNodeRef) in Heq. vm_compute in Heq. discriminate.
Qed.

(** ** End of a segment *)

Lemma onended_current (source : NodeId) (s : Engine) :
  sourceNodeRef s = Some source -> ignoreEndRef s = false ->
  isPlaying (onended source true s) = false /\
  pauseOffsetRef (onended source true s) = 0 /\
  sourceNodeRef (onended source true s) = None /\
  audioBufferRef (onended source true s) = audioBufferRef s.
Proof.
  intros Hsrc Hign. unfold onended. rewrite Hsrc, Hign. cbn.
  rewrite Nat.eqb_refl. cbn. repeat split; reflexivity.
Qed.

Lemma onended_stale (source : NodeId) (markPlaying : bool) (s : Engine) :
  sourceNodeRef s <> Some source \/ ignoreEndRef s = true ->
  onended source markPlaying s = s.
Proof.
  intros H. unfold onended.
  destruct (ignoreEndRef s); [reflexivity |].
  destruct (option_nat_eqb (sourceNodeRef s) (Some source)) eqn:E; [| reflexivity].
  apply option_nat_eqb_eq in E. destruct H as [H | H]; [contradiction | discriminate].
Qed.

(** Frames and settings leave the transport as it is. *)
Lemma passive_step `{M : JsMath} (e : Event) (s : Engine) :
  passive e ->
  sourceNodeRef (step e s) = sourceNodeRef s /\
  ignoreEndRef (step e s) = ignoreEndRef s /\
  isPlaying (step e s) = isPlaying s /\
  pauseOffsetRef (step e s) = pauseOffsetRef s /\
  audioBufferRef (step e s) = audioBufferRef s.
Proof.
  destruct e; cbn [passive]; intros H; try contradiction; cbn [step].
  - unfold loop. destruct (analyserRef s); [| repeat split; reflexivity].
    destruct (audioBufferRef s) eqn:Hb; [| repeat split; try reflexivity; exact Hb].
    destruct (headRotation s) as [[x y] z]. destruct (eyeDirection s) as [ex ey].
    cbn. repeat split; try reflexivity; exact Hb.
  - unfold updateVolume. cbn. destruct (gainRef s); cbn; repeat split; reflexivity.
  - unfold setEmotionValue. cbn. repeat split; reflexivity.
  - unfold regenerateGestures. cbn. repeat split; reflexivity.
Qed.

Lemma passive_run `{M : JsMath} (events : list Event) (s : Engine) :
  Forall passive events ->
  sourceNodeRef (run events s) = sourceNodeRef s /\
  ignoreEndRef (run events s) = ignoreEndRef s /\
  isPlaying (run events s) = isPlaying s /\
  pauseOffsetRef (run events s) = pauseOffsetRef s /\
  audioBufferRef (run events s) = audioBufferRef s.
Proof.
  intros Hall. revert s. induction Hall as [| e rest He _ IH]; intros s.
  - cbn. repeat split; reflexivity.
  - change (run (e :: rest) s) with (run rest (step e s)).
    destruct (IH (step e s)) as (H1 & H2 & H3 & H4 & H5).
    destruct (passive_step e s He) as (P1 & P2 & P3 & P4 & P5).
    rewrite H1, H2, H3, H4, H5. repeat split; assumption.
Qed.

(** C4: once a segment has been started ([play()] is [schedulePlayback] at
    the current offset; an export starts its forced segment the same way),
    and whatever frames and settings changes follow (no pause, restart or
    reload), the end of that segment's node takes the transport from
    running to paused with the offset reset to 0 and no current node; the
    offset read from then on is 0. *)
Theorem natural_end_pauses_at_zero `{M : JsMath} (volume : Q) (backend : Backend)
    (now offset : Q) (events : list Event) (s s1 : Engine) (source : NodeId) :
  schedulePlayback volume backend now offset true s = (s1, Resolved (Some source)) ->
  Forall passive events ->
  sourceNodeRef s1 = Some source /\ isPlaying s1 = true /\
  isPlaying (run events s1) = true /\
  let s2 := onended source true (run events s1) in
  isPlaying s2 = false /\ pauseOffsetRef s2 = 0 /\ sourceNodeRef s2 = None /\
  (forall now' buffer, audioBufferRef s2 = Some buffer -> 0 <= duration buffer ->
                       getCurrentOffset (isPlaying s2) now' s2 == 0).
Proof.
  intros Hsched Hall.
  destruct (audioBufferRef s) as [buffer |] eqn:Hbuf.
  2: { unfold schedulePlayback in Hsched. rewrite Hbuf in Hsched. discriminate. }
  destruct (schedulePlayback_started _ _ _ _ _ _ _ _ _ Hbuf Hsched)
    as (Hr & Hsrc & _ & Hign & _ & _ & Hplaying & _ & _ & _).
  rewrite <- Hr in Hsrc.
  destruct (passive_run events s1 Hall) as (R1 & R2 & R3 & _ & _).
  split; [exact Hsrc |]. split; [exact Hplaying |].
  split; [rewrite R3; exact Hplaying |].
  assert (Hcur : sourceNodeRef (run events s1) = Some source)
    by (rewrite R1; exact Hsrc).
  assert (Hno : ignoreEndRef (run events s1) = false) by (rewrite R2; exact Hign).
  destruct (onended_current _ _ Hcur Hno) as (E1 & E2 & E3 & _).
  cbv zeta. split; [exact E1 |]. split; [exact E2 |]. split; [exact E3 |].
  intros now' buffer' Hb Hd. unfold getCurrentOffset. rewrite Hb, E1, E2. cbn.
  destruct (Qmin_cases 0 (duration buffer')) as [[Hc Ec] | [Hc Ec]]; rewrite Ec; lra.
Qed.

Lemma natural_end_pauses_at_zero_witness :
  isPlaying demoRunning = true /\
  isPlaying
    (onended 0%nat true
       (run [Frame 1 1 demoRender; UpdateVolume 0; Frame 2 2 demoRender] demoRunning))
    = false /\
  pauseOffsetRef
    (onended 0%nat true
       (run [Frame 1 1 demoRender; UpdateVolume 0; Frame 2 2 demoRender] demoRunning))
    = 0.
Proof.
  assert (Hs : schedulePlayback 1 BackendReady 0 0 true demoLoaded
               = (demoRunning, Resolved (Some 0%nat))) by (vm_compute; reflexivity).
  assert (Hp : Forall passive
                 [Frame 1 1 demoRender; UpdateVolume 0; Frame 2 2 demoRender])
    by (repeat constructor).
  destruct (natural_end_pauses_at_zero 1 BackendReady 0 0 _ demoLoaded demoRunning
              0%nat Hs Hp) as (_ & H1 & _ & H2 & H3 & _).
  split; [exact H1 |]. split; [exact H2 | exact H3].
Defined.

(** ** Stale end events *)

Lemma stale_ended_ignored (old : NodeId) (markPlaying : bool)
    (buffer : AudioBuffer) (s : Engine) :
  audioBufferRef s = Some buffer -> audioContextRef s = true ->
  sourceNodeRef s = Some old -> (old < nodesCreated s)%nat ->
  (forall volume backend now offset mark s' r,
     schedulePlayback volume backend now offset mark s = (s', Resolved r) ->
     sourceNodeRef s' = Some (nodesCreated s) /\ sourceNodeRef s' <> Some old /\
     onended old markPlaying s' = s') /\
  (forall now,
     let s' := pause true now s in
     isPlaying s' = false /\ ignoreEndRef s' = true /\ sourceNodeRef s' = None /\
     onended old markPlaying s' = s').
Proof.
  intros Hbuf Hctx Hold Hlt. split.
  - intros volume backend now offset mark s' r Hsched.
    destruct (schedulePlayback_started _ _ _ _ _ _ _ _ _ Hbuf Hsched)
      as (_ & Hsrc & _).
    assert (Hne : sourceNodeRef s' <> Some old).
    { rewrite Hsrc. intros Heq. inversion Heq. lia. }
    split; [exact Hsrc |]. split; [exact Hne |].
    apply onended_stale. left. exact Hne.
  - intros now s'. subst s'. unfold pause. rewrite Hbuf, Hctx.
    cbn. pose proof (stopCurrentSource_frame
                       (set_ignoreEndRef true
                          (set_pauseOffsetRef (getCurrentOffset true now s) s)))
      as (F1 & _ & _ & _ & _ & F6 & _).
    cbn in F6.
    repeat split; try reflexivity; try assumption.
    apply onended_stale. right. cbn. exact F6.
Qed.

(** C5: the end event of a node that is no longer current changes nothing.
    In every state a session can reach, with current node [old]: after a
    restart has built a fresh node, the end of [old] leaves the engine
    state as it is (the new segment keeps playing at its offset); after
    [pause()], which sets the suppression flag before stopping [old],
    likewise; and in general the handler of [old] is the identity on every
    state whose current node is not [old] or whose suppression flag is
    set. *)
Theorem stale_ended_changes_nothing `{M : JsMath} (seed : Q) (actions : list Action)
    (old : NodeId) (markPlaying : bool) :
  let s := session actions (initialEngine seed) in
  sourceNodeRef s = Some old ->
  (forall volume backend now offset mark s' r,
     schedulePlayback volume backend now offset mark s = (s', Resolved r) ->
     sourceNodeRef s' = Some (nodesCreated s) /\ sourceNodeRef s' <> Some old /\
     onended old markPlaying s' = s') /\
  (forall now,
     let s' := pause true now s in
     isPlaying s' = false /\ ignoreEndRef s' = true /\ sourceNodeRef s' = None /\
     onended old markPlaying s' = s') /\
  (forall s0, sourceNodeRef s0 <> Some old \/ ignoreEndRef s0 = true ->
              onended old markPlaying s0 = s0).
Proof.
  intros s Hold.
  destruct (session_wf actions seed old Hold) as (Hlt & Hbuf & Hctx).
  destruct (audioBufferRef s) as [buffer |] eqn:Hb; [| contradiction].
  destruct (stale_ended_ignored old markPlaying buffer s Hb Hctx Hold Hlt)
    as (Hrestart & Hpause).
  split; [exact Hrestart |]. split; [exact Hpause |].
  intros s0 H. apply onended_stale. exact H.
Qed.

Lemma stale_ended_changes_nothing_witness :
  onended 0%nat true
    (fst (schedulePlayback 1 BackendReady 1 1 true
            (session demoStart (initialEngine (1 # 3)))))
    = fst (schedulePlayback 1 BackendReady 1 1 true
             (session demoStart (initialEngine (1 # 3)))) /\
  onended 0%nat true (pause true 1 (session demoStart (initialEngine (1 # 3))))
    = pause true 1 (session demoStart (initialEngine (1 # 3))).
Proof.
  assert (Ho : sourceNodeRef (session demoStart (initialEngine (1 # 3))) = Some 0%nat)
    by (vm_compute; reflexivity).
  pose proof (stale_ended_changes_nothing (1 # 3) demoStart 0%nat true Ho)
    as (Hrestart & Hpause & _).
  split.
  - apply (Hrestart 1 BackendReady 1 1 true _ (Some 1%nat)).
    vm_compute; reflexivity.
  - apply (Hpause 1).
Defined.

(** ** Recording: the in-progress flag *)

Lemma tryCatchFinally_outcome {A} (body : Async A) (handler final : Engine -> Engine)
    (s : Engine) :
  (exists s' a, body s = (s', Resolved a) /\
                tryCatchFinally body handler final s = (final s', Resolved a)) \/
  (exists s' e, body s = (s', Rejected e) /\
                tryCatchFinally body handler final s
                  = (final (handler s'), Rejected e)).
Proof.
  unfold tryCatchFinally. destruct (body s) as [s' [a | e]].
  - left. exists s', a. split; reflexivity.
  - right. exists s', e. split; reflexivity.
Qed.

Lemma exportVideo_precondition `{M : JsMath} (playing : bool) (volume : Q)
    (canvas : option HTMLCanvasElement) (format : ExportFormat) (env : ExportEnv)
    (s : Engine) :
  canvas = None \/ audioBufferRef s = None ->
  exists e, exportVideo playing volume canvas format env s = (s, Rejected e).
Proof.
  intros H. unfold exportVideo.
  destruct canvas as [c |].
  - destruct H as [H | H]; [discriminate |]. rewrite H. eexists. reflexivity.
  - eexists. reflexivity.
Qed.

(** C6: every [exportVideo] call that gets past its two precondition checks
    (a canvas is supplied and a buffer is loaded) leaves [isExporting] false
    when its promise settles, whatever the platform and the user do in the
    meantime and whether it resolves or rejects. *)
Theorem exportVideo_releases_isExporting `{M : JsMath} (playing : bool) (volume : Q)
    (canvas : option HTMLCanvasElement) (format : ExportFormat) (env : ExportEnv)
    (s : Engine) :
  canvas <> None -> audioBufferRef s <> None ->
  isExporting (fst (exportVideo playing volume canvas format env s)) = false.
Proof.
  intros Hc Hb. unfold exportVideo.
  destruct canvas as [c |]; [| contradiction].
  destruct (audioBufferRef s) as [buffer |]; [| contradiction].
  unfold bind at 1 2 3. unfold modify at 1 2. unfold gets at 1.
  match goal with
  | |- context [tryCatchFinally ?body ?handler ?final ?s0] =>
      destruct (tryCatchFinally_outcome body handler final s0)
        as [(s' & a & _ & ->) | (s' & e & _ & ->)]
  end; reflexivity.
Qed.

Lemma exportVideo_releases_isExporting_witness :
  isExporting (fst (exportVideo true 1 (Some Canvas) Mp4 demoExportTranscodeFails
                      demoRunning)) = false.
Proof.
  apply exportVideo_releases_isExporting.
  - discriminate.
  - vm_compute. discriminate.
Defined.

(** The flag is raised during the call, and both outcomes occur. *)
Example exportVideo_outcomes :
  snd (exportVideo true 1 (Some Canvas) Mp4 demoExport demoRunning)
    = Resolved (mkBlob "video/mp4" [26; 69; 223; 163]%nat) /\
  snd (exportVideo true 1 (Some Canvas) Webm demoExportUnsupported demoRunning)
    = Rejected "Browser does not support the required recording format." /\
  snd (exportVideo true 1 (Some Canvas) Mp4 demoExportTranscodeFails demoRunning)
    = Rejected "ffmpeg exited with code 1" /\
  snd (exportVideo true 1 None Mp4 demoExport demoRunning)
    = Rejected "Preview canvas is not ready yet.".
Proof. repeat split; vm_compute; reflexivity. Qed.

(** ** Loading: what a failure leaves behind *)

Lemma resetPlayback_frame (s : Engine) :
  audioBufferRef (resetPlayback s) = audioBufferRef s /\
  hasAudio (resetPlayback s) = hasAudio s.
Proof.
  unfold resetPlayback. cbn.
  pose proof (stopCurrentSource_frame
                (set_startTimeRef 0 (set_pauseOffsetRef 0 s)))
    as (_ & _ & _ & _ & _ & _ & Hb & _ & Hh & _).
  split; [exact Hb | exact Hh].
Qed.



(** A blank text is refused before anything is touched. *)
Lemma generateSpeechFromText_blank (volume : Q) (text voice : string)
    (fetched : Outcome Response) (env : DecodeEnv) (s : Engine) :
  isBlank text = true ->
  generateSpeechFromText volume text voice fetched env s
    = (s, Rejected "Please provide text to generate speech.").
Proof. intros H. unfold generateSpeechFromText. rewrite H. reflexivity. Qed.




(** The previous asset is replaced by a load that succeeds, and only then. *)
Example load_replaces_on_success :
  hasAudio demoRunning = true /\
  audioBufferRef
    (fst (loadAudioFromVideo 1 "clip.mp4" (Resolved [0; 1]%nat)
            (mkDecodeEnv BackendReady (Resolved (mkAudioBuffer 5 [0])))
            demoRunning))
    = Some (mkAudioBuffer 5 [0]) /\
  audioBufferRef
    (fst (loadAudioFromVideo 1 "clip.mp4" (Rejected "no audio track")
            (mkDecodeEnv BackendReady (Resolved (mkAudioBuffer 5 [0])))
            demoRunning))
    = Some demoBuffer.
Proof. repeat split; vm_compute; reflexivity. Qed.

(** ** Recording: restoring the transport *)

Lemma bind_resolved {A B} (m : Async A) (k : A -> Async B) (s s' : Engine) (b : B) :
  bind m k s = (s', Resolved b) ->
  exists s1 a, m s = (s1, Resolved a) /\ k a s1 = (s', Resolved b).
Proof.
  unfold bind. destruct (m s) as [s1 [a | e]]; [| discriminate].
  intros H. exists s1, a. split; [reflexivity | exact H].
Qed.

Lemma tryCatchFinally_resolved {A} (body : Async A) (handler final : Engine -> Engine)
    (s s' : Engine) (a : A) :
  tryCatchFinally body handler final s = (s', Resolved a) ->
  exists s1, body s = (s1, Resolved a) /\ s' = final s1.
Proof.
  unfold tryCatchFinally. destruct (body s) as [s1 [a1 | e]]; [| discriminate].
  intros H. inversion H; subst. exists s1. split; reflexivity.
Qed.

Lemma schedulePlayback_no_buffer (v : Q) (backend : Backend) (now offset : Q)
    (markPlaying : bool) (s : Engine) :
  audioBufferRef s = None ->
  schedulePlayback v backend now offset markPlaying s = (s, Resolved None).
Proof. intros H. unfold schedulePlayback. rewrite H. reflexivity. Qed.

(** On the resolving path the transport is put back: paused at the offset
    read before the recording, or running from that offset (clamped as
    every segment start is). *)
Lemma exportVideo_resolved_restores `{M : JsMath} (playing : bool) (v : Q)
    (canvas : option HTMLCanvasElement) (format : ExportFormat) (env : ExportEnv)
    (s s' : Engine) (blob : Blob) :
  exportVideo playing v canvas format env s = (s', Resolved blob) ->
  isExporting s' = false /\
  if playing
  then forall buffer, audioBufferRef s' = Some buffer ->
         isPlaying s' = true /\
         pauseOffsetRef s'
           = startOffsetOf (getCurrentOffset true (ex_now env) s) (duration buffer) /\
         startTimeRef s'
           = ex_restoreNow env
             - startOffsetOf (getCurrentOffset true (ex_now env) s) (duration buffer)
  else isPlaying s' = false /\
       pauseOffsetRef s' = getCurrentOffset false (ex_now env) s.
Proof.
  unfold exportVideo. destruct canvas as [c |]; [| discriminate].
  destruct (audioBufferRef s) as [buffer0 |]; [| discriminate].
  intros H.
  apply bind_resolved in H. destruct H as (s1 & [] & H1 & H).
  apply bind_resolved in H. destruct H as (s2 & [] & H2 & H).
  apply bind_resolved in H. destruct H as (s3 & previousOffset & H3 & H).
  unfold modify in H1, H2. unfold gets in H3.
  inversion H1; subst s1; clear H1. inversion H2; subst s2; clear H2.
  inversion H3; subst s3 previousOffset; clear H3.
  change (getCurrentOffset playing (ex_now env)
            (set_statusMessage
               (Some ("Rendering " ++ toUpperCase format ++ "...")%string)
               (set_isExporting true s)))
    with (getCurrentOffset playing (ex_now env) s) in H.
  apply tryCatchFinally_resolved in H. destruct H as (s4 & H & ->).
  split; [reflexivity |].
  do 12 (apply bind_resolved in H;
         let sx := fresh "sx" in let ax := fresh "ax" in
         destruct H as (sx & ax & _ & H)).
  apply bind_resolved in H. destruct H as (before & [] & _ & H).
  apply bind_resolved in H. destruct H as (s5 & [] & Hrestore & H).
  unfold ret in H. inversion H; subst; clear H.
  destruct playing.
  - apply bind_resolved in Hrestore. destruct Hrestore as (s6 & [] & Hset & Hrestore).
    unfold modify in Hset. inversion Hset; subst s6; clear Hset.
    apply bind_resolved in Hrestore. destruct Hrestore as (s7 & r & Hsched & Hret).
    unfold ret in Hret. inversion Hret; subst; clear Hret.
    intros buffer Hbuf. cbn in Hbuf.
    assert (Hpre : audioBufferRef
                     (set_pauseOffsetRef (getCurrentOffset true (ex_now env) s) before)
                   = Some buffer).
    { destruct (audioBufferRef
                  (set_pauseOffsetRef (getCurrentOffset true (ex_now env) s) before))
        as [b |] eqn:Hb.
      - destruct (schedulePlayback_started _ _ _ _ _ _ _ _ _ Hb Hsched)
          as (_ & _ & _ & _ & _ & _ & _ & Hb' & _).
        congruence.
      - rewrite (schedulePlayback_no_buffer _ _ _ _ _ _ Hb) in Hsched.
        inversion Hsched; subst. congruence. }
    destruct (schedulePlayback_started _ _ _ _ _ _ _ _ _ Hpre Hsched)
      as (_ & _ & _ & _ & Hoff & Hstart & Hplay & _).
    cbn. repeat split; assumption.
  - apply bind_resolved in Hrestore. destruct Hrestore as (s6 & [] & Hset & Hrestore).
    unfold modify in Hset, Hrestore. inversion Hset; subst s6; clear Hset.
    inversion Hrestore; subst; clear Hrestore.
    cbn. split; reflexivity.
Qed.

(** C1 fails on the rejecting paths: the restore block is the last
    statement of the [try] body, so a rejection skips it.  A transport
    running at offset 1 whose export is refused by the browser is left
    paused; a transport paused at 1/2 whose export fails in the transcoder
    is left at offset 0. *)
Theorem exportVideo_failure_skips_restore :
  (isPlaying demoRunning = true /\
   getCurrentOffset true 1 demoRunning == 1 /\
   snd (exportVideo (isPlaying demoRunning) (volume demoRunning) (Some Canvas) Webm
          demoExportUnsupported demoRunning)
     = Rejected "Browser does not support the required recording format." /\
   isPlaying (fst (exportVideo (isPlaying demoRunning) (volume demoRunning)
                     (Some Canvas) Webm demoExportUnsupported demoRunning))
     = false) /\
  (isPlaying demoPaused = false /\
   getCurrentOffset false 1 demoPaused == 1 # 2 /\
   snd (exportVideo (isPlaying demoPaused) (volume demoPaused) (Some Canvas) Mp4
          demoExportTranscodeFails demoPaused)
     = Rejected "ffmpeg exited with code 1" /\
   getCurrentOffset false 3
     (fst (exportVideo (isPlaying demoPaused) (volume demoPaused) (Some Canvas) Mp4
             demoExportTranscodeFails demoPaused)) == 0).
Proof. repeat split; vm_compute; reflexivity. Qed.

(** On the resolving path the same two transports are put back: running
    again from offset 1, and paused at 1/2. *)
Example exportVideo_success_restores :
  (snd (exportVideo (isPlaying demoRunning) (volume demoRunning) (Some Canvas) Mp4
          demoExport demoRunning)
     = Resolved (mkBlob "video/mp4" [26; 69; 223; 163]%nat) /\
   isPlaying (fst (exportVideo (isPlaying demoRunning) (volume demoRunning)
                     (Some Canvas) Mp4 demoExport demoRunning)) = true /\
   getCurrentOffset true 3
     (fst (exportVideo (isPlaying demoRunning) (volume demoRunning) (Some Canvas) Mp4
             demoExport demoRunning)) == 1) /\
  (isPlaying (fst (exportVideo (isPlaying demoPaused) (volume demoPaused)
                     (Some Canvas) Mp4 demoExport demoPaused)) = false /\
   getCurrentOffset false 3
     (fst (exportVideo (isPlaying demoPaused) (volume demoPaused) (Some Canvas) Mp4
             demoExport demoPaused)) == 1 # 2).
Proof. repeat split; vm_compute; reflexivity. Qed.

(** ** Volume and energy *)













(** Naming the fields of a state. *)
Ltac break_engine s :=
  destruct s as [f_emotions f_gestureSeed f_isPlaying f_isLoadingAudio f_isGeneratingSpeech
    f_isProcessingVideo f_isExporting f_playbackProgress f_audioDuration f_audioName
    f_statusMessage f_volume f_hasAudio f_mouthOpen f_blink
    f_headRotation f_eyeDirection f_handWave f_energy f_audioBufferRef
    f_audioContextRef f_analyserRef f_gainRef f_destinationRef f_sourceNodeRef
    f_startTimeRef f_pauseOffsetRef f_ignoreEndRef f_peakEnergyRef f_connections
    f_nodesCreated].





























Lemma updateVolume_gain (value : Q) (s : Engine) :
  unit_range (volume (updateVolume value s)) /\
  volume (updateVolume value s) = clamp01 value /\
  (forall g, gainRef s = Some g ->
             gainRef (updateVolume value s) = Some (clamp01 value)) /\
  (gainRef s = None -> gainRef (updateVolume value s) = None).
Proof.
  unfold updateVolume. destruct (gainRef s) eqn:Hg; cbn; rewrite ?Hg; cbn.
  - split; [apply clamp01_range |]. split; [reflexivity |].
    split; [intros; reflexivity | discriminate].
  - split; [apply clamp01_range |]. split; [reflexivity |].
    split; [discriminate | intros; exact Hg].
Qed.



(** Volume 0 silences what reaches the speakers; the energy of the frame
    is what it is at volume 1. *)
Example volume_zero_silences_the_speakers :
  gainRef (session (demoSession 0) (initialEngine (1 # 3))) = Some 0 /\
  gainRef (session (demoSession 1) (initialEngine (1 # 3))) = Some 1 /\
  forallb (Qeq_bool 0)
    (speakerSignal demoRender (session (demoSession 0) (initialEngine (1 # 3))))
    = true /\
  nth 0 (speakerSignal demoRender (session (demoSession 1) (initialEngine (1 # 3)))) 0
    == 1 # 2 /\
  nth 0 (getFloatTimeDomainData demoRender
           (session (demoSession 0) (initialEngine (1 # 3)))) 0 == 1 # 2 /\
  0 < energy (session (demoSession 0) (initialEngine (1 # 3))).
Proof. repeat split; vm_compute; reflexivity. Qed.



(** * Invariants kept by every operation *)

Lemma invA_ret {A} (P : Engine -> Prop) (a : A) : invA P (ret a).
Proof. intros s H. exact H. Qed.

Lemma invA_throw {A} (P : Engine -> Prop) (e : string) : invA P (@throw A e).
Proof. intros s H. exact H. Qed.

Lemma invA_await {A} (P : Engine -> Prop) (o : Outcome A) : invA P (await o).
Proof. intros s H. exact H. Qed.

Lemma invA_mayThrow (P : Engine -> Prop) (fault : option string) :
  invA P (mayThrow fault).
Proof. intros s H. unfold mayThrow. destruct fault; exact H. Qed.

Lemma invA_gets {A} (P : Engine -> Prop) (f : Engine -> A) : invA P (gets f).
Proof. intros s H. exact H. Qed.

Lemma invA_modify (P : Engine -> Prop) (f : Engine -> Engine) :
  invF P f -> invA P (modify f).
Proof. intros Hf s H. apply Hf. exact H. Qed.

Lemma invA_bind {A B} (P : Engine -> Prop) (m : Async A) (k : A -> Async B) :
  invA P m -> (forall a, invA P (k a)) -> invA P (bind m k).
Proof.
  intros Hm Hk s H. unfold bind. specialize (Hm s H).
  destruct (m s) as [s1 [a | e]]; cbn in Hm.
  - apply Hk. exact Hm.
  - exact Hm.
Qed.

Lemma invA_tryCatchFinally {A} (P : Engine -> Prop) (body : Async A)
    (handler final : Engine -> Engine) :
  invA P body -> invF P handler -> invF P final ->
  invA P (tryCatchFinally body handler final).
Proof.
  intros Hb Hh Hf s H. unfold tryCatchFinally. specialize (Hb s H).
  destruct (body s) as [s1 [a | e]]; cbn in *.
  - apply Hf. exact Hb.
  - apply Hf. apply Hh. exact Hb.
Qed.

Lemma invA_if {A} (P : Engine -> Prop) (b : bool) (m1 m2 : Async A) :
  invA P m1 -> invA P m2 -> invA P (if b then m1 else m2).
Proof. intros H1 H2. destruct b; assumption. Qed.

Lemma schedulePlayback_unfold (v : Q) (backend : Backend) (now offset : Q)
    (markPlaying : bool) (s : Engine) :
  schedulePlayback v backend now offset markPlaying s
  = match audioBufferRef s with
    | None => (s, Resolved None)
    | Some buffer =>
        bind (ensureAudioContext v backend)
          (fun _ => startSegment now (startOffsetOf offset (duration buffer)) markPlaying)
          s
    end.
Proof. reflexivity. Qed.

Lemma decodeAudioData_unfold (v : Q) (env : DecodeEnv) (bytes : Bytes) :
  decodeAudioData v env bytes
  = bind (ensureAudioContext v (dec_backend env))
      (fun _ => bind (await (dec_decoded env))
                  (fun decoded => modify (installBuffer decoded))).
Proof.
  unfold decodeAudioData, installBuffer, bind, modify, await.
  destruct (dec_decoded env); reflexivity.
Qed.

Section Operations.
Variable P : Engine -> Prop.
Variable v : Q.
Hypothesis HS : Stable P v.

Lemma invA_schedulePlayback (backend : Backend) (now offset : Q) (markPlaying : bool) :
  invA P (schedulePlayback v backend now offset markPlaying).
Proof.
  intros s H. rewrite schedulePlayback_unfold.
  destruct (audioBufferRef s) as [buffer |] eqn:Hb; [| exact H].
  unfold bind. pose proof (st_ensure P v HS backend s H) as H1.
  destruct (ensureAudioContext v backend s) as [s1 [[] | e]] eqn:E;
    cbn [fst] in H1; [| exact H1].
  apply ensureAudioContext_frame in E.
  destruct E as (_ & _ & _ & _ & _ & _ & Hb1 & _ & _ & _ & Hres).
  destruct (Hres eq_refl) as (Hc1 & _).
  apply (st_start P v HS); [rewrite Hb1, Hb; discriminate | exact Hc1 | exact H1].
Qed.

Lemma invA_play (playing : bool) (backend : Backend) (now : Q) :
  invA P (play playing v backend now).
Proof.
  intros s H. unfold play. destruct (audioBufferRef s); [| exact H].
  revert H. generalize (getCurrentOffset playing now s). intros offset. revert s.
  apply invA_bind; [apply invA_schedulePlayback | intros; apply invA_ret].
Qed.

Lemma invA_decodeAudioData (env : DecodeEnv) (bytes : Bytes) :
  invA P (decodeAudioData v env bytes).
Proof.
  rewrite decodeAudioData_unfold.
  apply invA_bind; [apply (st_ensure P v HS) | intros _].
  apply invA_bind; [apply invA_await | intros decoded].
  apply invA_modify. apply (st_install P v HS).
Qed.

Lemma invF_failed (message : string) :
  invF P (fun s => set_hasAudio false (set_statusMessage (Some message) s)).
Proof.
  intros s H. apply (st_hasAudio P v HS). apply (st_message P v HS). exact H.
Qed.

Lemma invA_loadAudioFromFile (fileName : string) (fileBytes : Outcome Bytes)
    (env : DecodeEnv) :
  invA P (loadAudioFromFile v fileName fileBytes env).
Proof.
  unfold loadAudioFromFile.
  apply invA_bind; [apply invA_modify, (st_loading P v HS) | intros _].
  apply invA_bind; [apply invA_modify, (st_message P v HS) | intros _].
  apply invA_tryCatchFinally; [| apply invF_failed | apply (st_loading P v HS)].
  apply invA_bind; [apply invA_modify, (st_hasAudio P v HS) | intros _].
  apply invA_bind; [apply invA_await | intros buffer].
  apply invA_bind; [apply invA_decodeAudioData | intros _].
  apply invA_bind; [apply invA_modify, (st_audioName P v HS) | intros _].
  apply invA_modify, (st_message P v HS).
Qed.

Lemma invA_generateSpeechFromText (text voice : string) (fetched : Outcome Response)
    (env : DecodeEnv) :
  invA P (generateSpeechFromText v text voice fetched env).
Proof.
  unfold generateSpeechFromText. destruct (isBlank text); [apply invA_throw |].
  apply invA_bind; [apply invA_modify, (st_generating P v HS) | intros _].
  apply invA_bind; [apply invA_modify, (st_message P v HS) | intros _].
  apply invA_tryCatchFinally; [| apply invF_failed | apply (st_generating P v HS)].
  apply invA_bind; [apply invA_modify, (st_hasAudio P v HS) | intros _].
  apply invA_bind; [apply invA_await | intros response].
  apply invA_bind; [apply invA_if; [apply invA_ret | apply invA_throw] | intros _].
  apply invA_bind; [apply invA_await | intros arrayBuffer].
  apply invA_bind; [apply invA_decodeAudioData | intros _].
  apply invA_bind; [apply invA_modify, (st_audioName P v HS) | intros _].
  apply invA_modify, (st_message P v HS).
Qed.

Lemma invA_loadAudioFromVideo (fileName : string) (extracted : Outcome Bytes)
    (env : DecodeEnv) :
  invA P (loadAudioFromVideo v fileName extracted env).
Proof.
  unfold loadAudioFromVideo.
  apply invA_bind; [apply invA_modify, (st_processing P v HS) | intros _].
  apply invA_bind; [apply invA_modify, (st_message P v HS) | intros _].
  apply invA_tryCatchFinally; [| apply invF_failed | apply (st_processing P v HS)].
  apply invA_bind; [apply invA_modify, (st_hasAudio P v HS) | intros _].
  apply invA_bind; [apply invA_await | intros buffer].
  apply invA_bind; [apply invA_decodeAudioData | intros _].
  apply invA_bind; [apply invA_modify, (st_audioName P v HS) | intros _].
  apply invA_modify, (st_message P v HS).
Qed.

End Operations.

Section Sessions.
Context {M : JsMath}.
Variable P : Engine -> Prop.
Hypothesis HS : forall s, P s -> Stable P (volume s).
Hypothesis HE : StableEvents P.

Lemma invF_step (e : Event) : invF P (step e).
Proof.
  intros s H. pose proof (HS s H) as St. destruct e; cbn [step].
  - apply (se_loop P HE). exact H.
  - apply (invA_play P _ St). exact H.
  - apply (st_pause P _ St). exact H.
  - apply (st_onended P _ St). exact H.
  - apply (se_updateVolume P HE). exact H.
  - apply (se_setEmotionValue P HE). exact H.
  - apply (se_regenerateGestures P HE). exact H.
  - apply (invA_loadAudioFromFile P _ St). exact H.
  - apply (invA_generateSpeechFromText P _ St). exact H.
  - apply (invA_loadAudioFromVideo P _ St). exact H.
Qed.

Lemma invF_run (events : list Event) : invF P (run events).
Proof.
  induction events as [| e rest IH]; intros s H.
  - exact H.
  - change (run (e :: rest) s) with (run rest (step e s)).
    apply IH. apply invF_step. exact H.
Qed.

Lemma invA_exportVideo (playing : bool) (v : Q)
    (canvas : option HTMLCanvasElement) (format : ExportFormat) (env : ExportEnv) :
  Stable P v -> invA P (exportVideo playing v canvas format env).
Proof.
  intros St s H. unfold exportVideo.
  destruct canvas as [c |]; [| exact H].
  destruct (audioBufferRef s) as [buffer |]; [| exact H].
  revert s H.
  apply invA_bind; [apply invA_modify, (st_exporting P v St) | intros _].
  apply invA_bind; [apply invA_modify, (st_message P v St) | intros _].
  apply invA_bind; [apply invA_gets | intros previousOffset].
  apply invA_tryCatchFinally;
    [| apply (st_message P v St) | apply (st_exporting P v St)].
  apply invA_bind; [apply invA_modify, (st_pause P v St) | intros _].
  apply invA_bind; [apply (st_ensure P v St) | intros _].
  apply invA_bind; [apply invA_mayThrow | intros _].
  apply invA_bind; [apply invA_gets | intros audioStream].
  apply invA_bind; [apply invA_if; [apply invA_ret | apply invA_throw] | intros _].
  apply invA_bind; [apply invA_if; [apply invA_ret | apply invA_throw] | intros _].
  apply invA_bind; [apply invA_mayThrow | intros _].
  apply invA_bind; [apply (invA_schedulePlayback P v St) | intros playback].
  apply invA_bind.
  { destruct playback as [source |]; [| apply invA_ret].
    apply invA_bind; [apply invA_modify, invF_run | intros _].
    apply invA_modify, (st_onended P v St). }
  intros _.
  apply invA_bind; [apply invA_modify, invF_run | intros _].
  apply invA_bind; [apply invA_mayThrow | intros _].
  apply invA_bind;
    [destruct format; [apply invA_ret | apply invA_await] | intros finalBlob].
  apply invA_bind; [apply invA_modify, (st_message P v St) | intros _].
  apply invA_bind; [| intros _; apply invA_ret].
  apply invA_if.
  - apply invA_bind; [apply invA_modify, (st_offset P v St) | intros _].
    apply invA_bind; [apply (invA_schedulePlayback P v St) | intros; apply invA_ret].
  - apply invA_bind; [apply invA_modify, (st_offset P v St) | intros _].
    apply invA_modify, (st_paused P v St).
Qed.

Lemma invF_perform (a : Action) : invF P (perform a).
Proof.
  intros s H. destruct a as [e | canvas format env]; cbn [perform].
  - apply invF_step. exact H.
  - apply invA_exportVideo; [apply HS; exact H | exact H].
Qed.

Lemma invF_session (actions : list Action) : invF P (session actions).
Proof.
  induction actions as [| a rest IH]; intros s H.
  - exact H.
  - change (session (a :: rest) s) with (session rest (perform a s)).
    apply IH. apply invF_perform. exact H.
Qed.

End Sessions.


(** How the small transport steps change a state. *)
Lemma onended_shape (source : NodeId) (markPlaying : bool) (s : Engine) :
  onended source markPlaying s = s \/
  onended source markPlaying s
  = (if markPlaying
     then set_isPlaying false (set_pauseOffsetRef 0 (set_sourceNodeRef None s))
     else set_pauseOffsetRef 0 (set_sourceNodeRef None s)).
Proof.
  unfold onended.
  destruct (negb (ignoreEndRef s) && option_nat_eqb (sourceNodeRef s) (Some source));
    [right | left]; reflexivity.
Qed.

Lemma stopCurrentSource_shape (s : Engine) :
  stopCurrentSource s = s \/
  exists n, sourceNodeRef s = Some n /\
            stopCurrentSource s
            = set_sourceNodeRef None
                (set_connections (disconnect (NSource n) (connections s)) s).
Proof.
  unfold stopCurrentSource. destruct (sourceNodeRef s) as [n |] eqn:E.
  - right. exists n. split; reflexivity.
  - left. reflexivity.
Qed.

Lemma pause_shape (playing : bool) (now : Q) (s : Engine) :
  pause playing now s = s \/
  pause playing now s
  = set_isPlaying false
      (stopCurrentSource
         (set_ignoreEndRef true
            (set_pauseOffsetRef (getCurrentOffset playing now s) s))).
Proof.
  unfold pause. destruct (audioBufferRef s); [| left; reflexivity].
  destruct (negb (audioContextRef s) || negb playing); [left | right]; reflexivity.
Qed.

(** ** The asset, its flag and its duration *)

Lemma asset_consistent_stable (v : Q) : Stable asset_consistent v.
Proof.
  constructor; try (intros; intros s H; exact H).
  - intros s [H1 H2]. split; [discriminate | exact H2].
  - intros decoded s _. unfold installBuffer, resetPlayback. cbn.
    destruct (stopCurrentSource_shape
                (set_startTimeRef 0
                   (set_pauseOffsetRef 0
                      (set_audioDuration (duration decoded)
                         (set_hasAudio true (set_audioBufferRef (Some decoded) s))))))
      as [-> | (n & _ & ->)]; split; cbn; try discriminate;
      intros buffer Hb; inversion Hb; reflexivity.
  - intros backend s H. break_engine s.
    destruct backend, f_audioContextRef, f_gainRef, f_destinationRef, f_analyserRef;
      exact H.
  - intros now startOffset markPlaying s _ _ H. unfold startSegment.
    destruct (stopCurrentSource_shape s) as [-> | (n & _ & ->)];
      destruct markPlaying; exact H.
  - intros playing now s H.
    destruct (pause_shape playing now s) as [-> | ->]; [exact H |].
    destruct (stopCurrentSource_shape
                (set_ignoreEndRef true
                   (set_pauseOffsetRef (getCurrentOffset playing now s) s)))
      as [-> | (n & _ & ->)]; exact H.
  - intros source markPlaying s H.
    destruct (onended_shape source markPlaying s) as [-> | ->]; [exact H |].
    destruct markPlaying; exact H.
Qed.

Lemma asset_consistent_events `{M : JsMath} : StableEvents asset_consistent.
Proof.
  constructor.
  - intros now t render s H. unfold loop.
    destruct (analyserRef s); [| exact H].
    destruct (audioBufferRef s) eqn:Hb; [| exact H].
    destruct (headRotation s) as [[x y] z]. destruct (eyeDirection s) as [ex ey].
    destruct H as [H1 H2]. split; cbn; rewrite ?Hb in *; assumption.
  - intros value s H. unfold updateVolume. cbn. destruct (gainRef s); exact H.
  - intros key value s H. exact H.
  - intros random s H. exact H.
Qed.

Lemma session_asset_consistent `{M : JsMath} (actions : list Action) (seed : Q) :
  asset_consistent (session actions (initialEngine seed)).
Proof.
  apply invF_session.
  - intros s _. apply asset_consistent_stable.
  - apply asset_consistent_events.
  - split; [discriminate | intros buffer Hb; discriminate].
Qed.


(** ** Ranges of the animation state *)

(** Reading a field of an updated state. *)
Ltac peel :=
  cbn [emotions gestureSeed isPlaying isLoadingAudio isGeneratingSpeech
       isProcessingVideo isExporting playbackProgress audioDuration audioName
       statusMessage volume hasAudio mouthOpen blink headRotation eyeDirection
       handWave energy audioBufferRef audioContextRef analyserRef gainRef
       destinationRef sourceNodeRef startTimeRef pauseOffsetRef ignoreEndRef
       peakEnergyRef connections nodesCreated
       set_emotions set_gestureSeed set_isPlaying set_isLoadingAudio
       set_isGeneratingSpeech set_isProcessingVideo set_isExporting
       set_playbackProgress set_audioDuration set_audioName set_statusMessage
       set_volume set_hasAudio set_mouthOpen set_blink set_headRotation
       set_eyeDirection set_handWave set_energy set_audioBufferRef
       set_audioContextRef set_analyserRef set_gainRef set_destinationRef
       set_sourceNodeRef set_startTimeRef set_pauseOffsetRef set_ignoreEndRef
       set_peakEnergyRef set_connections set_nodesCreated fst snd] in *.

Lemma smoothStep_range (value smoothing : Q) :
  0 <= smoothing -> smoothing <= 1 -> unit_range (smoothStep value smoothing).
Proof.
  intros Hs0 Hs1. unfold unit_range, smoothStep.
  destruct (Qlt_le_dec value 0) as [Hneg | H0]; [split; lra |].
  destruct (Qlt_le_dec 1 value) as [Hbig | H1]; [split; lra |].
  assert (Hsq : 0 <= value * value) by (apply Qmult_le_0_compat; assumption).
  assert (Hc0 : 0 <= value * value * (3 - 2 * value))
    by (apply Qmult_le_0_compat; [exact Hsq | lra]).
  assert (Hc1 : value * value * (3 - 2 * value) <= 1).
  { assert (Hd : 0 <= (1 - value) * (1 - value) * (1 + 2 * value)).
    { apply Qmult_le_0_compat; [apply Qmult_le_0_compat; lra | lra]. }
    assert (Hr : (1 - value) * (1 - value) * (1 + 2 * value)
                 == 1 - value * value * (3 - 2 * value)) by ring.
    rewrite Hr in Hd. lra. }
  set (cubic := value * value * (3 - 2 * value)) in *.
  split; nra.
Qed.

Lemma mix_unit_range (prev target a b : Q) :
  unit_range prev -> unit_range target -> 0 <= a -> 0 <= b -> a + b == 1 ->
  unit_range (prev * a + target * b).
Proof. unfold unit_range. intros [? ?] [? ?] Ha Hb Hab. split; nra. Qed.

Lemma mix_within (bound prev target a b : Q) :
  within bound prev -> within bound target -> 0 <= a -> 0 <= b -> a + b == 1 ->
  within bound (prev * a + target * b).
Proof. unfold within. intros [? ?] [? ?] Ha Hb Hab. split; nra. Qed.

Lemma scaled_within (sine amplitude gain bound : Q) :
  -1 <= sine -> sine <= 1 -> 0 <= amplitude -> 0 <= gain ->
  amplitude * gain <= bound ->
  within bound (sine * amplitude * gain).
Proof.
  unfold within. intros H1 H2 Ha Hg Hb.
  assert (0 <= amplitude * gain) by nra.
  assert (Hm : sine * amplitude * gain == sine * (amplitude * gain)) by ring.
  rewrite Hm. split; nra.
Qed.

Lemma within_zero (bound : Q) : 0 <= bound -> within bound 0.
Proof. unfold within. intros H. split; lra. Qed.

Lemma unit_range_zero : unit_range 0.
Proof. unfold unit_range. split; lra. Qed.

Lemma setEmotionKey_valid (key : EmotionKey) (value : Q) (e : EmotionState) :
  valid_emotion e -> valid_emotion (setEmotionKey key (clamp01 value) e).
Proof.
  intros (H1 & H2 & H3 & H4 & H5). pose proof (clamp01_range value) as Hc.
  destruct key; unfold valid_emotion; cbn; repeat split;
    first [apply Hc | apply H1 | apply H2 | apply H3 | apply H4 | apply H5].
Qed.

Lemma loop_motion_in_range `{T : JsSinSpec} (now t : Q) (render : NodeId -> list Q) :
  invF motion_in_range (loop now t render).
Proof.
  intros s H. unfold loop.
  destruct (analyserRef s); [| exact H].
  destruct (audioBufferRef s) as [buffer |]; [| exact H].
  destruct (headRotation s) as [[x y] z] eqn:Hhead.
  destruct (eyeDirection s) as [ex ey] eqn:Heye.
  destruct H as (Hemo & Hmouth & Hen & Hblink & Hprog & Hh & He & Hw).
  rewrite Hhead in Hh. rewrite Heye in He. cbn [fst snd] in Hh, He.
  destruct Hh as (Hx & Hy & Hz). destruct He as (Hex & Hey).
  pose proof Hemo as (Hhappy & _ & _ & Hsur & Hneu).
  set (rms := rmsOf (getFloatTimeDomainData render s)).
  set (normalized := normalizeEnergy (trackPeak (peakEnergyRef s) rms) rms).
  pose proof (clamp01_range normalized) as [Hn0 Hn1].
  set (newEnergy := clamp01 normalized) in *.
  unfold motion_in_range. peel.
  split; [exact Hemo |].
  split.
  { apply mix_unit_range; try lra; [exact Hmouth |].
    apply smoothStep_range; lra. }
  split.
  { apply mix_unit_range; try lra; [exact Hen | split; assumption]. }
  split.
  { match goal with
    | |- context [Math_sin ?a] => destruct (Math_sin_range a) as [S0 S1];
                                   set (sine := Math_sin a) in *
    end.
    assert (Hbv : (sine + 1) / 2 == (sine + 1) * (1 # 2)) by (field).
    destruct (Qlt_le_dec (85 # 100) ((sine + 1) / 2)) as [Hgt | Hle].
    - rewrite Hbv in *. split; lra.
    - split; lra. }
  split.
  { destruct (Qlt_le_dec 0 (duration buffer)) as [Hd | Hd]; [| lra].
    match goal with
    | |- context [Qmin ?a ?b] => pose proof (Q.le_min_r a b) as Hmin;
                                  set (raw := Qmin a b) in *
    end.
    lra. }
  split; [split; [| split] |].
  - apply mix_within; try lra; [exact Hx |].
    match goal with
    | |- context [Math_sin ?a] => destruct (Math_sin_range a) as [S0 S1]
    end.
    apply scaled_within; lra.
  - apply mix_within; try lra; [exact Hy |].
    match goal with
    | |- context [Math_sin ?a] => destruct (Math_sin_range a) as [S0 S1]
    end.
    destruct Hhappy as [? ?]. apply scaled_within; lra.
  - apply mix_within; try lra; [exact Hz |].
    match goal with
    | |- context [Math_sin ?a] => destruct (Math_sin_range a) as [S0 S1]
    end.
    destruct Hsur as [? ?]. apply scaled_within; lra.
  - split; [split |].
    + apply mix_within; try lra; [exact Hex |].
      match goal with
      | |- context [Math_sin ?a] => destruct (Math_sin_range a) as [S0 S1]
      end.
      apply scaled_within; lra.
    + apply mix_within; try lra; [exact Hey |].
      match goal with
      | |- context [Math_sin ?a] => destruct (Math_sin_range a) as [S0 S1]
      end.
      destruct Hsur as [? ?]. apply scaled_within; lra.
    + apply mix_within; try lra; [exact Hw |].
      match goal with
      | |- context [Math_sin ?a] => destruct (Math_sin_range a) as [S0 S1];
                                     set (sine := Math_sin a) in *
      end.
      assert (Hone : sine * ((3 # 10) + newEnergy * (5 # 10))
                     == sine * 1 * ((3 # 10) + newEnergy * (5 # 10))) by ring.
      unfold within in *. rewrite Hone.
      apply scaled_within; lra.
Qed.


Lemma motion_in_range_idle (s : Engine) :
  valid_emotion (emotions s) ->
  motion_in_range
    (set_handWave 0
       (set_eyeDirection (0, 0)
          (set_headRotation (0, 0, 0)
             (set_blink 0
                (set_energy 0 (set_mouthOpen 0 (set_playbackProgress 0 s))))))).
Proof.
  intros He. unfold motion_in_range. peel.
  split; [exact He |].
  repeat split; try apply unit_range_zero; try (apply within_zero; lra); lra.
Qed.

Lemma motion_in_range_stable (v : Q) : Stable motion_in_range v.
Proof.
  constructor; try (intros; intros s H; exact H).
  - intros decoded s H. unfold installBuffer, resetPlayback.
    destruct H as (He & _).
    destruct (stopCurrentSource_shape
                (set_startTimeRef 0
                   (set_pauseOffsetRef 0
                      (set_audioDuration (duration decoded)
                         (set_hasAudio true (set_audioBufferRef (Some decoded) s))))))
      as [-> | (n & _ & ->)]; apply (motion_in_range_idle s He).
  - intros backend s H. break_engine s.
    destruct backend, f_audioContextRef, f_gainRef, f_destinationRef, f_analyserRef;
      exact H.
  - intros now startOffset markPlaying s _ _ H. unfold startSegment.
    destruct (stopCurrentSource_shape s) as [-> | (n & _ & ->)];
      destruct markPlaying; exact H.
  - intros playing now s H.
    destruct (pause_shape playing now s) as [-> | ->]; [exact H |].
    destruct (stopCurrentSource_shape
                (set_ignoreEndRef true
                   (set_pauseOffsetRef (getCurrentOffset playing now s) s)))
      as [-> | (n & _ & ->)]; exact H.
  - intros source markPlaying s H.
    destruct (onended_shape source markPlaying s) as [-> | ->]; [exact H |].
    destruct markPlaying; exact H.
Qed.

Lemma motion_in_range_events `{T : JsSinSpec} : StableEvents motion_in_range.
Proof.
  constructor.
  - apply loop_motion_in_range.
  - intros value s H. unfold updateVolume. cbn. destruct (gainRef s); exact H.
  - intros key value s H. destruct H as (He & Hrest).
    split; [| exact Hrest]. apply setEmotionKey_valid. exact He.
  - intros random s H. exact H.
Qed.

Lemma initial_motion_in_range (seed : Q) : motion_in_range (initialEngine seed).
Proof.
  unfold motion_in_range, valid_emotion, unit_range, within; cbn.
  repeat split; lra.
Qed.

Lemma session_motion_in_range `{T : JsSinSpec} (actions : list Action) (seed : Q) :
  motion_in_range (session actions (initialEngine seed)).
Proof.
  apply invF_session.
  - intros s _. apply motion_in_range_stable.
  - apply motion_in_range_events.
  - apply initial_motion_in_range.
Qed.

(** ** Volume and gain *)

Lemma ensureAudioContext_gain (v : Q) (backend : Backend) (s : Engine) :
  volume (fst (ensureAudioContext v backend s)) = volume s /\
  (gainRef (fst (ensureAudioContext v backend s)) = gainRef s \/
   gainRef (fst (ensureAudioContext v backend s)) = Some v).
Proof.
  break_engine s.
  destruct backend, f_audioContextRef, f_gainRef, f_destinationRef, f_analyserRef;
    split; first [reflexivity | left; reflexivity | right; reflexivity].
Qed.

Lemma volume_in_range_stable (v : Q) : unit_range v -> Stable volume_in_range v.
Proof.
  intros Hv. constructor; try (intros; intros s H; exact H).
  - intros decoded s H. unfold installBuffer, resetPlayback.
    destruct (stopCurrentSource_shape
                (set_startTimeRef 0
                   (set_pauseOffsetRef 0
                      (set_audioDuration (duration decoded)
                         (set_hasAudio true (set_audioBufferRef (Some decoded) s))))))
      as [-> | (n & _ & ->)]; exact H.
  - intros backend s [Hvol Hg].
    destruct (ensureAudioContext_gain v backend s) as (Hvol' & Hgain).
    split; [rewrite Hvol'; exact Hvol |].
    intros g Hsome. destruct Hgain as [Hsame | Hnew].
    + apply Hg. rewrite <- Hsame. exact Hsome.
    + rewrite Hnew in Hsome. inversion Hsome; subst. exact Hv.
  - intros now startOffset markPlaying s _ _ H. unfold startSegment.
    destruct (stopCurrentSource_shape s) as [-> | (n & _ & ->)];
      destruct markPlaying; exact H.
  - intros playing now s H.
    destruct (pause_shape playing now s) as [-> | ->]; [exact H |].
    destruct (stopCurrentSource_shape
                (set_ignoreEndRef true
                   (set_pauseOffsetRef (getCurrentOffset playing now s) s)))
      as [-> | (n & _ & ->)]; exact H.
  - intros source markPlaying s H.
    destruct (onended_shape source markPlaying s) as [-> | ->]; [exact H |].
    destruct markPlaying; exact H.
Qed.

Lemma volume_in_range_events `{M : JsMath} : StableEvents volume_in_range.
Proof.
  constructor.
  - intros now t render s H. unfold loop.
    destruct (analyserRef s); [| exact H].
    destruct (audioBufferRef s); [| exact H].
    destruct (headRotation s) as [[x y] z]. destruct (eyeDirection s) as [ex ey].
    exact H.
  - intros value s _. unfold updateVolume, volume_in_range. cbn.
    destruct (gainRef s) eqn:Hg; cbn; rewrite ?Hg.
    + split; [apply clamp01_range |].
      intros g H. inversion H. apply clamp01_range.
    + split; [apply clamp01_range | discriminate].
  - intros key value s H. exact H.
  - intros random s H. exact H.
Qed.

Lemma session_volume_in_range `{M : JsMath} (actions : list Action) (seed : Q) :
  volume_in_range (session actions (initialEngine seed)).
Proof.
  apply invF_session.
  - intros s [Hv _]. apply volume_in_range_stable. exact Hv.
  - apply volume_in_range_events.
  - split; [unfold unit_range; cbn; split; lra | discriminate].
Qed.


(** ** Shape of the audio graph *)

Lemma NoDup_connect (a b : GraphNode) (g : list Edge) :
  NoDup g -> NoDup (connect a b g).
Proof.
  intros H. unfold connect. destruct (existsb (Edge_eqb (a, b)) g) eqn:E; [exact H |].
  constructor; [| exact H]. intros Hin.
  assert (Hex : existsb (Edge_eqb (a, b)) g = true).
  { apply existsb_exists. exists (a, b). split; [exact Hin |].
    apply Edge_eqb_eq. reflexivity. }
  congruence.
Qed.

Lemma edges_shaped_connect_fixed (a b : GraphNode) (g : list Edge) (k : nat) :
  (a = NAnalyser /\ b = NGain) \/ (a = NGain /\ b = NSpeaker) \/
  (a = NGain /\ b = NCaptureSink) ->
  edges_shaped g k -> edges_shaped (connect a b g) k.
Proof.
  intros Hab [Hnd Hf]. split; [apply NoDup_connect; exact Hnd |].
  intros x y Hin. apply In_connect in Hin. destruct Hin as [Heq | Hin].
  - inversion Heq; subst. right. exact Hab.
  - apply Hf. exact Hin.
Qed.

Lemma edges_shaped_disconnect (a : GraphNode) (g : list Edge) (k : nat) :
  edges_shaped g k -> edges_shaped (disconnect a g) k.
Proof.
  intros [Hnd Hf]. split.
  - unfold disconnect. apply NoDup_filter. exact Hnd.
  - intros x y Hin. apply In_disconnect in Hin. apply Hf. apply Hin.
Qed.

Lemma edges_shaped_new_source (g : list Edge) (k : nat) :
  edges_shaped g k -> edges_shaped (connect (NSource k) NAnalyser g) (S k).
Proof.
  intros [Hnd Hf]. split; [apply NoDup_connect; exact Hnd |].
  intros x y Hin. apply In_connect in Hin. destruct Hin as [Heq | Hin].
  - inversion Heq; subst. left. exists k. repeat split. lia.
  - destruct (Hf x y Hin) as [(n & -> & -> & Hlt) | Hfixed].
    + left. exists n. repeat split. lia.
    + right. exact Hfixed.
Qed.

Lemma ensureAudioContext_graph (v : Q) (backend : Backend) (s : Engine) :
  nodesCreated (fst (ensureAudioContext v backend s)) = nodesCreated s /\
  (connections (fst (ensureAudioContext v backend s)) = connections s \/
   connections (fst (ensureAudioContext v backend s))
   = connect NGain NCaptureSink (connect NGain NSpeaker (connections s)) \/
   connections (fst (ensureAudioContext v backend s))
   = connect NGain NCaptureSink
       (connect NGain NSpeaker (connect NAnalyser NGain (connections s)))).
Proof.
  break_engine s.
  destruct backend, f_audioContextRef, f_gainRef, f_destinationRef, f_analyserRef;
    split; first [reflexivity | left; reflexivity | right; left; reflexivity
                 | right; right; reflexivity].
Qed.

Lemma stopCurrentSource_graph (s : Engine) :
  graph_shaped s -> graph_shaped (stopCurrentSource s).
Proof.
  intros H. destruct (stopCurrentSource_shape s) as [-> | (n & _ & ->)]; [exact H |].
  unfold graph_shaped in *. peel. apply edges_shaped_disconnect. exact H.
Qed.

Lemma resetPlayback_graph (s : Engine) :
  graph_shaped s -> graph_shaped (resetPlayback s).
Proof.
  intros H. unfold resetPlayback.
  pose proof (stopCurrentSource_graph (set_startTimeRef 0 (set_pauseOffsetRef 0 s)) H)
    as Hs.
  unfold graph_shaped in *. peel. exact Hs.
Qed.

Lemma pause_graph (playing : bool) (now : Q) (s : Engine) :
  graph_shaped s -> graph_shaped (pause playing now s).
Proof.
  intros H. destruct (pause_shape playing now s) as [-> | ->]; [exact H |].
  pose proof (stopCurrentSource_graph
                (set_ignoreEndRef true
                   (set_pauseOffsetRef (getCurrentOffset playing now s) s)) H) as Hs.
  unfold graph_shaped in *. peel. exact Hs.
Qed.

Lemma startSegment_graph (now startOffset : Q) (markPlaying : bool) (s : Engine) :
  graph_shaped s -> graph_shaped (fst (startSegment now startOffset markPlaying s)).
Proof.
  intros H. unfold startSegment.
  pose proof (stopCurrentSource_graph s H) as Hs.
  set (s1 := stopCurrentSource s) in *.
  unfold graph_shaped in *.
  destruct markPlaying; cbn [fst]; peel; apply edges_shaped_new_source; exact Hs.
Qed.

Lemma ensureAudioContext_keeps_graph (v : Q) (backend : Backend) (s : Engine) :
  graph_shaped s -> graph_shaped (fst (ensureAudioContext v backend s)).
Proof.
  intros H. unfold graph_shaped in *.
  destruct (ensureAudioContext_graph v backend s) as (-> & [-> | [-> | ->]]).
  - exact H.
  - repeat (apply edges_shaped_connect_fixed; [tauto |]). exact H.
  - repeat (apply edges_shaped_connect_fixed; [tauto |]). exact H.
Qed.

Lemma onended_graph (source : NodeId) (markPlaying : bool) (s : Engine) :
  graph_shaped s -> graph_shaped (onended source markPlaying s).
Proof.
  intros H. destruct (onended_shape source markPlaying s) as [-> | ->]; [exact H |].
  destruct markPlaying; exact H.
Qed.

Lemma graph_shaped_stable (v : Q) : Stable graph_shaped v.
Proof.
  constructor.
  - intros m s H. exact H.
  - intros b s H. exact H.
  - intros b s H. exact H.
  - intros b s H. exact H.
  - intros b s H. exact H.
  - intros s H. exact H.
  - intros n s H. exact H.
  - intros decoded s H. unfold installBuffer. apply resetPlayback_graph. exact H.
  - intros backend s H. apply ensureAudioContext_keeps_graph. exact H.
  - intros now startOffset markPlaying s _ _ H. apply startSegment_graph. exact H.
  - intros playing now s H. apply pause_graph. exact H.
  - intros source markPlaying s H. apply onended_graph. exact H.
  - intros offset s H. exact H.
  - intros s H. exact H.
Qed.

Lemma graph_shaped_events `{M : JsMath} : StableEvents graph_shaped.
Proof.
  constructor.
  - intros now t render s H. unfold loop.
    destruct (analyserRef s); [| exact H].
    destruct (audioBufferRef s); [| exact H].
    destruct (headRotation s) as [[x y] z]. destruct (eyeDirection s) as [ex ey].
    exact H.
  - intros value s H. unfold updateVolume. cbn. destruct (gainRef s); exact H.
  - intros key value s H. exact H.
  - intros random s H. exact H.
Qed.

Lemma session_graph_shaped `{M : JsMath} (actions : list Action) (seed : Q) :
  graph_shaped (session actions (initialEngine seed)).
Proof.
  apply invF_session.
  - intros s _. apply graph_shaped_stable.
  - apply graph_shaped_events.
  - split; [constructor | intros a b []].
Qed.

(** * Further properties of the engine *)

(** ** Easing of the mouth *)

Lemma smoothStep_inside (value smoothing : Q) :
  0 <= value -> value <= 1 ->
  smoothStep value smoothing
  == value * value * (3 - 2 * value) * smoothing + value * (1 - smoothing).
Proof.
  intros H0 H1. unfold smoothStep.
  destruct (Qlt_le_dec value 0) as [Hneg | _]; [lra |].
  destruct (Qlt_le_dec 1 value) as [Hbig | _]; [lra |]. reflexivity.
Qed.

Lemma smoothStep_below (value smoothing : Q) :
  value <= 0 -> smoothStep value smoothing == 0.
Proof.
  intros H. unfold smoothStep.
  destruct (Qlt_le_dec value 0) as [Hneg | H0]; [reflexivity |].
  destruct (Qlt_le_dec 1 value) as [Hbig | _]; [lra |].
  assert (Hz : value == 0) by lra. rewrite Hz. ring.
Qed.

Lemma smoothStep_above (value smoothing : Q) :
  1 <= value -> smoothStep value smoothing == 1.
Proof.
  intros H. unfold smoothStep.
  destruct (Qlt_le_dec value 0) as [Hneg | H0]; [lra |].
  destruct (Qlt_le_dec 1 value) as [Hbig | H1]; [reflexivity |].
  assert (Hz : value == 1) by lra. rewrite Hz. ring.
Qed.

Lemma smoothStep_increasing_inside (smoothing v w : Q) :
  0 <= smoothing -> smoothing <= 1 -> 0 <= v -> v <= w -> w <= 1 ->
  v * v * (3 - 2 * v) * smoothing + v * (1 - smoothing)
  <= w * w * (3 - 2 * w) * smoothing + w * (1 - smoothing).
Proof.
  intros Hs0 Hs1 Hv Hvw Hw.
  assert (Hk : 0 <= w * (1 - v) + v * (1 - w) + 2 * (w * (1 - w)) + 2 * (v * (1 - v))).
  { assert (0 <= w * (1 - v)) by (apply Qmult_le_0_compat; lra).
    assert (0 <= v * (1 - w)) by (apply Qmult_le_0_compat; lra).
    assert (0 <= w * (1 - w)) by (apply Qmult_le_0_compat; lra).
    assert (0 <= v * (1 - v)) by (apply Qmult_le_0_compat; lra).
    lra. }
  set (K := w * (1 - v) + v * (1 - w) + 2 * (w * (1 - w)) + 2 * (v * (1 - v))) in *.
  assert (Hb : 0 <= (w - v) * (smoothing * K + (1 - smoothing))).
  { apply Qmult_le_0_compat; [lra |].
    assert (0 <= smoothing * K) by (apply Qmult_le_0_compat; assumption). lra. }
  assert (Hr : (w - v) * (smoothing * K + (1 - smoothing))
               == (w * w * (3 - 2 * w) * smoothing + w * (1 - smoothing))
                  - (v * v * (3 - 2 * v) * smoothing + v * (1 - smoothing)))
    by (unfold K; ring).
  rewrite Hr in Hb. lra.
Qed.

(** X1: [smoothStep] with a smoothing weight in [0,1] maps every input
    into [0,1], is 0 for inputs up to 0 and 1 for inputs from 1 on, and
    never decreases when its input grows. *)
Theorem smoothStep_monotone_in_unit_range (smoothing v w : Q) :
  0 <= smoothing -> smoothing <= 1 -> v <= w ->
  unit_range (smoothStep v smoothing) /\
  smoothStep v smoothing <= smoothStep w smoothing /\
  (v <= 0 -> smoothStep v smoothing == 0) /\
  (1 <= v -> smoothStep v smoothing == 1).
Proof.
  intros Hs0 Hs1 Hvw.
  split; [apply smoothStep_range; assumption |].
  split; [| split; [apply smoothStep_below | apply smoothStep_above]].
  destruct (Qlt_le_dec v 0) as [Hneg | Hv].
  - rewrite (smoothStep_below v smoothing) by lra.
    apply (smoothStep_range w smoothing Hs0 Hs1).
  - destruct (Qlt_le_dec 1 w) as [Hbig | Hw].
    + rewrite (smoothStep_above w smoothing) by lra.
      apply (smoothStep_range v smoothing Hs0 Hs1).
    + rewrite (smoothStep_inside v smoothing) by lra.
      rewrite (smoothStep_inside w smoothing) by lra.
      apply smoothStep_increasing_inside; assumption.
Qed.

Lemma smoothStep_monotone_in_unit_range_witness :
  unit_range (smoothStep (9 # 10) (4 # 10)) /\
  smoothStep (9 # 10) (4 # 10) <= smoothStep (18 # 10) (4 # 10) /\
  (9 # 10 <= 0 -> smoothStep (9 # 10) (4 # 10) == 0) /\
  (1 <= 9 # 10 -> smoothStep (9 # 10) (4 # 10) == 1).
Proof.
  apply (smoothStep_monotone_in_unit_range (4 # 10) (9 # 10) (18 # 10)); lra.
Defined.

(** ** Emotion sliders *)

(** X2: [setEmotionValue] stores the clamped value under its key, leaves
    the four other emotions and every other part of the state as they
    were, and keeps a valid emotion vector valid. *)
Theorem setEmotionValue_sets_one_clamped_key (key : EmotionKey) (value : Q) (s : Engine) :
  emotionOf key (emotions (setEmotionValue key value s)) = clamp01 value /\
  unit_range (emotionOf key (emotions (setEmotionValue key value s))) /\
  (forall other, other <> key ->
     emotionOf other (emotions (setEmotionValue key value s))
     = emotionOf other (emotions s)) /\
  set_emotions (emotions s) (setEmotionValue key value s) = s /\
  (valid_emotion (emotions s) ->
   valid_emotion (emotions (setEmotionValue key value s))).
Proof.
  assert (Hkey : emotionOf key (emotions (setEmotionValue key value s)) = clamp01 value).
  { destruct key; reflexivity. }
  split; [exact Hkey |].
  split; [rewrite Hkey; apply clamp01_range |].
  split; [| split].
  - intros other Hother. destruct key, other; try reflexivity; contradiction.
  - break_engine s. destruct f_emotions. reflexivity.
  - intros Hvalid. apply setEmotionKey_valid. exact Hvalid.
Qed.

(** ** What holds in every state a session reaches *)

(** X3: in every state reached from the first render, [hasAudio] is only
    set while a decoded buffer is stored, and [audioDuration] is the
    duration of the stored buffer. *)
Theorem hasAudio_means_a_buffer_is_loaded `{M : JsMath} (actions : list Action)
    (seed : Q) :
  let s := session actions (initialEngine seed) in
  (hasAudio s = true -> exists buffer, audioBufferRef s = Some buffer) /\
  (forall buffer, audioBufferRef s = Some buffer ->
                  audioDuration s = duration buffer).
Proof.
  intros s. destruct (session_asset_consistent actions seed) as [H1 H2].
  fold s in H1, H2. split; [| exact H2].
  intros Hh. destruct (audioBufferRef s) as [buffer |] eqn:Hb.
  - exists buffer. reflexivity.
  - exfalso. apply (H1 Hh). reflexivity.
Qed.

Lemma installBuffer_buffer (decoded : AudioBuffer) (s : Engine) :
  audioBufferRef (installBuffer decoded s) = Some decoded.
Proof.
  unfold installBuffer.
  destruct (resetPlayback_frame
              (set_audioDuration (duration decoded)
                 (set_hasAudio true (set_audioBufferRef (Some decoded) s))))
    as [Hb _].
  rewrite Hb. reflexivity.
Qed.

(** A state change that leaves the dormant fields alone or resets them. *)
Ltac dormant_kept H :=
  let Hb := fresh "Hb" in
  intros Hb; peel;
  destruct (H Hb) as (? & ? & ? & ? & ? & ? & ? & ? & ? & ? & ? & ?);
  repeat split; first [reflexivity | assumption].

Lemma dormant_stable (v : Q) : Stable dormant v.
Proof.
  constructor; try (intros; intros s H; exact H).
  - intros s H. dormant_kept H.
  - intros decoded s _ Hb. rewrite installBuffer_buffer in Hb. discriminate.
  - intros backend s H. break_engine s.
    destruct backend, f_audioContextRef, f_gainRef, f_destinationRef, f_analyserRef;
      exact H.
  - intros now startOffset markPlaying s Hb _ _ Hn. exfalso. apply Hb.
    unfold startSegment in Hn.
    destruct (stopCurrentSource_shape s) as [E | (n & _ & E)]; rewrite E in Hn;
      destruct markPlaying; exact Hn.
  - intros playing now s H.
    destruct (pause_shape playing now s) as [-> | ->]; [exact H |].
    destruct (stopCurrentSource_shape
                (set_ignoreEndRef true
                   (set_pauseOffsetRef (getCurrentOffset playing now s) s)))
      as [-> | (n & _ & ->)]; dormant_kept H.
  - intros source markPlaying s H.
    destruct (onended_shape source markPlaying s) as [-> | ->]; [exact H |].
    destruct markPlaying; dormant_kept H.
  - intros s H. dormant_kept H.
Qed.

Lemma dormant_events `{M : JsMath} : StableEvents dormant.
Proof.
  constructor.
  - intros now t render s H. unfold loop.
    destruct (analyserRef s); [| exact H].
    destruct (audioBufferRef s) eqn:Hb; [| exact H].
    destruct (headRotation s) as [[x y] z]. destruct (eyeDirection s) as [ex ey].
    intros Hn. peel. rewrite Hb in Hn. discriminate.
  - intros value s H. unfold updateVolume. cbn. destruct (gainRef s); exact H.
  - intros key value s H. exact H.
  - intros random s H. exact H.
Qed.

Lemma session_dormant `{M : JsMath} (actions : list Action) (seed : Q) :
  dormant (session actions (initialEngine seed)).
Proof.
  apply invF_session.
  - intros s _. apply dormant_stable.
  - apply dormant_events.
  - intros _. repeat split; reflexivity.
Qed.

(** X4: until a load has succeeded nothing plays and nothing moves: while
    no buffer is stored, the transport is paused without a source node,
    duration and progress are 0, and the animation snapshot is at rest,
    whatever has been called in between. *)
Theorem dormant_until_first_load `{M : JsMath} (actions : list Action) (seed : Q) :
  let s := session actions (initialEngine seed) in
  audioBufferRef s = None ->
  isPlaying s = false /\ sourceNodeRef s = None /\ hasAudio s = false /\
  audioDuration s = 0 /\ playbackProgress s = 0 /\
  anim_mouthOpen (animationState s) = 0 /\
  anim_blink (animationState s) = 0 /\
  anim_headRotation (animationState s) = (0, 0, 0) /\
  anim_eyeDirection (animationState s) = (0, 0) /\
  anim_handWave (animationState s) = 0 /\
  anim_intensity (animationState s) = 0 /\
  anim_energy (animationState s) = 0.
Proof.
  intros s Hb.
  destruct (session_dormant actions seed Hb)
    as (H1 & H2 & H3 & H4 & H5 & H6 & H7 & H8 & H9 & H10 & H11 & _).
  fold s in H1, H2, H3, H4, H5, H6, H7, H8, H9, H10, H11.
  unfold animationState.
  cbn [anim_mouthOpen anim_blink anim_headRotation anim_eyeDirection
       anim_handWave anim_intensity anim_energy].
  repeat split; assumption.
Qed.

Lemma dormant_until_first_load_witness :
  let s := session (M := approxMath)
             [ Do (Play BackendReady 0);
               Do (LoadAudioFromFile "notes.txt" (Resolved [104; 105]%nat)
                     demoDecodeFails);
               Do (Frame 1 (1 # 4) demoRender);
               ExportVideo (Some Canvas) Webm demoExport ]
             (initialEngine (1 # 3)) in
  isPlaying s = false /\ sourceNodeRef s = None /\ hasAudio s = false /\
  audioDuration s = 0 /\ playbackProgress s = 0 /\
  anim_mouthOpen (animationState s) = 0 /\
  anim_blink (animationState s) = 0 /\
  anim_headRotation (animationState s) = (0, 0, 0) /\
  anim_eyeDirection (animationState s) = (0, 0) /\
  anim_handWave (animationState s) = 0 /\
  anim_intensity (animationState s) = 0 /\
  anim_energy (animationState s) = 0.
Proof.
  apply (dormant_until_first_load (M := approxMath)).
  vm_compute. reflexivity.
Defined.

(** ** Ranges of the animation snapshot *)

Lemma boundedMath_sin_range : JsSinSpec boundedMath.
Proof.
  intros x. unfold Math_sin, boundedMath. split.
  - apply Q.le_max_l.
  - apply Q.max_lub; [lra | apply Q.le_min_l].
Qed.



(** ** Volume and gain *)

(** X6: in every state a session reaches the volume lies in [0,1], and so
    does the value of the gain node once it exists. *)
Theorem volume_and_gain_stay_in_unit_range `{M : JsMath} (actions : list Action)
    (seed : Q) :
  let s := session actions (initialEngine seed) in
  unit_range (volume s) /\ forall g, gainRef s = Some g -> unit_range g.
Proof. intros s. exact (session_volume_in_range actions seed). Qed.


Lemma loop_keeps_gain `{M : JsMath} (now t : Q) (render : NodeId -> list Q)
    (s : Engine) :
  volume (loop now t render s) = volume s /\
  gainRef (loop now t render s) = gainRef s /\
  peakEnergyRef (loop now t render s)
  = match analyserRef s, audioBufferRef s with
    | true, Some _ =>
        trackPeak (peakEnergyRef s) (rmsOf (getFloatTimeDomainData render s))
    | _, _ => peakEnergyRef s
    end.
Proof.
  unfold loop. destruct (analyserRef s); [| repeat split; reflexivity].
  destruct (audioBufferRef s); [| repeat split; reflexivity].
  destruct (headRotation s) as [[x y] z]. destruct (eyeDirection s) as [ex ey].
  repeat split; reflexivity.
Qed.






(** ** The peak tracker *)

Lemma peak_positive_stable (v : Q) : Stable peak_positive v.
Proof.
  constructor; try (intros; intros s H; exact H).
  - intros decoded s H. unfold installBuffer, resetPlayback.
    destruct (stopCurrentSource_shape
                (set_startTimeRef 0
                   (set_pauseOffsetRef 0
                      (set_audioDuration (duration decoded)
                         (set_hasAudio true (set_audioBufferRef (Some decoded) s))))))
      as [-> | (n & _ & ->)]; exact H.
  - intros backend s H. break_engine s.
    destruct backend, f_audioContextRef, f_gainRef, f_destinationRef, f_analyserRef;
      exact H.
  - intros now startOffset markPlaying s _ _ H. unfold startSegment.
    destruct (stopCurrentSource_shape s) as [-> | (n & _ & ->)];
      destruct markPlaying; exact H.
  - intros playing now s H.
    destruct (pause_shape playing now s) as [-> | ->]; [exact H |].
    destruct (stopCurrentSource_shape
                (set_ignoreEndRef true
                   (set_pauseOffsetRef (getCurrentOffset playing now s) s)))
      as [-> | (n & _ & ->)]; exact H.
  - intros source markPlaying s H.
    destruct (onended_shape source markPlaying s) as [-> | ->]; [exact H |].
    destruct markPlaying; exact H.
Qed.

Lemma trackPeak_positive (peak rms : Q) : 0 < peak -> 0 < trackPeak peak rms.
Proof.
  intros H. unfold trackPeak, decayFactor.
  pose proof (Q.le_max_l (peak * (995 # 1000)) rms) as Hm.
  set (m := Qmax (peak * (995 # 1000)) rms) in *. lra.
Qed.

Lemma peak_positive_events `{M : JsMath} : StableEvents peak_positive.
Proof.
  constructor.
  - intros now t render s H. unfold peak_positive.
    destruct (loop_keeps_gain now t render s) as (_ & _ & Ep). rewrite Ep.
    destruct (analyserRef s); [| exact H].
    destruct (audioBufferRef s); [| exact H].
    apply trackPeak_positive. exact H.
  - intros value s H. unfold updateVolume. cbn. destruct (gainRef s); exact H.
  - intros key value s H. exact H.
  - intros random s H. exact H.
Qed.

(** X8: the peak tracker holds a positive number in every state a session
    reaches, whatever the analyser delivers; so the updated peak of every
    frame is positive, the quotient rms / peak is what the normalisation
    returns, and its fallback 0 is never used. *)
Theorem peak_tracker_stays_positive `{M : JsMath} (actions : list Action) (seed : Q)
    (rms : Q) :
  let s := session actions (initialEngine seed) in
  0 < peakEnergyRef s /\
  0 < trackPeak (peakEnergyRef s) rms /\
  normalizeEnergy (trackPeak (peakEnergyRef s) rms) rms
  = rms / trackPeak (peakEnergyRef s) rms.
Proof.
  intros s.
  assert (H : peak_positive s).
  { apply invF_session.
    - intros s0 _. apply peak_positive_stable.
    - apply peak_positive_events.
    - unfold peak_positive. cbn. lra. }
  split; [exact H |].
  pose proof (trackPeak_positive (peakEnergyRef s) rms H) as Hp.
  split; [exact Hp |].
  unfold normalizeEnergy.
  destruct (Qlt_le_dec 0 (trackPeak (peakEnergyRef s) rms)) as [_ | Hle];
    [reflexivity | lra].
Qed.

(** ** The audio graph *)

(** X9: in every state a session reaches, the audio graph has no doubled
    connection, every connection is one of: a created source node into the
    analyser, the analyser into the gain node, the gain node into the
    speakers, the gain node into the capture sink; so the speakers and
    the recorder are fed by the gain node only, and the gain node by the
    analyser only. *)
Theorem audio_graph_keeps_its_shape `{M : JsMath} (actions : list Action) (seed : Q) :
  let s := session actions (initialEngine seed) in
  NoDup (connections s) /\
  (forall a b, In (a, b) (connections s) ->
     (exists n, a = NSource n /\ b = NAnalyser /\ (n < nodesCreated s)%nat) \/
     (a = NAnalyser /\ b = NGain) \/
     (a = NGain /\ b = NSpeaker) \/
     (a = NGain /\ b = NCaptureSink)) /\
  (forall a, In (a, NSpeaker) (connections s) -> a = NGain) /\
  (forall a, In (a, NCaptureSink) (connections s) -> a = NGain) /\
  (forall a, In (a, NGain) (connections s) -> a = NAnalyser).
Proof.
  intros s. destruct (session_graph_shaped actions seed) as [Hn He].
  fold s in Hn, He.
  split; [exact Hn |]. split; [exact He |].
  repeat split; intros a Ha;
    destruct (He _ _ Ha) as [(n & _ & Hb & _) | [[Ha' Hb] | [[Ha' Hb] | [Ha' Hb]]]];
    first [discriminate | assumption].
Qed.

(** ** Loading: what every call leaves behind *)

(** [stopCurrentSource] and [ensureAudioContext] written as assignments. *)
Lemma stopCurrentSource_eq (s : Engine) :
  stopCurrentSource s
  = set_sourceNodeRef None
      (set_connections
         (match sourceNodeRef s with
          | Some n => disconnect (NSource n) (connections s)
          | None => connections s
          end) s).
Proof. break_engine s. destruct f_sourceNodeRef; reflexivity. Qed.

Lemma ensureAudioContext_assigns (v : Q) (backend : Backend) (s : Engine) :
  exists context analyser gain destination edges,
    fst (ensureAudioContext v backend s)
    = set_connections edges
        (set_destinationRef destination
           (set_gainRef gain
              (set_analyserRef analyser (set_audioContextRef context s)))) /\
    (forall a b, In (a, b) (connections s) -> In (a, b) edges).
Proof.
  break_engine s.
  destruct backend, f_audioContextRef, f_gainRef, f_destinationRef, f_analyserRef;
    lazy -[connect]; do 5 eexists; (split; [reflexivity |]);
    intros a b Hin; repeat (apply In_connect; right); exact Hin.
Qed.

Lemma installBuffer_eq (decoded : AudioBuffer) (s : Engine) :
  installBuffer decoded s
  = set_handWave 0
      (set_eyeDirection (0, 0)
         (set_headRotation (0, 0, 0)
            (set_blink 0
               (set_energy 0
                  (set_mouthOpen 0
                     (set_playbackProgress 0
                        (set_isPlaying false
                           (set_sourceNodeRef None
                              (set_connections
                                 (match sourceNodeRef s with
                                  | Some n => disconnect (NSource n) (connections s)
                                  | None => connections s
                                  end)
                                 (set_startTimeRef 0
                                    (set_pauseOffsetRef 0
                                       (set_audioDuration (duration decoded)
                                          (set_hasAudio true
                                             (set_audioBufferRef (Some decoded)
                                                s)))))))))))))).
Proof.
  unfold installBuffer, resetPlayback. rewrite stopCurrentSource_eq. reflexivity.
Qed.

(** The common part of the three loaders, from the state in which the
    flag is raised and the first message shown. *)
Lemma load_pattern_shape (volume : Q) (env : DecodeEnv) (bytes : Outcome Bytes)
    (named told : Engine -> Engine) (failed : string)
    (final : Engine -> Engine) (s : Engine) :
  let s0 := set_hasAudio false s in
  let m := tryCatchFinally
             (modify (set_hasAudio false) ;;
              buffer <- await bytes ;;
              decodeAudioData volume env buffer ;;
              modify named ;;
              modify told)%async
             (fun s1 => set_hasAudio false (set_statusMessage (Some failed) s1))
             final in
  (exists buffer decoded s1,
     bytes = Resolved buffer /\
     ensureAudioContext volume (dec_backend env) s0 = (s1, Resolved tt) /\
     dec_decoded env = Resolved decoded /\
     m s = (final (told (named (installBuffer decoded s1))), Resolved tt)) \/
  (exists e s1,
     (bytes = Rejected e /\ s1 = s0 \/
      (exists buffer, bytes = Resolved buffer) /\
      (ensureAudioContext volume (dec_backend env) s0 = (s1, Rejected e) \/
       ensureAudioContext volume (dec_backend env) s0 = (s1, Resolved tt) /\
       dec_decoded env = Rejected e)) /\
     m s = (final (set_hasAudio false (set_statusMessage (Some failed) s1)),
            Rejected e)).
Proof.
  intros s0 m. unfold m, s0, tryCatchFinally, bind, modify, await.
  destruct bytes as [buffer | e].
  - rewrite decodeAudioData_unfold. unfold bind, await, modify.
    destruct (ensureAudioContext volume (dec_backend env) (set_hasAudio false s))
      as [s1 [[] | e]] eqn:E.
    + destruct (dec_decoded env) as [decoded | e] eqn:D.
      * left. exists buffer, decoded, s1. repeat split; reflexivity.
      * right. exists e, s1. split; [| reflexivity].
        right. split; [exists buffer; reflexivity |]. right. split; reflexivity.
    + right. exists e, s1. split; [| reflexivity].
      right. split; [exists buffer; reflexivity |]. left. reflexivity.
  - right. exists e, (set_hasAudio false s). split; [| reflexivity].
    left. split; reflexivity.
Qed.

Lemma load_as_pattern (volume : Q) (request : LoadRequest) (env : DecodeEnv)
    (s : Engine) :
  refused request = false ->
  load volume request env s
  = tryCatchFinally
      (modify (set_hasAudio false) ;;
       buffer <- await (bytesOf request) ;;
       decodeAudioData volume env buffer ;;
       modify (set_audioName (Some (loadedName request))) ;;
       modify (set_statusMessage (Some (successMessage request))))%async
      (fun s0 => set_hasAudio false
                   (set_statusMessage (Some (failureMessage request)) s0))
      (setBusyFlag request false)
      (set_statusMessage (Some (startMessage request))
         (setBusyFlag request true s)).
Proof.
  intros Hr.
  destruct request as [fileName fileBytes | text voice fetched | fileName extracted];
    cbn [load refused bytesOf loadedName successMessage failureMessage
         setBusyFlag startMessage] in *.
  - reflexivity.
  - unfold generateSpeechFromText. rewrite Hr.
    unfold bind at 1 2. unfold modify at 1 2.
    unfold tryCatchFinally, bind, modify, await, ret, throw.
    destruct fetched as [[okay bytes] | e]; [| reflexivity].
    cbn. destruct okay; reflexivity.
  - reflexivity.
Qed.

(** What a loader that was not refused ends in. *)
Lemma load_shape (volume : Q) (request : LoadRequest) (env : DecodeEnv) (s : Engine) :
  refused request = false ->
  let s0 := set_hasAudio false
              (set_statusMessage (Some (startMessage request))
                 (setBusyFlag request true s)) in
  (exists buffer decoded s1,
     bytesOf request = Resolved buffer /\
     ensureAudioContext volume (dec_backend env) s0 = (s1, Resolved tt) /\
     dec_decoded env = Resolved decoded /\
     load volume request env s
     = (setBusyFlag request false
          (set_statusMessage (Some (successMessage request))
             (set_audioName (Some (loadedName request))
                (installBuffer decoded s1))),
        Resolved tt)) \/
  (exists e s1,
     (bytesOf request = Rejected e /\ s1 = s0 \/
      (exists buffer, bytesOf request = Resolved buffer) /\
      (ensureAudioContext volume (dec_backend env) s0 = (s1, Rejected e) \/
       ensureAudioContext volume (dec_backend env) s0 = (s1, Resolved tt) /\
       dec_decoded env = Rejected e)) /\
     load volume request env s
     = (setBusyFlag request false
          (set_hasAudio false
             (set_statusMessage (Some (failureMessage request)) s1)),
        Rejected e)).
Proof.
  intros Hr s0. rewrite (load_as_pattern volume request env s Hr).
  exact (load_pattern_shape volume env (bytesOf request)
           (set_audioName (Some (loadedName request)))
           (set_statusMessage (Some (successMessage request)))
           (failureMessage request) (setBusyFlag request false)
           (set_statusMessage (Some (startMessage request))
              (setBusyFlag request true s))).
Qed.

Lemma ensureAudioContext_outcome (v : Q) (backend : Backend) (s : Engine) :
  snd (ensureAudioContext v backend s)
  = match backend with
    | BackendReady => Resolved tt
    | BackendNoWindow => Rejected "Audio context not available on the server."
    | BackendConstructFails e => if audioContextRef s then Resolved tt else Rejected e
    | BackendResumeRejects e => Rejected e
    end.
Proof.
  unfold ensureAudioContext.
  destruct backend; try reflexivity; destruct (audioContextRef s); reflexivity.
Qed.

(** What a loader that was not refused ends in, with the step that made
    it reject. *)
Lemma load_settles (volume : Q) (request : LoadRequest) (env : DecodeEnv) (s : Engine) :
  refused request = false ->
  exists context analyser gain destination edges,
    (forall a b, In (a, b) (connections s) -> In (a, b) edges) /\
    ((exists buffer decoded,
        bytesOf request = Resolved buffer /\
        snd (ensureAudioContext volume (dec_backend env) s) = Resolved tt /\
        dec_decoded env = Resolved decoded /\
        load volume request env s
        = (setBusyFlag request false
             (set_statusMessage (Some (successMessage request))
                (set_audioName (Some (loadedName request))
                   (installBuffer decoded
                      (withContext context analyser gain destination edges
                         (loadEntry request s))))),
           Resolved tt)) \/
     (exists e,
        (bytesOf request = Rejected e \/
         (exists buffer, bytesOf request = Resolved buffer) /\
         (snd (ensureAudioContext volume (dec_backend env) s) = Rejected e \/
          snd (ensureAudioContext volume (dec_backend env) s) = Resolved tt /\
          dec_decoded env = Rejected e)) /\
        load volume request env s
        = (setBusyFlag request false
             (set_hasAudio false
                (set_statusMessage (Some (failureMessage request))
                   (withContext context analyser gain destination edges
                      (loadEntry request s)))),
           Rejected e))).
Proof.
  intros Hr.
  assert (Hout : snd (ensureAudioContext volume (dec_backend env) (loadEntry request s))
                 = snd (ensureAudioContext volume (dec_backend env) s)).
  { rewrite !ensureAudioContext_outcome.
    assert (Hc : audioContextRef (loadEntry request s) = audioContextRef s)
      by (destruct request; reflexivity).
    rewrite Hc. reflexivity. }
  destruct (ensureAudioContext_assigns volume (dec_backend env) (loadEntry request s))
    as (c & a & g & d & edges & Eq & Hin).
  assert (Hin' : forall x y, In (x, y) (connections s) -> In (x, y) edges).
  { intros x y H. apply Hin. destruct request; exact H. }
  destruct (load_shape volume request env s Hr)
    as [(buffer & decoded & s1 & Hb & E & D & R) | (e & s1 & Hs1 & R)];
    fold (loadEntry request s) in *.
  - exists c, a, g, d, edges. split; [exact Hin' |]. left.
    exists buffer, decoded. rewrite E in Eq, Hout. cbn [fst snd] in Eq, Hout.
    subst s1. repeat split; try assumption. symmetry. exact Hout.
  - destruct Hs1 as [[Hb ->] | [Hb [E | [E D]]]].
    + exists (audioContextRef s), (analyserRef s), (gainRef s),
        (destinationRef s), (connections s).
      split; [intros x y H; exact H |]. right. exists e.
      split; [left; exact Hb |]. rewrite R. f_equal. f_equal. f_equal. f_equal.
      break_engine s. destruct request; reflexivity.
    + exists c, a, g, d, edges. split; [exact Hin' |]. right. exists e.
      rewrite E in Eq, Hout. cbn [fst snd] in Eq, Hout. subst s1.
      split; [| exact R]. right. split; [exact Hb |]. left. symmetry. exact Hout.
    + exists c, a, g, d, edges. split; [exact Hin' |]. right. exists e.
      rewrite E in Eq, Hout. cbn [fst snd] in Eq, Hout. subst s1.
      split; [| exact R]. right. split; [exact Hb |]. right.
      split; [symmetry; exact Hout | exact D].
Qed.


(** X11: a loader call that resolves has stored the decoded buffer with
    its duration, and has rewound the engine: the transport is paused at
    offset 0 without a source node, the node that was playing is no longer
    connected to anything, the progress is 0 and the animation state is at
    rest. *)
Theorem successful_load_installs_and_rewinds (volume : Q) (request : LoadRequest)
    (env : DecodeEnv) (s s' : Engine) :
  load volume request env s = (s', Resolved tt) ->
  exists decoded,
    dec_decoded env = Resolved decoded /\
    audioBufferRef s' = Some decoded /\ hasAudio s' = true /\
    audioDuration s' = duration decoded /\
    isPlaying s' = false /\ sourceNodeRef s' = None /\
    pauseOffsetRef s' = 0 /\ startTimeRef s' = 0 /\ playbackProgress s' = 0 /\
    mouthOpen s' = 0 /\ energy s' = 0 /\ blink s' = 0 /\
    headRotation s' = (0, 0, 0) /\ eyeDirection s' = (0, 0) /\ handWave s' = 0 /\
    (forall n b, sourceNodeRef s = Some n -> ~ In (NSource n, b) (connections s')) /\
    (forall now, getCurrentOffset false now s' = Qmin 0 (duration decoded)).
Proof.
  intros H.
  assert (Hr : refused request = false).
  { destruct (refused request) eqn:Hr; [| reflexivity].
    destruct request as [? ? | text voice fetched | ? ?]; try discriminate.
    cbn [load refused] in *.
    rewrite (generateSpeechFromText_blank volume text voice fetched env s Hr) in H.
    discriminate. }
  destruct (load_settles volume request env s Hr)
    as (c & a & g & d & edges & _ & [(buffer & decoded & _ & _ & D & R) | (e & _ & R)]);
    rewrite R in H; [| discriminate].
  assert (Hs : s' = fst (s', @Resolved unit tt)) by reflexivity.
  rewrite <- H in Hs. cbn [fst] in Hs. clear H R. subst s'.
  exists decoded. split; [exact D |].
  unfold withContext, loadEntry, getCurrentOffset. rewrite installBuffer_eq.
  destruct request; peel; repeat split; try reflexivity;
    intros n b Hn Hin; unfold setBusyFlag in Hin; peel; rewrite Hn in Hin;
    apply In_disconnect in Hin;
    destruct Hin as [_ Hne]; apply Hne; reflexivity.
Qed.

Lemma successful_load_installs_and_rewinds_witness :
  exists decoded,
    dec_decoded demoDecode = Resolved decoded /\
    audioBufferRef demoLoaded = Some decoded /\ hasAudio demoLoaded = true /\
    audioDuration demoLoaded = duration decoded /\
    isPlaying demoLoaded = false /\ sourceNodeRef demoLoaded = None /\
    pauseOffsetRef demoLoaded = 0 /\ startTimeRef demoLoaded = 0 /\
    playbackProgress demoLoaded = 0 /\
    mouthOpen demoLoaded = 0 /\ energy demoLoaded = 0 /\ blink demoLoaded = 0 /\
    headRotation demoLoaded = (0, 0, 0) /\ eyeDirection demoLoaded = (0, 0) /\
    handWave demoLoaded = 0 /\
    (forall n b, sourceNodeRef (initialEngine (1 # 3)) = Some n ->
                 ~ In (NSource n, b) (connections demoLoaded)) /\
    (forall now, getCurrentOffset false now demoLoaded = Qmin 0 (duration decoded)).
Proof.
  apply (successful_load_installs_and_rewinds 1
           (FromFile "voice.wav" (Resolved [82; 73; 70; 70]%nat)) demoDecode
           (initialEngine (1 # 3)) demoLoaded).
  vm_compute. reflexivity.
Defined.

(** X12: a loader call that rejects does not stop playback: the playing
    flag, the current source node, the playback clock and offset, the
    stored buffer with its duration and name, the volume, the progress and
    the animation state are as before the call, and every connection of
    the graph is still there. *)
Theorem failed_load_leaves_playback_running (v : Q) (request : LoadRequest)
    (env : DecodeEnv) (s s' : Engine) (e : string) :
  load v request env s = (s', Rejected e) ->
  isPlaying s' = isPlaying s /\ sourceNodeRef s' = sourceNodeRef s /\
  startTimeRef s' = startTimeRef s /\ pauseOffsetRef s' = pauseOffsetRef s /\
  ignoreEndRef s' = ignoreEndRef s /\ nodesCreated s' = nodesCreated s /\
  audioBufferRef s' = audioBufferRef s /\ audioDuration s' = audioDuration s /\
  audioName s' = audioName s /\ volume s' = volume s /\
  playbackProgress s' = playbackProgress s /\
  animationState s' = animationState s /\
  (forall a b, In (a, b) (connections s) -> In (a, b) (connections s')).
Proof.
  intros H.
  destruct (refused request) eqn:Hr.
  - destruct request as [? ? | text voice fetched | ? ?]; try discriminate.
    cbn [load refused] in *.
    rewrite (generateSpeechFromText_blank v text voice fetched env s Hr) in H.
    assert (Hs : s' = s) by (symmetry; exact (f_equal fst H)).
    subst s'. repeat split; try reflexivity. intros a b Hin. exact Hin.
  - destruct (load_settles v request env s Hr)
      as (c & a & g & d & edges & Hin
          & [(buffer & decoded & _ & _ & _ & R) | (e' & _ & R)]);
      rewrite R in H; [discriminate |].
    assert (Hs : s' = fst (s', @Rejected unit e)) by reflexivity.
    rewrite <- H in Hs. cbn [fst] in Hs. clear H R. subst s'.
    unfold withContext, loadEntry, animationState.
    destruct request; peel; repeat split; try reflexivity; exact Hin.
Qed.

Lemma failed_load_leaves_playback_running_witness :
  let s' := fst (load 1 (FromFile "notes.txt" (Resolved [104; 105]%nat))
                   demoDecodeFails demoRunning) in
  isPlaying s' = isPlaying demoRunning /\
  sourceNodeRef s' = sourceNodeRef demoRunning /\
  startTimeRef s' = startTimeRef demoRunning /\
  pauseOffsetRef s' = pauseOffsetRef demoRunning /\
  ignoreEndRef s' = ignoreEndRef demoRunning /\
  nodesCreated s' = nodesCreated demoRunning /\
  audioBufferRef s' = audioBufferRef demoRunning /\
  audioDuration s' = audioDuration demoRunning /\
  audioName s' = audioName demoRunning /\ volume s' = volume demoRunning /\
  playbackProgress s' = playbackProgress demoRunning /\
  animationState s' = animationState demoRunning /\
  (forall a b, In (a, b) (connections demoRunning) -> In (a, b) (connections s')).
Proof.
  apply (failed_load_leaves_playback_running 1
           (FromFile "notes.txt" (Resolved [104; 105]%nat)) demoDecodeFails
           demoRunning _ "EncodingError: Unable to decode audio data").
  vm_compute. reflexivity.
Defined.



(** ** Transport: rejections and the pause/play round trip *)

(** [schedulePlayback] written as assignments on top of the audio context. *)
Lemma startSegment_eq (now startOffset : Q) (markPlaying : bool) (s : Engine) :
  fst (startSegment now startOffset markPlaying s)
  = (if markPlaying then set_isPlaying true else fun s0 => s0)
      (set_pauseOffsetRef startOffset
         (set_startTimeRef (now - startOffset)
            (set_sourceNodeRef (Some (nodesCreated s))
               (set_connections
                  (connect (NSource (nodesCreated s)) NAnalyser
                     (match sourceNodeRef s with
                      | Some n => disconnect (NSource n) (connections s)
                      | None => connections s
                      end))
                  (set_nodesCreated (S (nodesCreated s))
                     (set_ignoreEndRef false
                        (set_sourceNodeRef None
                           (set_connections
                              (match sourceNodeRef s with
                               | Some n => disconnect (NSource n) (connections s)
                               | None => connections s
                               end) s)))))))).
Proof.
  unfold startSegment. rewrite stopCurrentSource_eq.
  destruct markPlaying; reflexivity.
Qed.

Lemma ensureAudioContext_rejected (v : Q) (backend : Backend) (s s' : Engine)
    (e : string) :
  ensureAudioContext v backend s = (s', Rejected e) ->
  s' = set_audioContextRef (audioContextRef s') s.
Proof.
  break_engine s.
  destruct backend, f_audioContextRef, f_gainRef, f_destinationRef, f_analyserRef;
    lazy -[connect]; intros H;
    first [ discriminate
          | assert (Hs : s' = fst (s', @Rejected unit e)) by reflexivity;
            rewrite <- H in Hs; rewrite Hs; reflexivity ].
Qed.

(** X14: [play()] resolves exactly when a buffer is loaded and the audio
    context is available.  Without a buffer it rejects with its own
    message and changes nothing; with a buffer and a failing context it
    rejects with the context's error, and the engine differs from the
    state before the call at most in that a context now exists: no node
    was created, stopped or connected. *)
Theorem play_rejects_without_touching_playback (playing : bool) (v : Q)
    (backend : Backend) (now : Q) (s : Engine) :
  (snd (play playing v backend now s) = Resolved tt <->
   audioBufferRef s <> None /\ snd (ensureAudioContext v backend s) = Resolved tt) /\
  (audioBufferRef s = None ->
   play playing v backend now s
   = (s, Rejected "Load audio before playing the preview.")) /\
  (forall e, audioBufferRef s <> None ->
     snd (play playing v backend now s) = Rejected e ->
     snd (ensureAudioContext v backend s) = Rejected e /\
     exists context,
       fst (play playing v backend now s) = set_audioContextRef context s).
Proof.
  unfold play. destruct (audioBufferRef s) as [buffer |] eqn:Hb.
  - unfold bind. rewrite schedulePlayback_unfold, Hb. unfold bind.
    destruct (ensureAudioContext v backend s) as [s1 [[] | e1]] eqn:E; cbn [fst snd].
    + split; [split; [intros _; split; [discriminate | reflexivity] | reflexivity] |].
      split; [discriminate |]. intros e _ H. discriminate.
    + split; [split; [discriminate | intros [_ H]; discriminate] |].
      split; [discriminate |]. intros e _ H. inversion H; subst e1.
      split; [reflexivity |]. exists (audioContextRef s1).
      apply (ensureAudioContext_rejected v backend s s1 e E).
  - cbn [snd fst]. split; [split; [discriminate | intros [H _]; contradiction] |].
    split; [reflexivity |]. intros e H. contradiction.
Qed.

Lemma pause_running (now : Q) (s : Engine) (buffer : AudioBuffer) :
  audioBufferRef s = Some buffer -> audioContextRef s = true ->
  pause true now s
  = set_isPlaying false
      (set_sourceNodeRef None
         (set_connections
            (match sourceNodeRef s with
             | Some n => disconnect (NSource n) (connections s)
             | None => connections s
             end)
            (set_ignoreEndRef true
               (set_pauseOffsetRef (getCurrentOffset true now s) s)))).
Proof.
  intros Hb Hc. unfold pause. rewrite Hb, Hc. cbn [negb orb].
  rewrite stopCurrentSource_eq. reflexivity.
Qed.

Lemma pause_running_fields (now : Q) (s : Engine) (buffer : AudioBuffer) :
  audioBufferRef s = Some buffer -> audioContextRef s = true ->
  isPlaying (pause true now s) = false /\
  sourceNodeRef (pause true now s) = None /\
  pauseOffsetRef (pause true now s) = getCurrentOffset true now s /\
  audioBufferRef (pause true now s) = Some buffer.
Proof.
  intros Hb Hc. rewrite (pause_running now s buffer Hb Hc).
  repeat split; try reflexivity. exact Hb.
Qed.

Lemma getCurrentOffset_range (now : Q) (s : Engine) (buffer : AudioBuffer) :
  audioBufferRef s = Some buffer -> audioContextRef s = true ->
  getCurrentOffset true now s <= duration buffer /\
  (getCurrentOffset true now s < duration buffer -> 0 <= getCurrentOffset true now s).
Proof.
  intros Hb Hc. unfold getCurrentOffset. rewrite Hb, Hc. cbn [andb].
  destruct (Qmax_cases (now - startTimeRef s) 0) as [[Ha Ea] | [Ha Ea]];
    destruct (Qmin_cases (Qmax (now - startTimeRef s) 0) (duration buffer))
      as [[Hm Em] | [Hm Em]];
    (split; [| intros Hlt]); lra.
Qed.

Lemma getCurrentOffset_paused (now o : Q) (s : Engine) (buffer : AudioBuffer) :
  audioBufferRef s = Some buffer -> pauseOffsetRef s = o -> o <= duration buffer ->
  getCurrentOffset false now s == o.
Proof.
  intros Hb Hp Ho. unfold getCurrentOffset. rewrite Hb, Hp. cbn [andb].
  destruct (Qmin_cases o (duration buffer)) as [[Hm Em] | [Hm Em]]; lra.
Qed.

Lemma getCurrentOffset_running (now start o : Q) (s : Engine) (buffer : AudioBuffer) :
  audioBufferRef s = Some buffer -> audioContextRef s = true ->
  startTimeRef s = start -> now - start == o -> 0 <= o -> o <= duration buffer ->
  getCurrentOffset true now s == o.
Proof.
  intros Hb Hc Hs He H0 H1. unfold getCurrentOffset. rewrite Hb, Hc, Hs. cbn [andb].
  destruct (Qmax_cases (now - start) 0) as [[Ha Ea] | [Ha Ea]];
    destruct (Qmin_cases (Qmax (now - start) 0) (duration buffer))
      as [[Hm Em] | [Hm Em]]; lra.
Qed.

Lemma play_started (playing : bool) (v : Q) (backend : Backend) (now : Q)
    (s s' : Engine) (buffer : AudioBuffer) :
  audioBufferRef s = Some buffer ->
  play playing v backend now s = (s', Resolved tt) ->
  isPlaying s' = true /\ audioBufferRef s' = Some buffer /\
  audioContextRef s' = true /\
  startTimeRef s'
  = now - startOffsetOf (getCurrentOffset playing now s) (duration buffer) /\
  pauseOffsetRef s' = startOffsetOf (getCurrentOffset playing now s) (duration buffer).
Proof.
  intros Hb Hplay. unfold play in Hplay. rewrite Hb in Hplay. unfold bind in Hplay.
  destruct (schedulePlayback v backend now (getCurrentOffset playing now s) true s)
    as [s1 [r | e]] eqn:E; [| discriminate].
  assert (Hs : s' = s1).
  { assert (H2 : s' = fst (s', @Resolved unit tt)) by reflexivity.
    rewrite <- Hplay in H2. exact H2. }
  subst s1.
  destruct (schedulePlayback_started _ _ _ _ _ _ _ _ _ Hb E)
    as (_ & _ & _ & _ & Hoff & Hstart & Hplaying & Hb2 & Hc2 & _).
  repeat split; assumption.
Qed.

(** X15: pausing a running transport and playing again resumes where it
    was paused.  While paused, the offset read is the offset at the moment
    of the pause, whatever the clock shows; after [play()] the transport
    runs, and [delta] seconds later the offset read is the paused offset
    plus [delta], for as long as that stays within the asset. *)
Theorem pause_then_play_resumes (v : Q) (backend : Backend) (t1 t2 delta : Q)
    (s s2 : Engine) (buffer : AudioBuffer) :
  audioBufferRef s = Some buffer -> audioContextRef s = true ->
  play false v backend t2 (pause true t1 s) = (s2, Resolved tt) ->
  getCurrentOffset true t1 s <= duration buffer - (1 # 1000) ->
  0 <= delta -> getCurrentOffset true t1 s + delta <= duration buffer ->
  isPlaying (pause true t1 s) = false /\
  sourceNodeRef (pause true t1 s) = None /\
  (forall t, getCurrentOffset false t (pause true t1 s)
             == getCurrentOffset true t1 s) /\
  isPlaying s2 = true /\
  getCurrentOffset true (t2 + delta) s2 == getCurrentOffset true t1 s + delta.
Proof.
  intros Hb Hc Hplay Hroom Hd Hend.
  destruct (pause_running_fields t1 s buffer Hb Hc) as (P1 & P2 & P3 & P4).
  destruct (getCurrentOffset_range t1 s buffer Hb Hc) as (R1 & R2).
  assert (Ho : 0 <= getCurrentOffset true t1 s) by (apply R2; lra).
  assert (Hpaused : forall t, getCurrentOffset false t (pause true t1 s)
                              == getCurrentOffset true t1 s).
  { intros t. apply (getCurrentOffset_paused t _ _ buffer P4 P3 R1). }
  split; [exact P1 |]. split; [exact P2 |]. split; [exact Hpaused |].
  destruct (play_started false v backend t2 _ s2 buffer P4 Hplay)
    as (S1 & S2 & S3 & S4 & _).
  split; [exact S1 |].
  assert (Hid : startOffsetOf (getCurrentOffset false t2 (pause true t1 s))
                  (duration buffer)
                == getCurrentOffset true t1 s).
  { rewrite (startOffsetOf_id _ (duration buffer)); [apply Hpaused | |];
      rewrite (Hpaused t2); assumption. }
  apply (getCurrentOffset_running _ _ _ s2 buffer S2 S3 S4); [| lra | exact Hend].
  rewrite Hid. ring.
Qed.

Lemma pause_then_play_resumes_witness :
  isPlaying (pause true (1 # 2) demoRunning) = false /\
  sourceNodeRef (pause true (1 # 2) demoRunning) = None /\
  (forall t, getCurrentOffset false t (pause true (1 # 2) demoRunning)
             == getCurrentOffset true (1 # 2) demoRunning) /\
  isPlaying (fst (play false 1 BackendReady 7 (pause true (1 # 2) demoRunning)))
  = true /\
  getCurrentOffset true (7 + 1)
    (fst (play false 1 BackendReady 7 (pause true (1 # 2) demoRunning)))
  == getCurrentOffset true (1 # 2) demoRunning + 1.
Proof.
  apply (pause_then_play_resumes 1 BackendReady (1 # 2) 7 1 demoRunning
           (fst (play false 1 BackendReady 7 (pause true (1 # 2) demoRunning)))
           demoBuffer).
  - vm_compute. reflexivity.
  - vm_compute. reflexivity.
  - vm_compute. reflexivity.
  - vm_compute. discriminate.
  - lra.
  - vm_compute. discriminate.
Defined.

(** ** Recording: what a settled export leaves behind *)

Lemma mayThrow_resolved (fault : option string) (s s' : Engine) (u : unit) :
  mayThrow fault s = (s', Resolved u) -> fault = None /\ s' = s.
Proof.
  unfold mayThrow. destruct fault; [discriminate |].
  intros H. split; [reflexivity |].
  assert (Hs : s' = fst (s', Resolved u)) by reflexivity.
  rewrite <- H in Hs. exact Hs.
Qed.

Lemma guard_resolved (b : bool) (error : string) (s s' : Engine) (u : unit) :
  (if b then ret tt else throw error) s = (s', Resolved u) -> b = true /\ s' = s.
Proof.
  destruct b; [| discriminate]. unfold ret.
  intros H. split; [reflexivity |].
  assert (Hs : s' = fst (s', Resolved u)) by reflexivity.
  rewrite <- H in Hs. exact Hs.
Qed.

Lemma modify_resolved (f : Engine -> Engine) (s s' : Engine) (u : unit) :
  modify f s = (s', Resolved u) -> s' = f s.
Proof.
  unfold modify. intros H.
  assert (Hs : s' = fst (s', Resolved u)) by reflexivity.
  rewrite <- H in Hs. exact Hs.
Qed.

Lemma ret_resolved {A} (a b : A) (s s' : Engine) :
  ret a s = (s', Resolved b) -> b = a /\ s' = s.
Proof.
  unfold ret. intros H.
  assert (Hs : s' = fst (s', Resolved b)) by reflexivity.
  rewrite <- H in Hs.
  assert (Hb : Resolved b = snd (s', Resolved b)) by reflexivity.
  rewrite <- H in Hb. cbn [fst snd] in *. split; [congruence | exact Hs].
Qed.

(** A resolved export has passed every step. *)
Lemma exportVideo_resolved_shape `{M : JsMath} (playing : bool) (v : Q)
    (canvas : option HTMLCanvasElement) (format : ExportFormat) (env : ExportEnv)
    (s s' : Engine) (blob : Blob) :
  exportVideo playing v canvas format env s = (s', Resolved blob) ->
  canvas <> None /\ audioBufferRef s <> None /\
  ex_captureFault env = None /\ ex_typeSupported env = true /\
  ex_recorderFault env = None /\ ex_recorderError env = None /\
  match format with
  | Webm => blob = assemble (ex_chunks env)
  | Mp4 => ex_transcode env (assemble (ex_chunks env)) = Resolved blob
  end /\
  exists mid,
    s' = restored playing v env (getCurrentOffset playing (ex_now env) s) mid /\
    (playing = true ->
     exists r,
       snd (schedulePlayback v (ex_restoreBackend env) (ex_restoreNow env)
              (getCurrentOffset playing (ex_now env) s) true
              (set_pauseOffsetRef (getCurrentOffset playing (ex_now env) s)
                 (set_statusMessage (Some "Export complete."%string) mid)))
       = Resolved r).
Proof.
  unfold exportVideo. destruct canvas as [c |]; [| discriminate].
  destruct (audioBufferRef s) as [buffer0 |]; [| discriminate].
  intros H.
  split; [discriminate |]. split; [discriminate |].
  apply bind_resolved in H. destruct H as (s1 & [] & H1 & H).
  apply bind_resolved in H. destruct H as (s2 & [] & H2 & H).
  apply bind_resolved in H. destruct H as (s3 & previousOffset & H3 & H).
  apply modify_resolved in H1. apply modify_resolved in H2.
  apply ret_resolved in H3. destruct H3 as [Hoff ->]. subst s1 s2.
  change (getCurrentOffset playing (ex_now env)
            (set_statusMessage
               (Some ("Rendering " ++ toUpperCase format ++ "...")%string)
               (set_isExporting true s)))
    with (getCurrentOffset playing (ex_now env) s) in Hoff.
  subst previousOffset.
  apply tryCatchFinally_resolved in H. destruct H as (s4 & H & ->).
  apply bind_resolved in H. destruct H as (x1 & [] & _ & H).
  apply bind_resolved in H. destruct H as (x2 & [] & _ & H).
  apply bind_resolved in H. destruct H as (x3 & [] & Hcapture & H).
  apply bind_resolved in H. destruct H as (x4 & audioStream & _ & H).
  apply bind_resolved in H. destruct H as (x5 & [] & _ & H).
  apply bind_resolved in H. destruct H as (x6 & [] & Htype & H).
  apply bind_resolved in H. destruct H as (x7 & [] & Hrecorder & H).
  apply bind_resolved in H. destruct H as (x8 & playback & _ & H).
  apply bind_resolved in H. destruct H as (x9 & [] & _ & H).
  apply bind_resolved in H. destruct H as (x10 & [] & _ & H).
  apply bind_resolved in H. destruct H as (x11 & [] & Herror & H).
  apply bind_resolved in H. destruct H as (x12 & finalBlob & Hblob & H).
  apply bind_resolved in H. destruct H as (x13 & [] & Htold & H).
  apply bind_resolved in H. destruct H as (x14 & [] & Hrestore & H).
  apply ret_resolved in H. destruct H as [-> ->].
  apply mayThrow_resolved in Hcapture. destruct Hcapture as [Hcapture _].
  apply guard_resolved in Htype. destruct Htype as [Htype _].
  apply mayThrow_resolved in Hrecorder. destruct Hrecorder as [Hrecorder _].
  apply mayThrow_resolved in Herror. destruct Herror as [Herror ->].
  apply modify_resolved in Htold.
  split; [exact Hcapture |]. split; [exact Htype |]. split; [exact Hrecorder |].
  split; [exact Herror |].
  split.
  { destruct format.
    - apply ret_resolved in Hblob. destruct Hblob as [-> _]. reflexivity.
    - unfold await in Hblob.
      assert (Hb : Resolved finalBlob = snd (x12, Resolved finalBlob)) by reflexivity.
      rewrite <- Hblob in Hb. cbn [snd] in Hb. symmetry. exact Hb. }
  exists x12. unfold restored.
  assert (Hx13 : x13 = set_statusMessage (Some "Export complete."%string) x12).
  { exact Htold. }
  clear Htold. subst x13.
  destruct playing.
  - apply bind_resolved in Hrestore. destruct Hrestore as (y1 & [] & Hset & Hrestore).
    apply modify_resolved in Hset. subst y1.
    apply bind_resolved in Hrestore. destruct Hrestore as (y2 & r & Hsched & Hret).
    apply ret_resolved in Hret. destruct Hret as [_ ->].
    rewrite Hsched. cbn [fst snd]. split; [reflexivity |].
    intros _. exists r. reflexivity.
  - apply bind_resolved in Hrestore. destruct Hrestore as (y1 & [] & Hset & Hrestore).
    apply modify_resolved in Hset. subst y1.
    apply modify_resolved in Hrestore. subst x14.
    split; [reflexivity | discriminate].
Qed.

Lemma schedulePlayback_leaves (v : Q) (backend : Backend) (now offset : Q)
    (markPlaying : bool) (s : Engine) :
  statusMessage (fst (schedulePlayback v backend now offset markPlaying s))
  = statusMessage s /\
  audioBufferRef (fst (schedulePlayback v backend now offset markPlaying s))
  = audioBufferRef s /\
  volume (fst (schedulePlayback v backend now offset markPlaying s)) = volume s /\
  hasAudio (fst (schedulePlayback v backend now offset markPlaying s)) = hasAudio s /\
  (forall r, audioBufferRef s <> None ->
     snd (schedulePlayback v backend now offset markPlaying s) = Resolved r ->
     gainRef (fst (schedulePlayback v backend now offset markPlaying s)) = Some v).
Proof.
  rewrite schedulePlayback_unfold.
  destruct (audioBufferRef s) as [buffer |] eqn:Hb.
  - unfold bind.
    destruct (ensureAudioContext_assigns v backend s)
      as (c & a & g & d & edges & Eq & _).
    destruct (ensureAudioContext v backend s) as [s1 [[] | e]] eqn:E.
    + apply ensureAudioContext_frame in E.
      destruct E as (_ & _ & _ & _ & _ & _ & _ & _ & _ & _ & Hres).
      destruct (Hres eq_refl) as (_ & _ & _ & Hgain).
      cbn [fst] in Eq. rewrite startSegment_eq. cbn [snd].
      destruct markPlaying; peel; rewrite Eq in *; peel;
        (repeat split; try reflexivity; try exact Hb); intros r _ _; exact Hgain.
    + cbn [fst snd] in *. rewrite Eq. peel.
      repeat split; try reflexivity; try exact Hb. intros r _ H. discriminate.
  - cbn [fst snd]. repeat split; try reflexivity; try exact Hb.
    intros r H. contradiction.
Qed.

(** X16: what [exportVideo] reports.  When it resolves, the status shows
    "Export complete.", [isExporting] is lowered, the capture, the format
    check and the recorder have all succeeded, and the blob is the
    assembled recording (for webm) or what the transcoder made of it (for
    mp4).  When it rejects, either a precondition failed (no canvas, no
    audio) and nothing was touched, or the status shows "Export failed.
    Please try again." and [isExporting] is lowered. *)
Theorem exportVideo_reports_its_outcome `{M : JsMath} (playing : bool) (v : Q)
    (canvas : option HTMLCanvasElement) (format : ExportFormat) (env : ExportEnv)
    (s : Engine) :
  let s' := fst (exportVideo playing v canvas format env s) in
  match snd (exportVideo playing v canvas format env s) with
  | Resolved blob =>
      statusMessage s' = Some "Export complete."%string /\ isExporting s' = false /\
      ex_captureFault env = None /\ ex_typeSupported env = true /\
      ex_recorderFault env = None /\ ex_recorderError env = None /\
      match format with
      | Webm => blob = assemble (ex_chunks env)
      | Mp4 => ex_transcode env (assemble (ex_chunks env)) = Resolved blob
      end
  | Rejected e =>
      (canvas = None /\ s' = s /\ e = "Preview canvas is not ready yet."%string) \/
      (canvas <> None /\ audioBufferRef s = None /\ s' = s /\
       e = "Load or generate speech before exporting."%string) \/
      (canvas <> None /\ audioBufferRef s <> None /\
       statusMessage s' = Some "Export failed. Please try again."%string /\
       isExporting s' = false)
  end.
Proof.
  intros s'. unfold s'. clear s'.
  destruct (exportVideo playing v canvas format env s) as [s' [blob | e]] eqn:E;
    cbn [fst snd].
  - destruct (exportVideo_resolved_shape _ _ _ _ _ _ _ _ E)
      as (_ & _ & H1 & H2 & H3 & H4 & H5 & mid & -> & _).
    repeat (split; [first [assumption | idtac] |]); [| | exact H5].
    + unfold restored. destruct playing.
      * destruct (schedulePlayback_leaves v (ex_restoreBackend env)
                    (ex_restoreNow env)
                    (getCurrentOffset true (ex_now env) s) true
                    (set_pauseOffsetRef (getCurrentOffset true (ex_now env) s)
                       (set_statusMessage (Some "Export complete."%string) mid)))
          as (Hm & _).
        peel. rewrite Hm. reflexivity.
      * reflexivity.
    + unfold restored. reflexivity.
  - unfold exportVideo in E. destruct canvas as [c |].
    + destruct (audioBufferRef s) as [buffer |] eqn:Hb.
      * right. right. split; [discriminate |]. split; [discriminate |].
        revert E. unfold bind at 1 2 3. unfold modify at 1 2. unfold gets at 1.
        match goal with
        | |- context [tryCatchFinally ?body ?handler ?final ?s0] =>
            destruct (tryCatchFinally_outcome body handler final s0)
              as [(s1 & a & _ & ->) | (s1 & e1 & _ & ->)]
        end; intros E; [discriminate |].
        assert (Hs : s' = fst (s', @Rejected Blob e)) by reflexivity.
        rewrite <- E in Hs. rewrite Hs. split; reflexivity.
      * right. left. split; [discriminate |]. split; [reflexivity |].
        assert (Hs : s' = fst (s', @Rejected Blob e)) by reflexivity.
        assert (He : Rejected e = snd (s', @Rejected Blob e)) by reflexivity.
        rewrite <- E in Hs, He. cbn [fst snd] in Hs, He.
        split; [exact Hs | congruence].
    + left. split; [reflexivity |].
      assert (Hs : s' = fst (s', @Rejected Blob e)) by reflexivity.
      assert (He : Rejected e = snd (s', @Rejected Blob e)) by reflexivity.
      rewrite <- E in Hs, He. cbn [fst snd] in Hs, He.
      split; [exact Hs | congruence].
Qed.

Lemma loaded_stable (v : Q) : Stable loaded v.
Proof.
  constructor; try (intros; intros s H; exact H).
  - intros decoded s _. unfold loaded. rewrite installBuffer_buffer. discriminate.
  - intros backend s H. unfold loaded.
    destruct (ensureAudioContext v backend s) as [s1 r] eqn:E.
    apply ensureAudioContext_frame in E.
    destruct E as (_ & _ & _ & _ & _ & _ & Hb & _).
    cbn [fst]. rewrite Hb. exact H.
  - intros now startOffset markPlaying s _ _ H. unfold loaded.
    rewrite startSegment_eq. destruct markPlaying; exact H.
  - intros playing now s H.
    destruct (pause_shape playing now s) as [-> | ->]; [exact H |].
    rewrite stopCurrentSource_eq. exact H.
  - intros source markPlaying s H.
    destruct (onended_shape source markPlaying s) as [-> | ->]; [exact H |].
    destruct markPlaying; exact H.
Qed.

Lemma loaded_events `{M : JsMath} : StableEvents loaded.
Proof.
  constructor.
  - intros now t render s H. unfold loaded, loop.
    destruct (analyserRef s); [| exact H].
    destruct (audioBufferRef s) eqn:Hb; [| exact H].
    destruct (headRotation s) as [[x y] z]. destruct (eyeDirection s) as [ex ey].
    peel. rewrite Hb. discriminate.
  - intros value s H. unfold updateVolume. cbn. destruct (gainRef s); exact H.
  - intros key value s H. exact H.
  - intros random s H. exact H.
Qed.

(** X17: an export that was started while playing and resolves leaves the
    gain node at the volume that was current when [exportVideo] was called
    (the one its callbacks captured), whatever volume has been set while
    the export ran. *)
Theorem exportVideo_restores_the_captured_volume `{M : JsMath} (v : Q)
    (canvas : option HTMLCanvasElement) (format : ExportFormat) (env : ExportEnv)
    (s s' : Engine) (blob : Blob) :
  exportVideo true v canvas format env s = (s', Resolved blob) ->
  gainRef s' = Some v.
Proof.
  intros E.
  assert (Hl : loaded s').
  { assert (Hs : s' = fst (exportVideo true v canvas format env s))
      by (rewrite E; reflexivity).
    rewrite Hs.
    apply (invA_exportVideo loaded (fun s0 _ => loaded_stable (volume s0))
             loaded_events true v canvas format env (loaded_stable v)).
    destruct (exportVideo_resolved_shape _ _ _ _ _ _ _ _ E) as (_ & Hb & _).
    exact Hb. }
  destruct (exportVideo_resolved_shape _ _ _ _ _ _ _ _ E)
    as (_ & _ & _ & _ & _ & _ & _ & mid & Hs & Hr).
  destruct (Hr eq_refl) as (r & Hres).
  subst s'. unfold restored in *. unfold loaded in Hl.
  match type of Hres with
  | snd (schedulePlayback ?a ?b ?c ?d ?e ?x) = _ =>
      destruct (schedulePlayback_leaves a b c d e x) as (_ & Hb & _ & _ & Hg)
  end.
  peel. rewrite Hb in Hl. apply (Hg r Hl Hres).
Qed.

Lemma exportVideo_restores_the_captured_volume_witness :
  gainRef (fst (exportVideo (M := approxMath) true 1 (Some Canvas) Webm
                  demoExportVolumeChange demoRunning)) = Some 1 /\
  volume (fst (exportVideo (M := approxMath) true 1 (Some Canvas) Webm
                 demoExportVolumeChange demoRunning)) = 1 # 5.
Proof.
  split.
  - apply (exportVideo_restores_the_captured_volume (M := approxMath) 1 (Some Canvas)
             Webm demoExportVolumeChange demoRunning _
             (assemble (ex_chunks demoExportVolumeChange))).
    vm_compute. reflexivity.
  - vm_compute. reflexivity.
Defined.

(** * The speech route *)

Lemma trimStart_blank (text : string) :
  isBlank text = true <-> trimStart text = EmptyString.
Proof.
  induction text as [| c rest IH]; cbn [isBlank trimStart].
  - split; reflexivity.
  - destruct (isWhiteSpace c); cbn [andb]; [exact IH |].
    split; discriminate.
Qed.

Lemma trimEnd_blank (text : string) :
  isBlank text = true <-> trimEnd text = EmptyString.
Proof.
  induction text as [| c rest IH]; cbn [isBlank trimEnd].
  - split; reflexivity.
  - destruct (trimEnd rest) as [| c' kept] eqn:E.
    + destruct (isWhiteSpace c); cbn [andb].
      * split; [reflexivity | intros _; apply IH; reflexivity].
      * split; discriminate.
    + split; [| discriminate]. intros H.
      apply andb_true_iff in H. destruct H as [_ H]. apply IH in H. discriminate.
Qed.

Lemma trimStart_head (text : string) :
  match trimStart text with
  | EmptyString => True
  | String c _ => isWhiteSpace c = false
  end.
Proof.
  induction text as [| c rest IH]; cbn [trimStart]; [exact I |].
  destruct (isWhiteSpace c) eqn:E; [exact IH | exact E].
Qed.

Lemma trimEnd_head (c : ascii) (rest : string) :
  isWhiteSpace c = false ->
  exists kept, trimEnd (String c rest) = String c kept.
Proof.
  intros H. cbn [trimEnd]. destruct (trimEnd rest) as [| c' kept].
  - rewrite H. exists EmptyString. reflexivity.
  - exists (String c' kept). reflexivity.
Qed.

Lemma trim_blank (text : string) : isBlank text = true <-> trim text = EmptyString.
Proof.
  unfold trim. split.
  - intros H. apply trimStart_blank in H. rewrite H. reflexivity.
  - intros H. apply trimStart_blank.
    pose proof (trimStart_head text) as Hh.
    destruct (trimStart text) as [| c rest]; [reflexivity |].
    destruct (trimEnd_head c rest Hh) as [kept E]. rewrite E in H. discriminate.
Qed.








(** * The page's play button *)

Lemma playing_has_context_stable (v : Q) : Stable playing_has_context v.
Proof.
  constructor; try (intros; intros s H; exact H).
  - intros decoded s _. unfold playing_has_context. rewrite installBuffer_eq.
    intros Hp. discriminate.
  - intros backend s H. unfold playing_has_context.
    destruct (ensureAudioContext v backend s) as [s1 r] eqn:E.
    apply ensureAudioContext_frame in E.
    destruct E as (_ & _ & Hp & _ & _ & _ & Hb & _ & _ & Hc & _).
    cbn [fst]. rewrite Hp, Hb. intros Hplay. destruct (H Hplay) as [H1 H2].
    split; [apply Hc; exact H1 | exact H2].
  - intros now startOffset markPlaying s Hb Hc _. unfold playing_has_context.
    rewrite startSegment_eq. destruct markPlaying; intros _; split; assumption.
  - intros playing now s H.
    destruct (pause_shape playing now s) as [-> | ->]; [exact H |].
    intros Hp. discriminate.
  - intros source markPlaying s H.
    destruct (onended_shape source markPlaying s) as [-> | ->]; [exact H |].
    destruct markPlaying; [intros Hp; discriminate | exact H].
  - intros s _ Hp. discriminate.
Qed.

Lemma playing_has_context_events `{M : JsMath} : StableEvents playing_has_context.
Proof.
  constructor.
  - intros now t render s H. unfold loop.
    destruct (analyserRef s); [| exact H].
    destruct (audioBufferRef s) eqn:Hb; [| exact H].
    destruct (headRotation s) as [[x y] z]. destruct (eyeDirection s) as [ex ey].
    unfold playing_has_context. peel. rewrite Hb. intros Hp.
    destruct (H Hp) as [H1 _]. split; [exact H1 | discriminate].
  - intros value s H. unfold updateVolume. cbn. destruct (gainRef s); exact H.
  - intros key value s H. exact H.
  - intros random s H. exact H.
Qed.

Lemma session_playing_has_context `{M : JsMath} (actions : list Action) (seed : Q) :
  playing_has_context (session actions (initialEngine seed)).
Proof.
  apply invF_session.
  - intros s _. apply playing_has_context_stable.
  - apply playing_has_context_events.
  - intros Hp. discriminate.
Qed.

(** What [play()] does with a buffer loaded, by the outcome of
    [ensureAudioContext]. *)
Lemma play_settles (playing : bool) (v : Q) (backend : Backend) (now : Q)
    (s : Engine) (buffer : AudioBuffer) :
  audioBufferRef s = Some buffer ->
  match snd (ensureAudioContext v backend s) with
  | Resolved _ => exists s', play playing v backend now s = (s', Resolved tt)
  | Rejected e =>
      exists context,
        play playing v backend now s = (set_audioContextRef context s, Rejected e)
  end.
Proof.
  intros Hb. unfold play. rewrite Hb. unfold bind.
  rewrite schedulePlayback_unfold, Hb. unfold bind.
  destruct (ensureAudioContext v backend s) as [s1 [[] | e]] eqn:E; cbn [snd].
  - eexists. reflexivity.
  - exists (audioContextRef s1).
    rewrite <- (ensureAudioContext_rejected v backend s s1 e E). reflexivity.
Qed.

(** X21: in every state a session reaches, the play button does what its
    label says.  Without audio it only shows a hint.  With audio, on a
    playing transport it pauses (no source node is left), and on a paused
    one it starts playback whenever the audio context is available, and
    otherwise shows the context's error and leaves the transport paused. *)
Theorem play_toggle_toggles `{M : JsMath} (actions : list Action) (seed : Q)
    (backend : Backend) (now : Q) (toast : option Toast) :
  let s := session actions (initialEngine seed) in
  let p := handlePlayToggle backend now (mkPage s toast) in
  (hasAudio s = false ->
   page_engine p = s /\
   page_toast p = Some (mkToast ToastInfo "Load or generate audio first.")) /\
  (hasAudio s = true -> isPlaying s = true ->
   isPlaying (page_engine p) = false /\ sourceNodeRef (page_engine p) = None /\
   page_toast p = toast) /\
  (hasAudio s = true -> isPlaying s = false ->
   match snd (ensureAudioContext (volume s) backend s) with
   | Resolved _ => isPlaying (page_engine p) = true /\ page_toast p = toast
   | Rejected e =>
       isPlaying (page_engine p) = false /\
       page_toast p = Some (mkToast ToastError e)
   end).
Proof.
  intros s p.
  pose proof (session_asset_consistent actions seed) as [Hasset _].
  pose proof (session_playing_has_context actions seed) as Hctx.
  fold s in Hasset, Hctx. unfold p, handlePlayToggle. cbn [page_engine page_toast].
  split; [| split].
  - intros Hh. rewrite Hh. cbn [negb]. split; reflexivity.
  - intros Hh Hp. rewrite Hh, Hp. cbn [negb page_engine page_toast].
    destruct (Hctx Hp) as [Hc Hb].
    destruct (audioBufferRef s) as [buffer |] eqn:Eb; [| contradiction].
    destruct (pause_running_fields now s buffer Eb Hc) as (P1 & P2 & _).
    repeat split; assumption.
  - intros Hh Hp. rewrite Hh, Hp. cbn [negb].
    destruct (audioBufferRef s) as [buffer |] eqn:Eb;
      [| exfalso; apply (Hasset Hh); reflexivity].
    pose proof (play_settles false (volume s) backend now s buffer Eb) as Hplay.
    destruct (snd (ensureAudioContext (volume s) backend s)) as [u | e].
    + destruct Hplay as (s' & Hs'). rewrite Hs'. cbn [page_engine page_toast].
      destruct (play_started false (volume s) backend now s s' buffer Eb Hs')
        as (S1 & _).
      split; [exact S1 | reflexivity].
    + destruct Hplay as (c & Hs'). rewrite Hs'. cbn [page_engine page_toast].
      split; [exact Hp | reflexivity].
Qed.



(** * The rig *)

(** X23: [ease] moves a value towards its target: the distance to the
    target is multiplied by [1 - factor]; for a factor in [0,1] the result
    lies between the current value and the target, and for the boosted
    factors the rig uses (up to 1.4 times a lerp amount in [0,1]) the
    result is never farther from the target than the current value. *)
Theorem ease_approaches_target (current target factor : Q) :
  ease current target factor - target == (1 - factor) * (current - target) /\
  (0 <= factor -> factor <= 1 ->
   Qmin current target <= ease current target factor /\
   ease current target factor <= Qmax current target) /\
  (0 <= factor -> factor <= 2 ->
   Qabs (ease current target factor - target) <= Qabs (current - target)).
Proof.
  assert (Hd : ease current target factor - target
               == (1 - factor) * (current - target)) by (unfold ease; ring).
  split; [exact Hd |]. split.
  - intros H0 H1. unfold ease.
    destruct (Qmin_cases current target) as [[Hm Em] | [Hm Em]];
      destruct (Qmax_cases current target) as [[Hx Ex] | [Hx Ex]];
      rewrite Em, Ex; split; nra.
  - intros H0 H2. rewrite Hd, Qabs_Qmult.
    assert (Hf : Qabs (1 - factor) <= 1).
    { apply Qabs_Qle_condition. split; lra. }
    pose proof (Qabs_nonneg (current - target)) as Hn.
    set (a := Qabs (1 - factor)) in *. set (b := Qabs (current - target)) in *.
    nra.
Qed.

(** X24: with a sine in [-1,1], in every state a session reaches the
    targets the rig is eased towards stay in fixed ranges: the eye scale
    in [0.1, 1], the cheek opacity in [0.15, 0.7], the mouth opening in
    [0.28, 1.13] and the mouth width in [0.65, 1.25]. *)
Theorem rig_targets_in_range `{T : JsSinSpec} (actions : list Action) (seed : Q) :
  let rig := rigTargets (animationState (session actions (initialEngine seed))) in
  (1 # 10 <= rig_blinkScale rig /\ rig_blinkScale rig <= 1) /\
  (15 # 100 <= rig_glow rig /\ rig_glow rig <= 7 # 10) /\
  (28 # 100 <= rig_mouthOpen rig /\ rig_mouthOpen rig <= 113 # 100) /\
  (65 # 100 <= rig_mouthWidth rig /\ rig_mouthWidth rig <= 125 # 100).
Proof.
  intros rig.
  destruct (session_motion_in_range actions seed)
    as (_ & Hmouth & Hen & Hblink & _).
  set (s := session actions (initialEngine seed)) in *.
  destruct (computeEmotionBlend_clamped (emotions s) (energy s))
    as (Hhappy & _ & Hangry & Hsur & _).
  unfold rig, rigTargets, animationState.
  cbn [rig_blinkScale rig_glow rig_mouthOpen rig_mouthWidth anim_blink
       anim_mouthOpen anim_intensity anim_emotionMix].
  unfold unit_range in *.
  set (blend := computeEmotionBlend (emotions s) (energy s)) in *.
  repeat split; try lra.
  - apply Q.le_max_l.
  - apply Q.max_lub; lra.
Qed.

Lemma rig_targets_in_range_witness :
  let rig := rigTargets (animationState
                           (session (M := boundedMath) (demoSession (1 # 2))
                              (initialEngine (1 # 3)))) in
  (1 # 10 <= rig_blinkScale rig /\ rig_blinkScale rig <= 1) /\
  (15 # 100 <= rig_glow rig /\ rig_glow rig <= 7 # 10) /\
  (28 # 100 <= rig_mouthOpen rig /\ rig_mouthOpen rig <= 113 # 100) /\
  (65 # 100 <= rig_mouthWidth rig /\ rig_mouthWidth rig <= 125 # 100).
Proof.
  exact (rig_targets_in_range (T := boundedMath_sin_range)
           (demoSession (1 # 2)) (1 # 3)).
Defined.

(** * Formatting of the duration *)

Lemma Qfloor_unique (x : Q) (z : Z) :
  inject_Z z <= x -> x < inject_Z (z + 1) -> Qfloor x = z.
Proof.
  intros Hle Hlt.
  assert (H1 : (z <= Qfloor x)%Z).
  { rewrite <- (Qfloor_Z z). apply Qfloor_resp_le. exact Hle. }
  assert (H2 : (Qfloor x < z + 1)%Z).
  { rewrite Zlt_Qlt. apply Qle_lt_trans with x; [apply Qfloor_le | exact Hlt]. }
  lia.
Qed.

Lemma Qfloor_minus_Z (x : Q) (k : Z) :
  Qfloor (x - inject_Z k) = (Qfloor x - k)%Z.
Proof.
  apply Qfloor_unique.
  - unfold Zminus. rewrite inject_Z_plus, inject_Z_opp.
    pose proof (Qfloor_le x). lra.
  - replace (Qfloor x - k + 1)%Z with ((Qfloor x + 1) - k)%Z by lia.
    unfold Zminus. rewrite inject_Z_plus, inject_Z_opp.
    pose proof (Qlt_floor x). lra.
Qed.

Lemma two_digits (rem : Z) :
  (0 <= rem < 60)%Z -> String.length (padStart2 (showInteger rem)) = 2%nat.
Proof.
  intros H.
  assert (Hn : exists n, rem = Z.of_nat n /\ (n < 60)%nat).
  { exists (Z.to_nat rem). split; lia. }
  destruct Hn as (n & -> & Hn).
  do 60 (destruct n as [| n]; [vm_compute; reflexivity |]). lia.
Qed.

(** X25: [formatDuration] shows a positive duration as whole minutes and
    the remaining whole seconds: sixty times the minutes plus the seconds
    shown is the duration rounded down, the seconds shown are below 60 and
    are written with two digits; a duration that is not positive is shown
    as 0:00. *)
Theorem formatDuration_splits_the_seconds (seconds : Q) :
  (seconds <= 0 -> formatDuration seconds = "0:00"%string) /\
  (0 < seconds ->
   exists minutes rem : Z,
     (0 <= minutes /\ 0 <= rem < 60 /\ 60 * minutes + rem = Qfloor seconds)%Z /\
     formatDuration seconds
     = (showInteger minutes ++ ":" ++ padStart2 (showInteger rem))%string /\
     String.length (padStart2 (showInteger rem)) = 2%nat).
Proof.
  unfold formatDuration. split.
  - intros H. destruct (Qlt_le_dec 0 seconds) as [Hpos | _]; [lra | reflexivity].
  - intros H. destruct (Qlt_le_dec 0 seconds) as [_ | Hle]; [| lra].
    assert (Hc : Qmax 0 seconds == seconds) by (apply Q.max_r; lra).
    set (clamped := Qmax 0 seconds) in *.
    set (minutes := Qfloor (clamped / 60)).
    assert (Hdiv : clamped / 60 == clamped * (1 # 60)) by (field).
    assert (Hlow : inject_Z minutes <= clamped / 60) by apply Qfloor_le.
    assert (Hhigh : clamped / 60 < inject_Z (minutes + 1)) by apply Qlt_floor.
    rewrite inject_Z_plus in Hhigh.
    assert (Hm0 : (0 <= minutes)%Z).
    { unfold minutes. rewrite <- (Qfloor_Z 0). apply Qfloor_resp_le.
      rewrite Hdiv. change (inject_Z 0) with 0. lra. }
    assert (Htrunc : truncate (clamped / 60) = minutes).
    { unfold truncate. destruct (Qlt_le_dec (clamped / 60) 0) as [Hneg | _];
        [| reflexivity].
      rewrite Hdiv in Hneg. lra. }
    assert (Hrem : Qfloor (jsRemainder clamped 60) = (Qfloor seconds - 60 * minutes)%Z).
    { unfold jsRemainder. rewrite Htrunc.
      assert (He : clamped - 60 * inject_Z minutes
                   == seconds - inject_Z (60 * minutes)).
      { rewrite inject_Z_mult. change (inject_Z 60) with 60. rewrite Hc. ring. }
      rewrite (Qfloor_comp _ _ He). apply Qfloor_minus_Z. }
    assert (Hfl : inject_Z (Qfloor seconds) <= seconds) by apply Qfloor_le.
    assert (Hfh : seconds < inject_Z (Qfloor seconds + 1)) by apply Qlt_floor.
    assert (Hr0 : (60 * minutes <= Qfloor seconds)%Z).
    { rewrite <- (Qfloor_Z (60 * minutes)). apply Qfloor_resp_le.
      rewrite inject_Z_mult. change (inject_Z 60) with 60. rewrite Hdiv in Hlow. lra. }
    assert (Hr1 : (Qfloor seconds < 60 * minutes + 60)%Z).
    { rewrite Zlt_Qlt. rewrite inject_Z_plus, inject_Z_mult.
      change (inject_Z 60) with 60. rewrite Hdiv in Hhigh.
      change (inject_Z 1) with 1 in Hhigh. lra. }
    exists minutes, (Qfloor seconds - 60 * minutes)%Z.
    split; [lia |]. split.
    + cbn zeta. fold minutes. rewrite Hrem. reflexivity.
    + apply two_digits. lia.
Qed.

(** * The audio context is set up once *)

Lemma connect_present (a b : GraphNode) (g : list Edge) :
  In (a, b) g -> connect a b g = g.
Proof.
  intros H. unfold connect.
  assert (Hex : existsb (Edge_eqb (a, b)) g = true).
  { apply existsb_exists. exists (a, b). split; [exact H |].
    apply Edge_eqb_eq. reflexivity. }
  rewrite Hex. reflexivity.
Qed.

Lemma ensureAudioContext_resolved_edges (v : Q) (backend : Backend) (s s1 : Engine) :
  ensureAudioContext v backend s = (s1, Resolved tt) ->
  In (NGain, NSpeaker) (connections s1) /\ In (NGain, NCaptureSink) (connections s1).
Proof.
  break_engine s.
  destruct backend, f_audioContextRef, f_gainRef, f_destinationRef, f_analyserRef;
    lazy -[connect]; intros H;
    first [ discriminate
          | assert (Hs : s1 = fst (s1, @Resolved unit tt)) by reflexivity;
            rewrite <- H in Hs; rewrite Hs; lazy -[connect In]; split;
            [ apply In_connect; right; apply In_connect; left; reflexivity
            | apply In_connect; left; reflexivity ] ].
Qed.

(** X26: once [ensureAudioContext] has resolved, the context, the
    analyser, the gain node and the capture sink exist, the gain node
    carries the volume and feeds the speakers and the capture sink; and a
    later call builds nothing again: it leaves the engine as it is, except
    that a call that resolves stores its own volume in the gain node. *)
Theorem ensureAudioContext_sets_up_once (v v' : Q) (backend backend' : Backend)
    (s s1 : Engine) :
  ensureAudioContext v backend s = (s1, Resolved tt) ->
  (audioContextRef s1 = true /\ analyserRef s1 = true /\ destinationRef s1 = true /\
   gainRef s1 = Some v /\
   In (NGain, NSpeaker) (connections s1) /\
   In (NGain, NCaptureSink) (connections s1)) /\
  fst (ensureAudioContext v backend' s1) = s1 /\
  fst (ensureAudioContext v' backend' s1)
  = match snd (ensureAudioContext v' backend' s1) with
    | Resolved _ => set_gainRef (Some v') s1
    | Rejected _ => s1
    end.
Proof.
  intros E.
  pose proof (ensureAudioContext_frame _ _ _ _ _ E)
    as (_ & _ & _ & _ & _ & _ & _ & _ & _ & _ & Hres).
  destruct (Hres eq_refl) as (Hc & Ha & Hd & Hg).
  destruct (ensureAudioContext_resolved_edges _ _ _ _ E) as (E1 & E2).
  split; [repeat split; assumption |].
  clear E Hres. break_engine s1. cbn in Hc, Ha, Hd, Hg, E1, E2. subst.
  split; destruct backend'; lazy -[connect];
    rewrite ?(connect_present NGain NSpeaker f_connections E1),
            ?(connect_present NGain NCaptureSink f_connections E2);
    reflexivity.
Qed.

Lemma ensureAudioContext_sets_up_once_witness :
  (audioContextRef demoLoaded = true /\ analyserRef demoLoaded = true /\
   destinationRef demoLoaded = true /\ gainRef demoLoaded = Some 1 /\
   In (NGain, NSpeaker) (connections demoLoaded) /\
   In (NGain, NCaptureSink) (connections demoLoaded)) /\
  fst (ensureAudioContext 1 (BackendResumeRejects "suspended") demoLoaded)
  = demoLoaded /\
  fst (ensureAudioContext (1 # 2) (BackendResumeRejects "suspended") demoLoaded)
  = match snd (ensureAudioContext (1 # 2) (BackendResumeRejects "suspended")
                 demoLoaded) with
    | Resolved _ => set_gainRef (Some (1 # 2)) demoLoaded
    | Rejected _ => demoLoaded
    end.
Proof.
  apply (ensureAudioContext_sets_up_once 1 (1 # 2) BackendReady
           (BackendResumeRejects "suspended") demoLoaded demoLoaded).
  vm_compute. reflexivity.
Defined.

(** ** Recording: the resolving path *)

(** X27: an export that resolves puts the transport back.  The playing
    flag is what it was when [exportVideo] was called; a transport that
    was paused reads its previous offset again at any time, and one that
    was playing has been restarted and reads its previous offset at the
    moment of the restart (for a previous offset that is not negative
    and at least 0.001 s before the end of the asset now loaded). *)
Theorem resolved_export_restores_the_transport `{M : JsMath} (playing : bool) (v : Q)
    (canvas : option HTMLCanvasElement) (format : ExportFormat) (env : ExportEnv)
    (s s' : Engine) (blob : Blob) (buffer : AudioBuffer) :
  exportVideo playing v canvas format env s = (s', Resolved blob) ->
  audioBufferRef s' = Some buffer ->
  0 <= getCurrentOffset playing (ex_now env) s ->
  getCurrentOffset playing (ex_now env) s <= duration buffer - (1 # 1000) ->
  isPlaying s' = playing /\
  (playing = false ->
   forall t, getCurrentOffset false t s' == getCurrentOffset playing (ex_now env) s) /\
  (playing = true ->
   getCurrentOffset true (ex_restoreNow env) s'
   == getCurrentOffset playing (ex_now env) s).
Proof.
  intros E Hb H0 H1.
  destruct (exportVideo_resolved_shape _ _ _ _ _ _ _ _ E)
    as (_ & _ & _ & _ & _ & _ & _ & mid & Hs & Hr).
  set (o := getCurrentOffset playing (ex_now env) s) in *.
  destruct playing.
  - destruct (Hr eq_refl) as (r & Hres). clear Hr.
    unfold restored in Hs.
    set (told := set_pauseOffsetRef o
                   (set_statusMessage (Some "Export complete."%string) mid)) in *.
    destruct (schedulePlayback v (ex_restoreBackend env) (ex_restoreNow env) o true told)
      as [s1 r1] eqn:Es.
    cbn [fst snd] in Hs, Hres. subst r1.
    assert (Hb1 : audioBufferRef s1 = Some buffer) by (rewrite Hs in Hb; exact Hb).
    assert (Hbt : audioBufferRef told = Some buffer).
    { destruct (schedulePlayback_leaves v (ex_restoreBackend env) (ex_restoreNow env)
                  o true told) as (_ & Hk & _).
      rewrite Es in Hk. cbn [fst] in Hk. rewrite <- Hk. exact Hb1. }
    destruct (schedulePlayback_started _ _ _ _ _ _ _ _ _ Hbt Es)
      as (_ & _ & _ & _ & Hoff & Hstart & Hplaying & _ & Hc & _).
    assert (Hid : startOffsetOf o (duration buffer) == o)
      by (apply startOffsetOf_id; assumption).
    assert (Hp' : isPlaying s' = true) by (rewrite Hs; exact Hplaying).
    assert (Hb' : audioBufferRef s' = Some buffer) by exact Hb.
    assert (Hc' : audioContextRef s' = true) by (rewrite Hs; exact Hc).
    assert (Hst : startTimeRef s'
                  = ex_restoreNow env - startOffsetOf o (duration buffer))
      by (rewrite Hs; exact Hstart).
    split; [exact Hp' |]. split; [discriminate |]. intros _.
    apply (getCurrentOffset_running _ _ _ s' buffer Hb' Hc' Hst); [| exact H0 | lra].
    rewrite Hid. ring.
  - clear Hr. unfold restored in Hs.
    assert (Hp' : isPlaying s' = false) by (rewrite Hs; reflexivity).
    assert (Hoff : pauseOffsetRef s' = o) by (rewrite Hs; reflexivity).
    split; [exact Hp' |]. split; [| discriminate]. intros _ t.
    apply (getCurrentOffset_paused t o s' buffer Hb Hoff). lra.
Qed.

Lemma resolved_export_restores_the_transport_witness :
  isPlaying (fst (exportVideo (M := approxMath) true 1 (Some Canvas) Mp4 demoExport
                    demoRunning)) = true /\
  (true = false ->
   forall t,
     getCurrentOffset false t
       (fst (exportVideo (M := approxMath) true 1 (Some Canvas) Mp4 demoExport
               demoRunning))
     == getCurrentOffset true (ex_now demoExport) demoRunning) /\
  (true = true ->
   getCurrentOffset true (ex_restoreNow demoExport)
     (fst (exportVideo (M := approxMath) true 1 (Some Canvas) Mp4 demoExport
             demoRunning))
   == getCurrentOffset true (ex_now demoExport) demoRunning).
Proof.
  apply (resolved_export_restores_the_transport (M := approxMath) true 1 (Some Canvas)
           Mp4 demoExport demoRunning _ (mkBlob "video/mp4" [26; 69; 223; 163]%nat)
           demoBuffer).
  - vm_compute. reflexivity.
  - vm_compute. reflexivity.
  - vm_compute. discriminate.
  - vm_compute. discriminate.
Defined.

(** * What reaches the speakers *)

Ltac in_connect :=
  repeat first [ assumption
               | apply In_connect; first [left; reflexivity | right] ].

Lemma ensureAudioContext_wired (v : Q) (backend : Backend) (s : Engine) :
  graph_wired s -> graph_wired (fst (ensureAudioContext v backend s)).
Proof.
  unfold graph_wired. break_engine s.
  destruct backend, f_audioContextRef, f_gainRef, f_destinationRef, f_analyserRef;
    lazy -[connect In]; intros [Ha Hg];
    (split; [intros Hx | intros Hx; split; [| split]]);
    first [ reflexivity
          | discriminate
          | exfalso; apply Hx; reflexivity
          | in_connect; fail
          | apply Ha; reflexivity
          | apply Hg; discriminate
          | in_connect; apply Ha; reflexivity
          | in_connect; apply Hg; discriminate
          | idtac ].
Qed.

Lemma In_retired (source : option NodeId) (a b : GraphNode) (g : list Edge) :
  (forall n, a <> NSource n) -> In (a, b) g ->
  In (a, b) (match source with
             | Some n => disconnect (NSource n) g
             | None => g
             end).
Proof.
  intros Ha H. destruct source as [n |]; [| exact H].
  apply In_disconnect. split; [exact H | apply Ha].
Qed.

Lemma graph_wired_retired (source : option NodeId) (g : list Edge)
    (analyser : bool) (gain : option Q) :
  ((analyser = true -> In (NAnalyser, NGain) g) /\
   (gain <> None ->
    analyser = true /\ In (NGain, NSpeaker) g /\ In (NGain, NCaptureSink) g)) ->
  (analyser = true ->
   In (NAnalyser, NGain)
     (match source with Some n => disconnect (NSource n) g | None => g end)) /\
  (gain <> None ->
   analyser = true /\
   In (NGain, NSpeaker)
     (match source with Some n => disconnect (NSource n) g | None => g end) /\
   In (NGain, NCaptureSink)
     (match source with Some n => disconnect (NSource n) g | None => g end)).
Proof.
  intros [Ha Hg]. split.
  - intros Hx. apply In_retired; [discriminate | apply Ha; exact Hx].
  - intros Hx. destruct (Hg Hx) as (H1 & H2 & H3).
    split; [exact H1 |]. split; apply In_retired; first [discriminate | assumption].
Qed.

Lemma graph_wired_stable (v : Q) : Stable graph_wired v.
Proof.
  constructor; try (intros; intros s H; exact H).
  - intros decoded s H. unfold graph_wired. rewrite installBuffer_eq. peel.
    apply graph_wired_retired. exact H.
  - intros backend s H. apply ensureAudioContext_wired. exact H.
  - intros now startOffset markPlaying s _ _ H. unfold graph_wired.
    rewrite startSegment_eq.
    pose proof (graph_wired_retired (sourceNodeRef s) (connections s)
                  (analyserRef s) (gainRef s) H) as [Ha Hg].
    destruct markPlaying; peel; (split; [intros Hx | intros Hx]).
    + apply In_connect. right. apply Ha. exact Hx.
    + destruct (Hg Hx) as (H1 & H2 & H3).
      split; [exact H1 |]. split; apply In_connect; right; assumption.
    + apply In_connect. right. apply Ha. exact Hx.
    + destruct (Hg Hx) as (H1 & H2 & H3).
      split; [exact H1 |]. split; apply In_connect; right; assumption.
  - intros playing now s H.
    destruct (pause_shape playing now s) as [-> | ->]; [exact H |].
    unfold graph_wired. rewrite stopCurrentSource_eq. peel.
    apply graph_wired_retired. exact H.
  - intros source markPlaying s H.
    destruct (onended_shape source markPlaying s) as [-> | ->]; [exact H |].
    destruct markPlaying; exact H.
Qed.

Lemma graph_wired_events `{M : JsMath} : StableEvents graph_wired.
Proof.
  constructor.
  - intros now t render s H. unfold loop.
    destruct (analyserRef s) eqn:Ea; [| exact H].
    destruct (audioBufferRef s); [| exact H].
    destruct (headRotation s) as [[x y] z]. destruct (eyeDirection s) as [ex ey].
    unfold graph_wired in *. peel. rewrite Ea in *. exact H.
  - intros value s H. unfold updateVolume, graph_wired in *. peel.
    destruct (gainRef s) as [g |] eqn:Eg; peel; [| rewrite Eg; exact H].
    destruct H as [Ha Hg]. split; [exact Ha |]. intros _. apply Hg. discriminate.
  - intros key value s H. exact H.
  - intros random s H. exact H.
Qed.

Lemma session_graph_wired `{M : JsMath} (actions : list Action) (seed : Q) :
  graph_wired (session actions (initialEngine seed)).
Proof.
  apply invF_session.
  - intros s _. apply graph_wired_stable.
  - apply graph_wired_events.
  - split; [discriminate | intros H; exfalso; apply H; reflexivity].
Qed.

(** The one node that feeds [n]. *)
Lemma preds_single (g : list Edge) (m n : GraphNode) :
  NoDup g -> In (m, n) g -> (forall a, In (a, n) g -> a = m) -> preds g n = [m].
Proof.
  unfold preds. induction g as [| [a b] g IH]; intros Hnd Hin Hall; [destruct Hin |].
  inversion Hnd as [| e g' Hnot Hnd']; subst.
  cbn [filter snd]. destruct (GraphNode_eqb b n) eqn:Eb.
  - apply GraphNode_eqb_eq in Eb. subst b.
    assert (Ha : a = m) by (apply Hall; left; reflexivity). subst a.
    cbn [map fst]. f_equal.
    destruct (filter (fun e => GraphNode_eqb (snd e) n) g) as [| [x y] rest] eqn:Ef;
      [reflexivity |].
    exfalso. apply Hnot.
    assert (Hx : In (x, y) (filter (fun e => GraphNode_eqb (snd e) n) g))
      by (rewrite Ef; left; reflexivity).
    apply filter_In in Hx. destruct Hx as [Hx Hy]. cbn [snd] in Hy.
    apply GraphNode_eqb_eq in Hy. subst y.
    assert (x = m) by (apply Hall; right; exact Hx). subst x. exact Hx.
  - apply IH; [exact Hnd' | | intros x Hx; apply Hall; right; exact Hx].
    destruct Hin as [Heq | Hin]; [| exact Hin].
    inversion Heq; subst. rewrite (proj2 (GraphNode_eqb_eq n n) eq_refl) in Eb.
    discriminate.
Qed.

Lemma addBlock_length (acc blk : list Q) :
  List.length (addBlock acc blk) = List.length acc.
Proof.
  revert blk. induction acc as [| a acc IH]; intros blk; [reflexivity |].
  destruct blk as [| b blk]; [reflexivity |]. cbn [addBlock List.length].
  rewrite IH. reflexivity.
Qed.

Lemma mix_length (blocks : list (list Q)) (acc : list Q) :
  List.length (fold_left addBlock blocks acc) = List.length acc.
Proof.
  revert acc. induction blocks as [| b blocks IH]; intros acc; [reflexivity |].
  cbn [fold_left]. rewrite IH. apply addBlock_length.
Qed.

(** Passing a block through two mixers that add nothing, scaling in
    between. *)
Lemma through_gain (gain : Q) (zeros block : list Q) :
  Forall (fun z => z == 0) zeros -> List.length block = List.length zeros ->
  Forall2 Qeq (addBlock zeros (map (Qmult gain) (addBlock zeros block)))
    (map (Qmult gain) block).
Proof.
  intros Hz. revert block. induction Hz as [| z zeros Hz0 Hz IH]; intros block Hlen.
  - destruct block; [constructor | discriminate].
  - destruct block as [| x block]; [discriminate |].
    cbn [addBlock map]. constructor.
    + rewrite Hz0. ring.
    + apply IH. cbn in Hlen. lia.
Qed.

Lemma silence_zero : Forall (fun z => z == 0) silence.
Proof.
  unfold silence. apply Forall_forall. intros z Hz.
  apply repeat_spec in Hz. subst z. reflexivity.
Qed.

(** The speakers get the analyser's block, scaled by the gain. *)
Lemma speaker_path (g : list Edge) (created : nat) (gain : Q)
    (render : NodeId -> list Q) :
  edges_shaped g created ->
  In (NAnalyser, NGain) g -> In (NGain, NSpeaker) g ->
  Forall2 Qeq (nodeOutput graphDepth g gain render NSpeaker)
    (map (Qmult gain) (nodeOutput graphDepth g gain render NAnalyser)).
Proof.
  intros [Hnd Hshape] Hag Hgs.
  assert (Hs : preds g NSpeaker = [NGain]).
  { apply preds_single; [exact Hnd | exact Hgs |].
    intros a Ha.
    destruct (Hshape _ _ Ha) as [(n & _ & Hb & _) | [[_ Hb] | [[Ha' _] | [_ Hb]]]];
      first [discriminate | exact Ha']. }
  assert (Hg : preds g NGain = [NAnalyser]).
  { apply preds_single; [exact Hnd | exact Hag |].
    intros a Ha.
    destruct (Hshape _ _ Ha) as [(n & _ & Hb & _) | [[Ha' _] | [[_ Hb] | [_ Hb]]]];
      first [discriminate | exact Ha']. }
  assert (Htap : nodeOutput 2 g gain render NAnalyser
                 = nodeOutput graphDepth g gain render NAnalyser).
  { unfold graphDepth. cbn [nodeOutput]. f_equal. apply map_ext_in.
    intros a Ha. unfold preds in Ha. apply in_map_iff in Ha.
    destruct Ha as [[a' b] [Hfst Hin]]. cbn in Hfst. subst a'.
    apply filter_In in Hin. destruct Hin as [Hin Hb]. cbn in Hb.
    apply GraphNode_eqb_eq in Hb. subst b.
    destruct (Hshape _ _ Hin) as [(n & -> & _) | [[_ Hb] | [[_ Hb] | [_ Hb]]]];
      first [discriminate | reflexivity]. }
  assert (Hout : nodeOutput graphDepth g gain render NSpeaker
                 = addBlock silence
                     (map (Qmult gain)
                        (addBlock silence (nodeOutput 2 g gain render NAnalyser)))).
  { unfold graphDepth.
    change (nodeOutput 4 g gain render NSpeaker)
      with (fold_left addBlock (map (nodeOutput 3 g gain render) (preds g NSpeaker))
              silence).
    rewrite Hs. cbn [map fold_left].
    change (nodeOutput 3 g gain render NGain)
      with (map (Qmult gain)
              (fold_left addBlock (map (nodeOutput 2 g gain render) (preds g NGain))
                 silence)).
    rewrite Hg. reflexivity. }
  rewrite Hout, Htap. apply through_gain; [apply silence_zero |].
  unfold graphDepth. cbn [nodeOutput]. apply mix_length.
Qed.

(** X28: in every state a session reaches, once the gain node exists, the
    block that reaches the speakers is the block at the analyser's input
    with every sample multiplied by the gain; at gain 0 the speakers are
    silent, whatever the analyser (and with it the animation) receives. *)
Theorem speakers_get_the_tap_times_the_gain `{M : JsMath} (actions : list Action)
    (seed : Q) (render : NodeId -> list Q) (gain : Q) :
  let s := session actions (initialEngine seed) in
  gainRef s = Some gain ->
  Forall2 Qeq (speakerSignal render s)
    (map (Qmult gain) (getFloatTimeDomainData render s)) /\
  (gain == 0 -> Forall (fun sample => sample == 0) (speakerSignal render s)).
Proof.
  intros s Hg.
  pose proof (session_graph_shaped actions seed) as Hshape.
  pose proof (session_graph_wired actions seed) as [Ha Hw].
  fold s in Hshape, Ha, Hw.
  assert (Hsome : gainRef s <> None) by (rewrite Hg; discriminate).
  destruct (Hw Hsome) as (Han & Hgs & _).
  assert (Hpath : Forall2 Qeq (speakerSignal render s)
                    (map (Qmult gain) (getFloatTimeDomainData render s))).
  { unfold speakerSignal, getFloatTimeDomainData. rewrite Hg.
    apply (speaker_path _ (nodesCreated s)); [exact Hshape | apply Ha; exact Han | exact Hgs]. }
  split; [exact Hpath |].
  intros Hzero. revert Hpath.
  generalize (speakerSignal render s), (getFloatTimeDomainData render s).
  intros out tap Hpath. remember (map (Qmult gain) tap) as scaled eqn:Es.
  revert tap Es. induction Hpath as [| x y out scaled Hxy Hrest IH]; intros tap Es.
  - constructor.
  - destruct tap as [| t tap]; [discriminate |]. cbn [map] in Es.
    inversion Es; subst. constructor.
    + rewrite Hxy, Hzero. ring.
    + apply (IH tap). reflexivity.
Qed.

Lemma speakers_get_the_tap_times_the_gain_witness :
  let s := session (M := approxMath) (demoSession 0) (initialEngine (1 # 3)) in
  Forall2 Qeq (speakerSignal demoRender s)
    (map (Qmult 0) (getFloatTimeDomainData demoRender s)) /\
  (0 == 0 -> Forall (fun sample => sample == 0) (speakerSignal demoRender s)).
Proof.
  apply (speakers_get_the_tap_times_the_gain (M := approxMath) (demoSession 0)
           (1 # 3) demoRender 0).
  vm_compute. reflexivity.
Defined.

(** * Sliders and export buttons *)

Lemma sliderPosition_of_value (position : Z) (value : Q) :
  value == sliderValue position -> sliderPosition value = position.
Proof.
  intros H. unfold sliderPosition, Math_round. apply Qfloor_unique.
  - rewrite H. unfold sliderValue.
    assert (He : inject_Z position / 100 * 100 == inject_Z position) by field.
    rewrite He. lra.
  - rewrite H. unfold sliderValue.
    assert (He : inject_Z position / 100 * 100 == inject_Z position) by field.
    rewrite He, inject_Z_plus. change (inject_Z 1) with 1. lra.
Qed.

Lemma sliderValue_range (position : Z) :
  (0 <= position <= 100)%Z -> unit_range (sliderValue position).
Proof.
  intros [H0 H1]. unfold unit_range, sliderValue.
  assert (He : inject_Z position / 100 == inject_Z position * (1 # 100)) by field.
  rewrite He. rewrite Zle_Qle in H0, H1.
  change (inject_Z 0) with 0 in H0. change (inject_Z 100) with 100 in H1.
  split; lra.
Qed.

(** X29: the sliders show what was set.  After the volume slider or an
    emotion slider has been moved to a position between 0 and 100, the
    state holds that position divided by 100, and the slider, which shows
    the state times 100 rounded, shows that position again; and in every
    state a session reaches the volume slider stands between 0 and 100. *)
Theorem sliders_show_what_was_set `{M : JsMath} (position : Z) (key : EmotionKey)
    (s : Engine) (actions : list Action) (seed : Q) :
  (0 <= position <= 100)%Z ->
  volume (updateVolume (sliderValue position) s) == sliderValue position /\
  sliderPosition (volume (updateVolume (sliderValue position) s)) = position /\
  emotionOf key (emotions (setEmotionValue key (sliderValue position) s))
  == sliderValue position /\
  sliderPosition (emotionOf key (emotions (setEmotionValue key (sliderValue position) s)))
  = position /\
  (0 <= sliderPosition (volume (session actions (initialEngine seed))) <= 100)%Z.
Proof.
  intros Hp. destruct (sliderValue_range position Hp) as [H0 H1].
  pose proof (clamp01_id (sliderValue position) H0 H1) as Hid.
  assert (Hv : volume (updateVolume (sliderValue position) s) == sliderValue position).
  { destruct (updateVolume_gain (sliderValue position) s) as (_ & -> & _).
    exact Hid. }
  assert (He : emotionOf key (emotions (setEmotionValue key (sliderValue position) s))
               == sliderValue position).
  { assert (Hk : emotionOf key (emotions (setEmotionValue key (sliderValue position) s))
                 = clamp01 (sliderValue position)) by (destruct key; reflexivity).
    rewrite Hk. exact Hid. }
  split; [exact Hv |]. split; [apply sliderPosition_of_value; exact Hv |].
  split; [exact He |]. split; [apply sliderPosition_of_value; exact He |].
  destruct (session_volume_in_range actions seed) as [[V0 V1] _].
  set (vol := volume (session actions (initialEngine seed))) in *.
  unfold sliderPosition, Math_round. split.
  - rewrite <- (Qfloor_Z 0). apply Qfloor_resp_le. change (inject_Z 0) with 0. lra.
  - assert (Hle : (Qfloor (vol * 100 + (1 # 2)) <= Qfloor (100 + (1 # 2)))%Z)
      by (apply Qfloor_resp_le; lra).
    assert (Hc : Qfloor (100 + (1 # 2)) = 100%Z) by (vm_compute; reflexivity).
    lia.
Qed.

Lemma sliders_show_what_was_set_witness :
  volume (updateVolume (sliderValue 35) demoRunning) == sliderValue 35 /\
  sliderPosition (volume (updateVolume (sliderValue 35) demoRunning)) = 35%Z /\
  emotionOf Sad (emotions (setEmotionValue Sad (sliderValue 35) demoRunning))
  == sliderValue 35 /\
  sliderPosition (emotionOf Sad (emotions (setEmotionValue Sad (sliderValue 35)
                                             demoRunning))) = 35%Z /\
  (0 <= sliderPosition (volume (session (M := approxMath) demoStart
                                  (initialEngine (1 # 3)))) <= 100)%Z.
Proof.
  apply (sliders_show_what_was_set (M := approxMath) 35 Sad demoRunning demoStart
           (1 # 3)).
  lia.
Defined.

(** X30: in every state a session reaches, an export button without
    audio only shows a hint; with audio and a canvas the export gets past
    both precondition checks, so it ends with [isExporting] lowered and one
    of its two final status messages; a file is downloaded exactly when
    the export resolves, it is the resolved blob under the extension of
    the requested format, and the toast is a success exactly then. *)
Theorem export_button_downloads_what_was_recorded `{M : JsMath}
    (actions : list Action) (seed : Q) (format : ExportFormat) (env : ExportEnv)
    (toast : option Toast) :
  let s := session actions (initialEngine seed) in
  let after := handleExport (Some Canvas) format env (mkPage s toast) in
  (hasAudio s = false ->
   after = (mkPage s (Some (mkToast ToastInfo "Provide audio before exporting.")),
            None)) /\
  (hasAudio s = true ->
   isExporting (page_engine (fst after)) = false /\
   match snd (exportVideo (isPlaying s) (volume s) (Some Canvas) format env s) with
   | Resolved blob =>
       snd after = Some (mkDownload blob (extension format)) /\
       page_toast (fst after)
       = Some (mkToast ToastSuccess
                 ("Exported " ++ toUpperCase format ++ " successfully.")) /\
       statusMessage (page_engine (fst after)) = Some "Export complete."%string
   | Rejected message =>
       snd after = None /\
       page_toast (fst after) = Some (mkToast ToastError message) /\
       statusMessage (page_engine (fst after))
       = Some "Export failed. Please try again."%string
   end).
Proof.
  intros s after. unfold after, handleExport. cbn [page_engine].
  pose proof (session_asset_consistent actions seed) as [Hasset _].
  fold s in Hasset.
  split.
  - intros Hh. rewrite Hh. reflexivity.
  - intros Hh. rewrite Hh. cbn [negb].
    assert (Hb : audioBufferRef s <> None) by (apply Hasset; exact Hh).
    assert (Hflag : isExporting
                      (fst (exportVideo (isPlaying s) (volume s) (Some Canvas) format
                              env s)) = false).
    { unfold exportVideo.
      destruct (audioBufferRef s) as [buffer |]; [| contradiction].
      unfold bind at 1 2 3. unfold modify at 1 2. unfold gets at 1.
      match goal with
      | |- context [tryCatchFinally ?body ?handler ?final ?s0] =>
          destruct (tryCatchFinally_outcome body handler final s0)
            as [(s1 & a & _ & ->) | (s1 & e1 & _ & ->)]
      end; reflexivity. }
    destruct (exportVideo (isPlaying s) (volume s) (Some Canvas) format env s)
      as [s' [blob | message]] eqn:E; cbn [fst snd page_engine page_toast] in *.
    + split; [exact Hflag |]. split; [reflexivity |].
      split; [reflexivity |].
      destruct (exportVideo_resolved_shape _ _ _ _ _ _ _ _ E)
        as (_ & _ & _ & _ & _ & _ & _ & mid & -> & _).
      unfold restored. destruct (isPlaying s).
      * match goal with
        | |- context [schedulePlayback ?a ?b ?c ?d ?e ?x] =>
            destruct (schedulePlayback_leaves a b c d e x) as (Hm & _)
        end.
        peel. rewrite Hm. reflexivity.
      * reflexivity.
    + split; [exact Hflag |]. split; [reflexivity |]. split; [reflexivity |].
      revert E. unfold exportVideo.
      destruct (audioBufferRef s) as [buffer |]; [| contradiction].
      unfold bind at 1 2 3. unfold modify at 1 2. unfold gets at 1.
      match goal with
      | |- context [tryCatchFinally ?body ?handler ?final ?s0] =>
          destruct (tryCatchFinally_outcome body handler final s0)
            as [(s1 & a & _ & ->) | (s1 & e1 & _ & ->)]
      end; intros E; [discriminate |].
      assert (Hs : s' = fst (s', @Rejected Blob message)) by reflexivity.
      rewrite <- E in Hs. rewrite Hs. reflexivity.
Qed.
